(** * Chatsy: the message pipeline of the browser extension, embedded in Rocq

    The development follows the JavaScript sources file by file:
    - [JS]: the fragment of the language the sources rely on (strings as
      sequences of UTF-16 code units, 32-bit integer coercion, radix-16
      printing, doubles, truthiness, JSON-like values);
    - [Adapter]: the three platform adapters (contact identifier resolution);
    - [MessageDetector], [Observer]: the conversation feed observer;
    - [UIOverlay]: the suggestion overlay and its timers;
    - [ContentScript]: the content script orchestrating context and overlay;
    - [APIManager]: provider fallback chain and rate limiter;
    - [PrivacyManager], [Regex], [Sanitizer]: hashing, encryption and
      scrubbing of what is stored and sent;
    - [ServiceWorker], [AIRequest]: requests and persisted records;
    - [EventEmitter]: the emitter the detector and the overlay extend;
    - [PlatformDetector]: platform detection and the injection check.

    Definitions come first, the verified properties after them. *)

From Stdlib Require Import String Ascii ZArith Bool Lia QArith Qround Qpower
  Qabs Lqa List.
Import ListNotations.

Local Open Scope Z_scope.

(* ================================================================== *)
(** ** The JavaScript fragment *)
(* ================================================================== *)

Module JS.

(** A JavaScript string is a finite sequence of UTF-16 code units;
    [charCodeAt i] is the [i]-th element and [length] counts code units. *)
Definition jsstring := list Z.

(** ASCII literals of the sources. *)
Definition lit (s : string) : jsstring :=
  map (fun a => Z.of_N (N_of_ascii a)) (list_ascii_of_string s).
Arguments lit s%_string.

Definition jsstring_eqb (a b : jsstring) : bool :=
  if list_eq_dec Z.eq_dec a b then true else false.

(** [s.startsWith(p)]. *)
Fixpoint starts_with (s p : jsstring) : bool :=
  match p, s with
  | [], _ => true
  | _ :: _, [] => false
  | c :: p', d :: s' => (c =? d) && starts_with s' p'
  end.

(** [s.includes(sub)]: [sub] occurs at some position of [s]. *)
Fixpoint includes (s sub : jsstring) : bool :=
  starts_with s sub ||
  match s with
  | [] => false
  | _ :: t => includes t sub
  end.

(** [s.endsWith(p)]. *)
Definition ends_with (s p : jsstring) : bool :=
  starts_with (rev s) (rev p).

(** White space and line terminators, as [trim] and the regular
    expression class [\s] understand them. *)
Definition is_space (c : Z) : bool :=
  (c =? 9) || (c =? 10) || (c =? 11) || (c =? 12) || (c =? 13) ||
  (c =? 32) || (c =? 160) || (c =? 5760) ||
  ((8192 <=? c) && (c <=? 8202)) ||
  (c =? 8232) || (c =? 8233) || (c =? 8239) || (c =? 8287) ||
  (c =? 12288) || (c =? 65279).

Fixpoint trim_start (s : jsstring) : jsstring :=
  match s with
  | c :: t => if is_space c then trim_start t else s
  | [] => []
  end.

Definition trim_end (s : jsstring) : jsstring := rev (trim_start (rev s)).

(** [s.trim()]. *)
Definition trim (s : jsstring) : jsstring := trim_end (trim_start s).

(** [s.substring(0, n)] for [0 <= n]. *)
Definition substring0 (n : nat) (s : jsstring) : jsstring := firstn n s.

(** ToInt32: the value every bitwise operator coerces its operands to. *)
Definition to_int32 (x : Z) : Z := (x + 2 ^ 31) mod 2 ^ 32 - 2 ^ 31.

(** [x << k] on numbers. *)
Definition shl32 (x : Z) (k : Z) : Z := to_int32 (Z.shiftl (to_int32 x) k).

(** [x & y] on numbers. *)
Definition and32 (x y : Z) : Z := to_int32 (Z.land (to_int32 x) (to_int32 y)).

(** The digit characters of [Number.prototype.toString(16)]. *)
Definition hex_digit (d : Z) : Z :=
  if d <? 10 then 48 + d else 97 + (d - 10).

Definition is_hex_digit (c : Z) : bool :=
  ((48 <=? c) && (c <=? 57)) || ((97 <=? c) && (c <=? 102)).

Fixpoint to_hex_aux (fuel : nat) (n : Z) (acc : jsstring) : jsstring :=
  match fuel with
  | O => acc
  | S f =>
      let acc' := hex_digit (n mod 16) :: acc in
      if n / 16 =? 0 then acc' else to_hex_aux f (n / 16) acc'
  end.

(** [n.toString(16)] for a non-negative integer [n]; the fuel exceeds the
    number of binary digits of [n], hence the number of its hex digits. *)
Definition toString16 (n : Z) : jsstring :=
  to_hex_aux (S (Z.to_nat (Z.log2 n))) n [].

(** [n.toString()] is only ever applied to the literal [0] in the sources. *)
Definition zero_toString : jsstring := lit "0".

(** The value denoted by a string of hex digits read most significant
    digit first (the inverse reading of [toString16]). *)
Definition hex_digit_value (c : Z) : Z :=
  if c <? 58 then c - 48 else c - 97 + 10.

Definition hex_value (s : jsstring) : Z :=
  fold_left (fun acc c => 16 * acc + hex_digit_value c) s 0.

(** Numbers are doubles; a double is written as the rational it is. *)

(** [2^k] for an integer [k]. *)
Definition pow2 (k : Z) : Q := Qpower 2 k.

(** The binary exponent of a positive number [x]: the [e] with
    [2^e <= x < 2^(e+1)]. *)
Definition exponent (x : Q) : Z :=
  let d := Z.log2 (Qnum x) - Z.log2 (Zpos (Qden x)) in
  if Qle_bool (pow2 d) x then d else d - 1.

(** The distance between neighbouring doubles at a positive number [x]:
    a double has 53 significant binary digits, and below [2^-1022] the
    doubles are [2^-1074] apart. *)
Definition ulp (x : Q) : Q := pow2 (Z.max (exponent x) (-1022) - 52).

(** Rounding to the nearest integer, a tie to the even one. *)
Definition round_half_even (x : Q) : Z :=
  let m := Qfloor x in
  match Qcompare (x - inject_Z m)%Q (1 # 2) with
  | Lt => m
  | Gt => m + 1
  | Eq => if Z.even m then m else m + 1
  end.

(** The Number value for [x]: the double nearest to it, a tie to the one
    with the even significand; [x] is below [2^1024] in size, where no
    rounding yields an infinity. *)
Definition to_double (x : Q) : Q :=
  if Qeq_bool x 0 then 0
  else
    let a := Qabs x in
    let y := (inject_Z (round_half_even (a / ulp a)) * ulp a)%Q in
    if Qle_bool 0 x then y else (- y)%Q.

(** The largest double not above a number that is not negative. *)
Definition double_below (x : Q) : Q :=
  if Qle_bool x 0 then 0
  else (inject_Z (Qfloor (x / ulp x)) * ulp x)%Q.

End JS.

(* ================================================================== *)
(** ** The 32-bit rolling hash shared by all components *)
(* ================================================================== *)

Module Hash.
Import JS.

(** One round of the loop body:
    [hash = ((hash << 5) - hash) + char; hash = hash & hash]. *)
Definition step (hash char : Z) : Z :=
  let hash := (shl32 hash 5 - hash) + char in
  and32 hash hash.

(** The [for] loop over the code units, left to right. *)
Definition loop (str : jsstring) (hash : Z) : Z := fold_left step str hash.

(** [simpleHash] of the privacy manager; [hashString] of the three
    adapters and of the message detector have the very same body. *)
Definition simpleHash (str : jsstring) : jsstring :=
  let hash := 0 in
  if (Z.of_nat (length str) =? 0) then zero_toString
  else toString16 (Z.abs (loop str hash)).

Definition hashString (str : jsstring) : jsstring := simpleHash str.

End Hash.

(* ================================================================== *)
(** ** Platform adapters: contact identifier resolution *)
(* ================================================================== *)

Module Adapter.
Import JS.

(** The three adapter classes share one shape and differ in their
    constants only. *)
Inductive platform := WhatsApp | Instagram | Telegram.

(** [this.platform]. *)
Definition platform_name (p : platform) : jsstring :=
  match p with
  | WhatsApp => lit "whatsapp"
  | Instagram => lit "instagram"
  | Telegram => lit "telegram"
  end.

(** What the adapter reads from the host page: [window.location.href],
    [document.title], and for a selector the [textContent] of the first
    element [document.querySelector] finds ([None]: no such element). *)
Record Page := {
  href : jsstring;
  title : jsstring;
  querySelector : jsstring -> option jsstring
}.

(** The character class [[^/?]]. *)
Definition is_segment_char (c : Z) : bool :=
  negb ((c =? 47) || (c =? 63)).

(** The greedy group [([^/?]+)] read at the head of [s]. *)
Fixpoint take_segment (s : jsstring) : jsstring :=
  match s with
  | c :: t => if is_segment_char c then c :: take_segment t else []
  | [] => []
  end.

(** [s.match(/<prefix>([^/?]+)/)] followed by [match ? match[1] : null]:
    the leftmost position where the literal prefix is followed by at least
    one segment character; the capture is the maximal run. *)
Fixpoint match_capture (prefix s : jsstring) : option jsstring :=
  match s with
  | [] => None
  | _ :: t =>
      if starts_with s prefix then
        match take_segment (skipn (length prefix) s) with
        | [] => match_capture prefix t
        | seg => Some seg
        end
      else match_capture prefix t
  end.

(** The literal part of each adapter's URL pattern:
    [/chat\/([^/?]+)/], [/direct\/t\/([^/?]+)/], [/c\/([^/?]+)/]. *)
Definition url_prefix (p : platform) : jsstring :=
  match p with
  | WhatsApp => lit "chat/"
  | Instagram => lit "direct/t/"
  | Telegram => lit "c/"
  end.

(** The page titles each adapter treats as generic placeholders. *)
Definition generic_titles (p : platform) : list jsstring :=
  match p with
  | WhatsApp => [lit "WhatsApp"; lit "WhatsApp Web"]
  | Instagram => [lit "Instagram"; lit "Direct"]
  | Telegram => [lit "Telegram"; lit "Telegram Web"]
  end.

(** An attribute selector [[name="value"]]; 34 is the double quote. *)
Definition attr_selector (name value : string) : jsstring :=
  lit "[" ++ lit name ++ lit "=" ++ [34] ++ lit value ++ [34] ++ lit "]".

(** [this.contactSelectors]. *)
Definition contactSelectors (p : platform) : list jsstring :=
  match p with
  | WhatsApp =>
      [attr_selector "data-testid" "conversation-title";
       lit ".conversation-title";
       attr_selector "data-testid" "chat-subtitle"]
  | Instagram =>
      [attr_selector "data-testid" "thread-header";
       lit ".thread-header";
       attr_selector "data-testid" "recipient";
       lit ".recipient-name"]
  | Telegram =>
      [lit ".chat-title";
       lit ".peer-title";
       lit ".chat-name";
       lit "[data-peer-id]"]
  end.

(** A string is truthy when it is not empty. *)
Definition truthy_str (s : jsstring) : bool :=
  negb (Z.of_nat (length s) =? 0).

(** A [string | null] value is truthy when present and not empty. *)
Definition truthy_opt (o : option jsstring) : bool :=
  match o with
  | Some s => truthy_str s
  | None => false
  end.

Definition hashString := Hash.hashString.

(** [extractContactIdFromURL]: the captured path segment, as it is. *)
Definition extractContactIdFromURL (p : platform) (pg : Page)
  : option jsstring :=
  match_capture (url_prefix p) (href pg).

(** [extractContactIdFromTitle]. *)
Definition extractContactIdFromTitle (p : platform) (pg : Page)
  : option jsstring :=
  if truthy_str (title pg) &&
     forallb (fun g => negb (jsstring_eqb (title pg) g)) (generic_titles p)
  then Some (hashString (title pg))
  else None.

(** The [for] loop of [extractContactIdFromElements] over the selectors. *)
Fixpoint first_labeled (pg : Page) (selectors : list jsstring)
  : option jsstring :=
  match selectors with
  | [] => None
  | sel :: rest =>
      match querySelector pg sel with
      | Some textContent =>
          if truthy_str textContent then
            let text := trim textContent in
            if truthy_str text && (0 <? Z.of_nat (length text))
            then Some (hashString text)
            else first_labeled pg rest
          else first_labeled pg rest
      | None => first_labeled pg rest
      end
  end.

Definition extractContactIdFromElements (p : platform) (pg : Page)
  : option jsstring :=
  first_labeled pg (contactSelectors p).

(** [getCurrentContactId]: URL, then title, then labeled elements. *)
Definition getCurrentContactId (p : platform) (pg : Page)
  : option jsstring :=
  let urlContactId := extractContactIdFromURL p pg in
  if truthy_opt urlContactId then urlContactId else
  let titleContactId := extractContactIdFromTitle p pg in
  if truthy_opt titleContactId then titleContactId else
  let elementContactId := extractContactIdFromElements p pg in
  if truthy_opt elementContactId then elementContactId else
  None.

(** The payload of a detected message. *)
Record MessageData := {
  message : jsstring;
  contactId : jsstring;
  platform_ : jsstring;
  timestamp : Z;
  type : jsstring
}.

(** The payload of a typing signal; [contactId] may be [null]. *)
Record TypingData := {
  t_contactId : option jsstring;
  t_platform : jsstring;
  t_timestamp : Z
}.

(** [extractMessageData]: [messageText], [nodeTimestamp] and [messageType]
    are what [extractMessageText], [extractMessageTimestamp] and
    [getMessageType] read from the node; [now] is [Date.now()]. *)
Definition extractMessageData (p : platform) (pg : Page)
    (messageText : option jsstring) (nodeTimestamp : option Z)
    (messageType : jsstring) (now : Z) : option MessageData :=
  match messageText with
  | None => None
  | Some text =>
      if negb (truthy_str text) then None else
      match getCurrentContactId p pg with
      | None => None
      | Some cid =>
          if negb (truthy_str cid) then None else
          let ts := match nodeTimestamp with
                    | Some t => if t =? 0 then now else t
                    | None => now
                    end in
          Some {| message := text; contactId := cid;
                  platform_ := platform_name p;
                  timestamp := ts; type := messageType |}
      end
  end.

(** [detectTyping], given whether the node or one of its children is a
    typing indicator. *)
Definition detectTyping (p : platform) (pg : Page)
    (isTypingIndicator : bool) (now : Z) : option TypingData :=
  if isTypingIndicator then
    Some {| t_contactId := getCurrentContactId p pg;
            t_platform := platform_name p;
            t_timestamp := now |}
  else None.

End Adapter.

(* ================================================================== *)
(** ** The conversation feed observer *)
(* ================================================================== *)

Module MessageDetector.
Import JS.
Export Adapter.

Inductive Event :=
| messageReceived (d : MessageData)
| typingDetected (d : TypingData)
| contactChanged (contactId : jsstring) (platform : jsstring) (timestamp : Z).

(** The fields of the detector the handlers read and write, and the
    events emitted so far, oldest first. *)
Record Detector := {
  platformAdapter : option platform;
  currentPlatform : jsstring;
  messageQueue : list MessageData;
  lastMessageTime : Z;
  lastContactId : option jsstring;
  typingTimeout : option TypingData;
  emitted : list Event
}.

(** The state the constructor leaves. *)
Definition new (adapter : option platform) (currentPlatform : jsstring)
  : Detector :=
  {| platformAdapter := adapter; currentPlatform := currentPlatform;
     messageQueue := []; lastMessageTime := 0; lastContactId := None;
     typingTimeout := None; emitted := [] |}.

Definition emit (e : Event) (st : Detector) : Detector :=
  {| platformAdapter := platformAdapter st;
     currentPlatform := currentPlatform st;
     messageQueue := messageQueue st;
     lastMessageTime := lastMessageTime st;
     lastContactId := lastContactId st;
     typingTimeout := typingTimeout st;
     emitted := emitted st ++ [e] |}.

(** The literal part of the detector's own URL patterns, by platform
    name: [urlPatterns[platform]]. *)
Definition urlPattern (platformName : jsstring) : option jsstring :=
  if jsstring_eqb platformName (lit "whatsapp") then Some (lit "chat/")
  else if jsstring_eqb platformName (lit "instagram") then Some (lit "direct/t/")
  else if jsstring_eqb platformName (lit "telegram") then Some (lit "c/")
  else None.

(** [extractContactIdFromPage], the detector's fallback when no adapter
    provides [getCurrentContactId]. *)
Definition extractContactIdFromPage (st : Detector) (pg : Page)
  : option jsstring :=
  let fromUrl :=
    match urlPattern (currentPlatform st) with
    | Some prefix => match_capture prefix (href pg)
    | None => None
    end in
  if truthy_opt fromUrl then fromUrl
  else if truthy_str (title pg) &&
          negb (jsstring_eqb (title pg) (lit "WhatsApp")) &&
          negb (jsstring_eqb (title pg) (lit "Instagram")) &&
          negb (jsstring_eqb (title pg) (lit "Telegram"))
  then Some (Hash.hashString (title pg))
  else None.

(** [getCurrentContactId] of the detector. *)
Definition getCurrentContactId (st : Detector) (pg : Page)
  : option jsstring :=
  match platformAdapter st with
  | Some p => Adapter.getCurrentContactId p pg
  | None => extractContactIdFromPage st pg
  end.

(** [isDuplicateMessage]: the queue entries with the same contact and
    text less than 5000 ms away, counted and compared with 1. *)
Definition isDuplicateMessage (st : Detector) (messageData : MessageData)
  : bool :=
  let recentMessages :=
    filter (fun msg =>
              jsstring_eqb (contactId msg) (contactId messageData) &&
              jsstring_eqb (message msg) (message messageData) &&
              (Z.abs (timestamp msg - timestamp messageData) <? 5000))
           (messageQueue st) in
  1 <? Z.of_nat (length recentMessages).

(** [checkForContactChange]. *)
Definition checkForContactChange (pg : Page) (now : Z) (st : Detector)
  : Detector :=
  let currentContactId := getCurrentContactId st pg in
  match currentContactId with
  | Some cid =>
      if truthy_str cid &&
         negb (match lastContactId st with
               | Some l => jsstring_eqb cid l
               | None => false
               end)
      then
        emit (contactChanged cid (currentPlatform st) now)
          {| platformAdapter := platformAdapter st;
             currentPlatform := currentPlatform st;
             messageQueue := messageQueue st;
             lastMessageTime := lastMessageTime st;
             lastContactId := Some cid;
             typingTimeout := typingTimeout st;
             emitted := emitted st |}
      else st
  | None => st
  end.

(** One turn of the [while] loop of [processMessageQueue]: [shift] the
    head, record its time, check for a contact change. *)
Definition processOne (pg : Page) (now : Z) (messageData : MessageData)
    (rest : list MessageData) (st : Detector) : Detector :=
  checkForContactChange pg now
    {| platformAdapter := platformAdapter st;
       currentPlatform := currentPlatform st;
       messageQueue := rest;
       lastMessageTime := timestamp messageData;
       lastContactId := lastContactId st;
       typingTimeout := typingTimeout st;
       emitted := emitted st |}.

(** [processMessageQueue]: the loop runs until the queue is empty; it is
    written by recursion on the queue it drains. *)
Fixpoint drain (pg : Page) (now : Z) (queue : list MessageData)
    (st : Detector) : Detector :=
  match queue with
  | [] => st
  | messageData :: rest => drain pg now rest (processOne pg now messageData rest st)
  end.

Definition processMessageQueue (pg : Page) (now : Z) (st : Detector)
  : Detector :=
  drain pg now (messageQueue st) st.

Definition push (messageData : MessageData) (st : Detector) : Detector :=
  {| platformAdapter := platformAdapter st;
     currentPlatform := currentPlatform st;
     messageQueue := messageQueue st ++ [messageData];
     lastMessageTime := lastMessageTime st;
     lastContactId := lastContactId st;
     typingTimeout := typingTimeout st;
     emitted := emitted st |}.

(** [handleNewMessage]. *)
Definition handleNewMessage (pg : Page) (now : Z)
    (messageData : MessageData) (st : Detector) : Detector :=
  if negb (truthy_str (message messageData)) ||
     negb (truthy_str (contactId messageData)) ||
     negb (truthy_str (platform_ messageData))
  then st
  else if isDuplicateMessage st messageData then st
  else
    let st := push messageData st in
    let st := processMessageQueue pg now st in
    emit (messageReceived messageData) st.

(** [handleTypingDetected]: arms the one-second timer, replacing a
    pending one. *)
Definition handleTypingDetected (typingData : TypingData) (st : Detector)
  : Detector :=
  if negb (truthy_opt (t_contactId typingData)) ||
     negb (truthy_str (t_platform typingData))
  then st
  else
    {| platformAdapter := platformAdapter st;
       currentPlatform := currentPlatform st;
       messageQueue := messageQueue st;
       lastMessageTime := lastMessageTime st;
       lastContactId := lastContactId st;
       typingTimeout := Some typingData;
       emitted := emitted st |}.

(** The timer callback; a timer fires once, so nothing stays pending. *)
Definition typingTimerFired (st : Detector) : Detector :=
  match typingTimeout st with
  | Some typingData =>
      emit (typingDetected typingData)
        {| platformAdapter := platformAdapter st;
           currentPlatform := currentPlatform st;
           messageQueue := messageQueue st;
           lastMessageTime := lastMessageTime st;
           lastContactId := lastContactId st;
           typingTimeout := None;
           emitted := emitted st |}
  | None => st
  end.

(** A message that passes the validation of [handleNewMessage]. *)
Definition valid (d : MessageData) : Prop :=
  message d <> [] /\ contactId d <> [] /\ platform_ d <> [].

(** The [messageReceived] events among the emitted ones. *)
Definition receivedEvents (st : Detector) : list MessageData :=
  flat_map (fun e => match e with
                     | messageReceived d => [d]
                     | _ => []
                     end) (emitted st).

End MessageDetector.

(* ================================================================== *)
(** ** The overlay and its timers *)
(* ================================================================== *)

Module UIOverlay.
Import JS.

Section Overlay.

(** The overlay keeps the suggestions and the contact it is handed as they
    are; it reads nothing of them but the length of the list. *)
Variables Suggestion Contact : Type.

(** The overlay with its two timers: [pendingHides] counts the 200 ms
    timeouts [hide] has scheduled and that have not run yet,
    [autoHideTimer] tells whether the auto-hide timer is armed.  The
    element exists and writing its style does not throw. *)
Record Overlay := {
  isVisible : bool;
  currentSuggestions : list Suggestion;
  currentContact : option Contact;
  pendingHides : nat;
  autoHideTimer : bool
}.

(** The state after the constructor and [createOverlay]. *)
Definition new : Overlay :=
  {| isVisible := false; currentSuggestions := []; currentContact := None;
     pendingHides := 0; autoHideTimer := false |}.

(** [show]. *)
Definition show (o : Overlay) : Overlay :=
  if isVisible o then o
  else {| isVisible := true;
          currentSuggestions := currentSuggestions o;
          currentContact := currentContact o;
          pendingHides := pendingHides o;
          autoHideTimer := autoHideTimer o |}.

(** [hide]: the element starts to fade at once, the reset happens in a
    timeout 200 ms later; the auto-hide timer is cleared at once. *)
Definition hide (o : Overlay) : Overlay :=
  if negb (isVisible o) then o
  else {| isVisible := isVisible o;
          currentSuggestions := currentSuggestions o;
          currentContact := currentContact o;
          pendingHides := S (pendingHides o);
          autoHideTimer := false |}.

(** The timeout scheduled by [hide] running. *)
Definition hideTimeoutElapsed (o : Overlay) : Overlay :=
  match pendingHides o with
  | O => o
  | S n => {| isVisible := false; currentSuggestions := [];
              currentContact := None; pendingHides := n;
              autoHideTimer := autoHideTimer o |}
  end.

(** [showSuggestions]: the list is set, the overlay shown and the
    auto-hide timer armed anew. *)
Definition showSuggestions (suggestions : list Suggestion)
    (contact : option Contact) (o : Overlay) : Overlay :=
  if Z.of_nat (length suggestions) =? 0 then o
  else
    let o := {| isVisible := isVisible o;
                currentSuggestions := suggestions;
                currentContact := contact;
                pendingHides := pendingHides o;
                autoHideTimer := autoHideTimer o |} in
    let o := show o in
    {| isVisible := isVisible o;
       currentSuggestions := currentSuggestions o;
       currentContact := currentContact o;
       pendingHides := pendingHides o;
       autoHideTimer := true |}.

(** The auto-hide timer running. *)
Definition autoHideElapsed (o : Overlay) : Overlay :=
  if autoHideTimer o then
    hide {| isVisible := isVisible o;
            currentSuggestions := currentSuggestions o;
            currentContact := currentContact o;
            pendingHides := pendingHides o;
            autoHideTimer := false |}
  else o.

(** The overlay is on display and stays so until it is hidden: [show] has
    displayed the element and no timeout of [hide] is pending. *)
Definition onDisplay (o : Overlay) : bool :=
  isVisible o && Nat.eqb (pendingHides o) 0.

End Overlay.

Arguments isVisible {Suggestion Contact} o.
Arguments currentSuggestions {Suggestion Contact} o.
Arguments currentContact {Suggestion Contact} o.
Arguments pendingHides {Suggestion Contact} o.
Arguments autoHideTimer {Suggestion Contact} o.
Arguments new {Suggestion Contact}.
Arguments show {Suggestion Contact} o.
Arguments hide {Suggestion Contact} o.
Arguments hideTimeoutElapsed {Suggestion Contact} o.
Arguments showSuggestions {Suggestion Contact} suggestions contact o.
Arguments autoHideElapsed {Suggestion Contact} o.
Arguments onDisplay {Suggestion Contact} o.

End UIOverlay.

(* ================================================================== *)
(** ** The content script: context window, suggestions, overlay *)
(* ================================================================== *)

Module ContentScript.
Import JS.

(** [arr[Math.floor(Math.random() * arr.length)]].  [Math.random()]
    returns a double that is not negative and is below 1: it is supplied
    from outside as a rational [r] with [0 <= r < 1] and is the largest
    double not above [r], which is [r] itself when [r] is a double.  The
    product is rounded to a double, as the multiplication of the code is.
    Outside the array the result is [undefined] ([None]). *)
Definition random_pick {A} (r : Q) (arr : list A) : option A :=
  let random := double_below r in
  let i :=
    Qfloor (to_double (random * inject_Z (Z.of_nat (length arr)))) in
  if i <? 0 then None else nth_error arr (Z.to_nat i).

(** [conversationStyle] of a contact, read by the prompt builders and by
    [makeEngaging]. *)
Record Style := {
  formalityLevel : Q;
  emojiUsage : Q
}.

Record Contact := {
  contactId : jsstring;
  platform : jsstring;
  conversationStyle : option Style
}.

(** An entry of [conversationContext]. *)
Record ContextEntry := {
  c_type : jsstring;
  c_message : jsstring;
  c_timestamp : Z;
  c_contactId : jsstring
}.

Record Suggestion := {
  id : jsstring;
  text : jsstring;
  s_type : jsstring;
  description : jsstring
}.

(** The overlay of the content script. *)
Definition Overlay : Type := UIOverlay.Overlay Suggestion Contact.

Record Script := {
  isEnabled : bool;
  currentContact : option Contact;
  conversationContext : list ContextEntry;
  uiOverlay : option Overlay
}.

(** The state after the constructor and [setup]. *)
Definition new : Script :=
  {| isEnabled := true; currentContact := None; conversationContext := [];
     uiOverlay := Some UIOverlay.new |}.

(** [arr.splice(0, arr.length - n)] under the guard [arr.length > n]. *)
Definition trim_to_last (n : nat) {A} (arr : list A) : list A :=
  if (Z.of_nat n <? Z.of_nat (length arr))
  then skipn (length arr - n) arr
  else arr.

(** [handleMessageReceived].  The contact manager
    (storage/contact-manager.js) is not among the sources: [resolved] is the
    contact record its [getOrCreateContact(contactId, platform)] resolves
    to, which by the state store's contract it always does (creating the
    record with a default style on first sight).  The analyzer and the
    contact update that follow the trim receive the message and the contact
    only. *)
Definition handleMessageReceived (data : Adapter.MessageData)
    (resolved : Contact) (st : Script) : Script :=
  let pushed :=
    conversationContext st ++
    [{| c_type := lit "received";
        c_message := Adapter.message data;
        c_timestamp := Adapter.timestamp data;
        c_contactId := Adapter.contactId data |}] in
  {| isEnabled := isEnabled st;
     currentContact := Some resolved;
     conversationContext := trim_to_last 10 pushed;
     uiOverlay := uiOverlay st |}.

(** [handleContactChanged]; [resolved] as above. *)
Definition handleContactChanged (contactId platform : jsstring)
    (resolved : Contact) (st : Script) : Script :=
  {| isEnabled := isEnabled st;
     currentContact := Some resolved;
     conversationContext := [];
     uiOverlay := uiOverlay st |}.

(** The two operations on the context window, as a label of one step. *)
Inductive Op :=
| MessageReceived (data : Adapter.MessageData) (resolved : Contact)
| ContactChanged (contactId platform : jsstring) (resolved : Contact).

Definition step (st : Script) (op : Op) : Script :=
  match op with
  | MessageReceived data resolved => handleMessageReceived data resolved st
  | ContactChanged cid p resolved => handleContactChanged cid p resolved st
  end.

Definition run (ops : list Op) (st : Script) : Script :=
  fold_left step ops st.

(** [arr.join(sep)] on strings. *)
Fixpoint join (sep : jsstring) (parts : list jsstring) : jsstring :=
  match parts with
  | [] => []
  | [x] => x
  | x :: rest => x ++ sep ++ join sep rest
  end.

(** [arr.slice(-n)]. *)
Definition slice_last {A} (n : nat) (arr : list A) : list A :=
  skipn (length arr - n) arr.

(** [buildConversationContext]. *)
Definition buildConversationContext (st : Script) : jsstring :=
  if Z.of_nat (length (conversationContext st)) =? 0 then []
  else
    join [10]
      (map (fun ctx =>
              (if jsstring_eqb (c_type ctx) (lit "received")
               then lit "Them" else lit "You")
              ++ lit ": " ++ c_message ctx)
           (slice_last 5 (conversationContext st))).

(** The payload of a [GET_AI_RESPONSE] request together with what the
    response callback closes over ([lastMessage.message]). *)
Record Request := {
  r_message : jsstring;
  r_context : jsstring;
  r_contactId : jsstring;
  r_platform : jsstring;
  r_contactStyle : option Style
}.

(** [arr.filter(...).pop()]: the last entry of type [received]. *)
Definition lastReceived (ctx : list ContextEntry) : option ContextEntry :=
  last (map Some
          (filter (fun c => jsstring_eqb (c_type c) (lit "received")) ctx))
       None.

(** [generateSuggestions] up to the point the request is sent: [None]
    when it returns early, the request in flight otherwise. *)
Definition generateSuggestions (st : Script) : option Request :=
  match currentContact st with
  | None => None
  | Some contact =>
      if Z.of_nat (length (conversationContext st)) =? 0 then None else
      match lastReceived (conversationContext st) with
      | None => None
      | Some lastMessage =>
          Some {| r_message := c_message lastMessage;
                  r_context := buildConversationContext st;
                  r_contactId := contactId contact;
                  r_platform := platform contact;
                  r_contactStyle := conversationStyle contact |}
      end
  end.

(** [handleTypingDetected]. *)
Definition handleTypingDetected (typingContactId : option jsstring)
    (st : Script) : option Request :=
  if negb (isEnabled st) then None else
  match currentContact st with
  | None => None
  | Some contact =>
      match typingContactId with
      | Some cid =>
          if jsstring_eqb cid (contactId contact)
          then generateSuggestions st else None
      | None => None
      end
  end.

Definition delayPhrases : list jsstring :=
  [lit "Thanks for that! ";
   lit "I appreciate you sharing that. ";
   lit "That's interesting! ";
   lit "I see what you mean. "].

(** [addPoliteDelay]; string concatenation prints [undefined] as such. *)
Definition addPoliteDelay (r : Q) (response : jsstring) : jsstring :=
  match random_pick r delayPhrases with
  | Some randomDelay => randomDelay ++ response
  | None => lit "undefined" ++ response
  end.

(** U+1F60A as its surrogate pair. *)
Definition smiling_face : jsstring := [55357; 56842].

(** [this.currentContact?.conversationStyle?.emojiUsage > 0.5]. *)
Definition emojiUsageHigh (c : option Contact) : bool :=
  match c with
  | Some contact =>
      match conversationStyle contact with
      | Some style => negb (Qle_bool (emojiUsage style) (1 # 2))
      | None => false
      end
  | None => false
  end.

(** [makeEngaging]. *)
Definition makeEngaging (st : Script) (response : jsstring) : jsstring :=
  let engaging := response in
  let engaging :=
    if negb (includes response (lit "?")) && negb (includes response (lit "!"))
    then engaging ++ lit " What do you think?"
    else engaging in
  let engaging :=
    if emojiUsageHigh (currentContact st)
    then engaging ++ lit " " ++ smiling_face
    else engaging in
  engaging.

(** [generateSuggestionOptions]. *)
Definition generateSuggestionOptions (st : Script) (r : Q)
    (aiResponse originalMessage : jsstring) : list Suggestion :=
  let suggestions := [] in
  let suggestions :=
    suggestions ++
    [{| id := lit "direct"; text := aiResponse; s_type := lit "direct";
        description := lit "Use as is" |}] in
  let politeDelay := addPoliteDelay r aiResponse in
  let suggestions :=
    suggestions ++
    [{| id := lit "polite"; text := politeDelay; s_type := lit "polite";
        description := lit "Add polite delay" |}] in
  let engaging := makeEngaging st aiResponse in
  let suggestions :=
    suggestions ++
    [{| id := lit "engaging"; text := engaging; s_type := lit "engaging";
        description := lit "Make more engaging" |}] in
  suggestions.

(** [showSuggestions]. *)
Definition showSuggestions (r : Q) (aiResponse originalMessage : jsstring)
    (st : Script) : Script :=
  match uiOverlay st with
  | None => st
  | Some o =>
      let suggestions := generateSuggestionOptions st r aiResponse originalMessage in
      {| isEnabled := isEnabled st;
         currentContact := currentContact st;
         conversationContext := conversationContext st;
         uiOverlay :=
           Some (UIOverlay.showSuggestions suggestions (currentContact st) o) |}
  end.

(** What the background script answers; [None] is an absent response. *)
Record Response := {
  success : bool;
  response : jsstring
}.

(** The callback handed to [chrome.runtime.sendMessage] for the request
    [req], run when the response arrives. *)
Definition deliver (req : Request) (resp : option Response) (r : Q)
    (st : Script) : Script :=
  match resp with
  | Some rsp =>
      if success rsp then showSuggestions r (response rsp) (r_message req) st
      else st
  | None => st
  end.

(** The timeout scheduled by the overlay's [hide] running. *)
Definition overlayTimeoutElapsed (st : Script) : Script :=
  {| isEnabled := isEnabled st;
     currentContact := currentContact st;
     conversationContext := conversationContext st;
     uiOverlay := option_map UIOverlay.hideTimeoutElapsed (uiOverlay st) |}.

(** The texts on display, when the overlay is on display. *)
Definition shownTexts (st : Script) : list jsstring :=
  match uiOverlay st with
  | Some o =>
      if UIOverlay.onDisplay o
      then map text (UIOverlay.currentSuggestions o) else []
  | None => []
  end.

End ContentScript.

(* ================================================================== *)
(** ** JavaScript values as JSON delivers them *)
(* ================================================================== *)

Module JSValue.
Import JS.

(** The values [JSON.parse] and [response.json()] produce, and
    [undefined]. An object lists its own properties in insertion order;
    its keys are distinct. *)
#[warnings="-register-all"]
Inductive jsval :=
| JUndefined
| JNull
| JBool (b : bool)
| JNum (q : Q)
| JStr (s : jsstring)
| JArr (elems : list jsval)
| JObj (fields : list (jsstring * jsval)).

(** ToBoolean. *)
Definition truthy (v : jsval) : bool :=
  match v with
  | JUndefined | JNull => false
  | JBool b => b
  | JNum q => negb (Qeq_bool q 0)
  | JStr s => negb (Z.of_nat (length s) =? 0)
  | JArr _ | JObj _ => true
  end.

(** Normal completion or a thrown error (its name). *)
Inductive completion (A : Type) :=
| Normal (a : A)
| Throw (error : jsstring).
Arguments Normal {A} a.
Arguments Throw {A} error.

Definition bind {A B} (c : completion A) (k : A -> completion B)
  : completion B :=
  match c with
  | Normal a => k a
  | Throw e => Throw e
  end.

Definition TypeError : jsstring := lit "TypeError".

Fixpoint lookup (name : jsstring) (fields : list (jsstring * jsval)) : jsval :=
  match fields with
  | [] => JUndefined
  | (k, v) :: rest => if jsstring_eqb k name then v else lookup name rest
  end.

(** [v.name] for a property name that is neither an index nor [length]
    nor a method of a prototype. *)
Definition get_field (name : jsstring) (v : jsval) : completion jsval :=
  match v with
  | JUndefined | JNull => Throw TypeError
  | JObj fields => Normal (lookup name fields)
  | _ => Normal JUndefined
  end.

(** [v[0]]. *)
Definition get_index0 (v : jsval) : completion jsval :=
  match v with
  | JUndefined | JNull => Throw TypeError
  | JArr (x :: _) => Normal x
  | JStr (c :: _) => Normal (JStr [c])
  | JObj fields => Normal (lookup (lit "0") fields)
  | _ => Normal JUndefined
  end.

(** Calling a string method on a value: only strings have it. *)
Definition as_string (v : jsval) : completion jsstring :=
  match v with
  | JStr s => Normal s
  | _ => Throw TypeError
  end.

End JSValue.

(* ================================================================== *)
(** ** The API manager: provider fallback chain and rate limiter *)
(* ================================================================== *)

Module APIManager.
Import JS JSValue.
Import ContentScript (Style, formalityLevel, emojiUsage, random_pick).

Notation "x <- c ;; k" := (bind c (fun x => k))
  (at level 61, c at next level, right associativity).

Record ApiKeys := {
  huggingface : option jsstring;
  gemini : option jsstring
}.

(** The sanitized request handed to [generateResponse]. *)
Record RequestData := {
  message : jsstring;
  context : jsstring;
  contactStyle : option Style
}.

(** What a [fetch] to a provider comes to: the promise rejects (network
    failure, timeout), or a response arrives with a status and a body;
    [json = None] when [response.json()] rejects on a malformed body. *)
Inductive FetchOutcome :=
| FetchRejected
| HttpResponse (status : Z) (json : option jsval).

(** [response.ok]. *)
Definition status_ok (status : Z) : bool :=
  (200 <=? status) && (status <=? 299).

(** ASCII case folding of one code unit, as a regular expression with
    the [i] flag compares it with an ASCII letter. *)
Definition ascii_upper (c : Z) : Z :=
  if (97 <=? c) && (c <=? 122) then c - 32 else c.

Fixpoint starts_with_ci (s p : jsstring) : bool :=
  match p, s with
  | [], _ => true
  | _ :: _, [] => false
  | c :: p', d :: s' => (ascii_upper c =? ascii_upper d) && starts_with_ci s' p'
  end.

(** [s.replace(/^Response:\s*/i, '')]. *)
Definition strip_scaffold (s : jsstring) : jsstring :=
  if starts_with_ci s (lit "Response:")
  then trim_start (skipn (length (lit "Response:")) s)
  else s.

(** The truncation both post-processors apply. *)
Definition truncate100 (response : jsstring) : jsstring :=
  if 100 <? Z.of_nat (length response)
  then substring0 100 response ++ lit "..."
  else response.

(** [processHFResponse]; [None] is [null]. *)
Definition processHFResponse (result : jsval) : completion (option jsstring) :=
  if negb (truthy result) then Normal None else
  r0 <- get_index0 result ;;
  if negb (truthy r0) then Normal None else
  generated <- get_field (lit "generated_text") r0 ;;
  if negb (truthy generated) then Normal None else
  response <- as_string generated ;;
  let response := strip_scaffold response in
  let response := trim response in
  Normal (Some (truncate100 response)).

(** [processGeminiResponse]. *)
Definition processGeminiResponse (result : jsval) : completion (option jsstring) :=
  if negb (truthy result) then Normal None else
  candidates <- get_field (lit "candidates") result ;;
  if negb (truthy candidates) then Normal None else
  c0 <- get_index0 candidates ;;
  if negb (truthy c0) then Normal None else
  content <- get_field (lit "content") c0 ;;
  if negb (truthy content) then Normal None else
  parts <- get_field (lit "parts") content ;;
  p0 <- get_index0 parts ;;
  text <- get_field (lit "text") p0 ;;
  response <- as_string text ;;
  let response := trim response in
  Normal (Some (truncate100 response)).

(** The body shared by [tryHuggingFace] and [tryGoogleGemini] after the
    key check: every failure inside the [try] block yields [null]. *)
Definition tryProvider (process : jsval -> completion (option jsstring))
    (outcome : FetchOutcome) : option jsstring :=
  match outcome with
  | FetchRejected => None
  | HttpResponse status json =>
      if status_ok status then
        match json with
        | None => None
        | Some result =>
            match process result with
            | Normal r => r
            | Throw _ => None
            end
        end
      else None
  end.

(** [!key]. *)
Definition key_present (k : option jsstring) : bool :=
  match k with
  | Some s => negb (Z.of_nat (length s) =? 0)
  | None => false
  end.

(** [tryHuggingFace]; [apiKeys = None] is the time before
    [initializeAPIKeys] has completed, when [this.apiKeys] is undefined
    and reading a property of it throws. *)
Definition tryHuggingFace (apiKeys : option ApiKeys) (outcome : FetchOutcome)
  : completion (option jsstring) :=
  match apiKeys with
  | None => Throw TypeError
  | Some keys =>
      if negb (key_present (huggingface keys)) then Normal None
      else Normal (tryProvider processHFResponse outcome)
  end.

(** [tryGoogleGemini]. *)
Definition tryGoogleGemini (apiKeys : option ApiKeys) (outcome : FetchOutcome)
  : completion (option jsstring) :=
  match apiKeys with
  | None => Throw TypeError
  | Some keys =>
      if negb (key_present (gemini keys)) then Normal None
      else Normal (tryProvider processGeminiResponse outcome)
  end.

(** [getRandomResponse]. *)
Definition getRandomResponse (r : Q) (responses : list jsstring)
  : option jsstring :=
  random_pick r responses.

Definition wave : jsstring := [55357; 56395].       (* U+1F44B *)
Definition smile : jsstring := [55357; 56842].      (* U+1F60A *)
Definition thumbs_up : jsstring := [55357; 56397].  (* U+1F44D *)

Definition greetingResponses : list jsstring :=
  [lit "Hey there! " ++ wave; lit "Hi! How are you?";
   lit "Hello! Nice to hear from you"].
Definition wellbeingResponses : list jsstring :=
  [lit "I'm doing great, thanks for asking! " ++ smile;
   lit "All good here! How about you?";
   lit "Pretty good! Hope you're well too"].
Definition gratitudeResponses : list jsstring :=
  [lit "You're welcome! " ++ smile; lit "Anytime!"; lit "Glad I could help!"].
Definition farewellResponses : list jsstring :=
  [lit "See you later! " ++ wave; lit "Take care!"; lit "Talk to you soon!"].
Definition shortResponses : list jsstring :=
  [lit "Got it! " ++ thumbs_up; lit "I see!"; lit "Interesting!";
   lit "Tell me more!"].
Definition defaultResponses : list jsstring :=
  [lit "That sounds good!"; lit "I understand what you mean";
   lit "Thanks for sharing that"; lit "I appreciate you telling me"].

(** The bucket [generateLocalResponse] picks from. *)
Definition localBucket (lowerMessage message : jsstring) : list jsstring :=
  if includes lowerMessage (lit "hello") || includes lowerMessage (lit "hi")
  then greetingResponses
  else if includes lowerMessage (lit "how are you") then wellbeingResponses
  else if includes lowerMessage (lit "thank") then gratitudeResponses
  else if includes lowerMessage (lit "bye") || includes lowerMessage (lit "goodbye")
  then farewellResponses
  else if Z.of_nat (length message) <? 20 then shortResponses
  else defaultResponses.

(** A non-empty list of non-empty strings. *)
Definition nonempty_strings (l : list jsstring) : Prop :=
  l <> [] /\ Forall (fun s => s <> []) l.

(** The lower-casing of ASCII letters; used to run the model on examples. *)
Definition ascii_toLowerCase (s : jsstring) : jsstring :=
  map (fun c => if (65 <=? c) && (c <=? 90) then c + 32 else c) s.

Section Generate.

(** [String.prototype.toLowerCase] is the host's Unicode mapping. *)
Variable toLowerCase : jsstring -> jsstring.

(** [generateLocalResponse]; [None] is [undefined]. *)
Definition generateLocalResponse (r : Q) (data : RequestData)
  : option jsstring :=
  let lowerMessage := toLowerCase (message data) in
  getRandomResponse r (localBucket lowerMessage (message data)).

(** [if (x) return x] on a [string | null]. *)
Definition truthy_response (o : option jsstring) : bool :=
  match o with
  | Some s => negb (Z.of_nat (length s) =? 0)
  | None => false
  end.

(** The [try] block of [generateResponse]. *)
Definition generateResponse_try (apiKeys : option ApiKeys)
    (hf gm : FetchOutcome) (r : Q) (data : RequestData)
  : completion (option jsstring) :=
  hfResponse <- tryHuggingFace apiKeys hf ;;
  if truthy_response hfResponse then Normal hfResponse else
  geminiResponse <- tryGoogleGemini apiKeys gm ;;
  if truthy_response geminiResponse then Normal geminiResponse else
  Normal (generateLocalResponse r data).

(** [generateResponse]: [hf] and [gm] are what the two [fetch] calls
    come to if they are made, [r] the value of [Math.random()]. *)
Definition generateResponse (apiKeys : option ApiKeys)
    (hf gm : FetchOutcome) (r : Q) (data : RequestData)
  : option jsstring :=
  match generateResponse_try apiKeys hf gm r data with
  | Normal response => response
  | Throw _ => generateLocalResponse r data
  end.

End Generate.

(** *** Rate limiter *)

(** [this.requestCount] holds a number after the constructor and after
    the first statement of [checkRateLimit]; the other statements treat
    it as an array of times. *)
Inductive CountField :=
| CNumber (n : Z)
| CArray (times : list Z).

Record Manager := {
  requestCount : CountField;
  maxRequestsPerMinute : Z;
  waits : list Z
}.

(** The rate-limiter fields as the constructor sets them. *)
Definition new : Manager :=
  {| requestCount := CNumber 0; maxRequestsPerMinute := 60; waits := [] |}.

Definition set_requestCount (c : CountField) (m : Manager) : Manager :=
  {| requestCount := c; maxRequestsPerMinute := maxRequestsPerMinute m;
     waits := waits m |}.

Definition add_wait (w : Z) (m : Manager) : Manager :=
  {| requestCount := requestCount m;
     maxRequestsPerMinute := maxRequestsPerMinute m;
     waits := waits m ++ [w] |}.

(** [c.filter(f)]: a number has no such method. *)
Definition count_filter (f : Z -> bool) (c : CountField)
  : completion (list Z) :=
  match c with
  | CArray times => Normal (filter f times)
  | CNumber _ => Throw TypeError
  end.

(** [c >= max]: an array is compared through its string form. *)
Definition count_ge (c : CountField) (max : Z) : bool :=
  match c with
  | CNumber n => max <=? n
  | CArray [] => max <=? 0
  | CArray [t] => max <=? t
  | CArray _ => false
  end.

(** [Math.min(...c)]: a number is not iterable. *)
Definition count_min (c : CountField) : completion (option Z) :=
  match c with
  | CArray [] => Normal None
  | CArray (t :: ts) => Normal (Some (fold_left Z.min ts t))
  | CNumber _ => Throw TypeError
  end.

(** [c.push(now)]. *)
Definition count_push (now : Z) (c : CountField) : completion CountField :=
  match c with
  | CArray times => Normal (CArray (times ++ [now]))
  | CNumber _ => Throw TypeError
  end.

(** [checkRateLimit] at time [now]: the state when the returned promise
    settles, and whether it is fulfilled or rejected. A wait is
    recorded in [waits]. *)
Definition checkRateLimit (now : Z) (m : Manager)
  : Manager * completion unit :=
  let oneMinuteAgo := now - 60 * 1000 in
  match count_filter (fun time => oneMinuteAgo <? time) (requestCount m) with
  | Throw e => (m, Throw e)
  | Normal recent =>
      let m := set_requestCount (CNumber (Z.of_nat (length recent))) m in
      let waited :=
        if count_ge (requestCount m) (maxRequestsPerMinute m) then
          match count_min (requestCount m) with
          | Throw e => (m, Throw e)
          | Normal oldestRequest =>
              match oldestRequest with
              | Some oldest => (add_wait (60 * 1000 - (now - oldest)) m, Normal tt)
              | None => (m, Normal tt)
              end
          end
        else (m, Normal tt) in
      match waited with
      | (m, Throw e) => (m, Throw e)
      | (m, Normal _) =>
          match count_push now (requestCount m) with
          | Throw e => (m, Throw e)
          | Normal c => (set_requestCount c m, Normal tt)
          end
      end
  end.

End APIManager.

(* ================================================================== *)
(** ** The privacy manager: hashing and encryption of persisted state *)
(* ================================================================== *)

Module PrivacyManager.
Import JS JSValue.

Notation "x <- c ;; k" := (bind c (fun x => k))
  (at level 61, c at next level, right associativity).

(** An element of a [Uint8Array]. *)
Definition byte := Byte.byte.

Definition byte_of_Z (z : Z) : byte :=
  match Byte.of_N (Z.to_N (z mod 256)) with
  | Some b => b
  | None => Byte.x00
  end.

Definition Z_of_byte (b : byte) : Z := Z.of_N (Byte.to_N b).

(** [Array.from(uint8Array)]. *)
Definition array_from (bytes : list byte) : jsval :=
  JArr (map (fun b => JNum (inject_Z (Z_of_byte b))) bytes).

(** The integer part of a number, rounding towards zero. *)
Definition truncate (q : Q) : Z := Z.quot (Qnum q) (Z.pos (Qden q)).

Section Crypto.

(** [window.crypto && window.crypto.subtle]. *)
Variable cryptoAvailable : bool.

(** [importKey('raw', key, 'AES-GCM', ...)] followed by
    [subtle.encrypt({name: 'AES-GCM', iv}, key, data)], and the same for
    [subtle.decrypt]: the host's primitive, rejecting on a key it cannot
    import and, when decrypting, on a failed authentication. *)
Variable subtle_encrypt : list byte -> list byte -> list byte -> completion (list byte).
Variable subtle_decrypt : list byte -> list byte -> list byte -> completion (list byte).

(** [crypto.subtle.digest('SHA-256', data)]. *)
Variable subtle_digest : list byte -> completion (list byte).

(** [JSON.stringify] ([None]: it returns [undefined]) and [JSON.parse]. *)
Variable JSON_stringify : jsval -> completion (option jsstring).
Variable JSON_parse : jsstring -> completion jsval.

(** [TextEncoder.encode] and [TextDecoder.decode] (UTF-8). *)
Variable utf8_encode : jsstring -> list byte.
Variable utf8_decode : list byte -> jsstring.

(** The element conversion of [new Uint8Array(array)] on the values
    that are not numbers, booleans, [null] or [undefined]. *)
Variable ToUint8_other : jsval -> byte.

Definition ToUint8 (v : jsval) : byte :=
  match v with
  | JNum q => byte_of_Z (truncate q)
  | JBool true => Byte.x01
  | JBool false | JNull | JUndefined => Byte.x00
  | _ => ToUint8_other v
  end.

(** [new Uint8Array(array)]. *)
Definition uint8array_of (elems : list jsval) : list byte :=
  map ToUint8 elems.

(** [this.encryptionKey]: [null] or the raw key bytes. *)
Record Manager := {
  encryptionKey : option (list byte)
}.

(** [b.toString(16).padStart(2, '0')]. *)
Definition hex2 (b : byte) : jsstring :=
  [hex_digit (Z_of_byte b / 16); hex_digit (Z_of_byte b mod 16)].

Definition simpleHash := Hash.simpleHash.

(** [hashString]: the digest in hex, the rolling hash when the
    primitive is missing or fails. *)
Definition hashString (str : jsstring) : jsstring :=
  if cryptoAvailable then
    match subtle_digest (utf8_encode str) with
    | Normal hashArray => flat_map hex2 hashArray
    | Throw _ => simpleHash str
    end
  else simpleHash str.

(** The [try] block of [encryptData]; [iv] is what
    [crypto.getRandomValues(new Uint8Array(12))] fills in. *)
Definition encryptData_try (key iv : list byte) (data : jsval)
  : completion jsval :=
  json <- JSON_stringify data ;;
  let dataBuffer :=
    utf8_encode (match json with Some s => s | None => [] end) in
  encryptedBuffer <- subtle_encrypt key iv dataBuffer ;;
  let encryptedArray := iv ++ encryptedBuffer in
  Normal (array_from encryptedArray).

(** [encryptData]. *)
Definition encryptData (m : Manager) (iv : list byte) (data : jsval)
  : jsval :=
  match cryptoAvailable, encryptionKey m with
  | true, Some key =>
      match encryptData_try key iv data with
      | Normal encrypted => encrypted
      | Throw _ => data
      end
  | _, _ => data
  end.

(** The [try] block of [decryptData] on an array. *)
Definition decryptData_try (key : list byte) (elems : list jsval)
  : completion jsval :=
  let encryptedArray := uint8array_of elems in
  let iv := firstn 12 encryptedArray in
  let data := skipn 12 encryptedArray in
  decryptedBuffer <- subtle_decrypt key iv data ;;
  JSON_parse (utf8_decode decryptedBuffer).

(** [decryptData]. *)
Definition decryptData (m : Manager) (encryptedData : jsval) : jsval :=
  match cryptoAvailable, encryptionKey m, encryptedData with
  | true, Some key, JArr elems =>
      match decryptData_try key elems with
      | Normal data => data
      | Throw _ => encryptedData
      end
  | _, _, _ => encryptedData
  end.

(** A record survives serialization: [JSON.stringify] yields a string
    from which encoding, decoding and [JSON.parse] give the record
    back. *)
Definition serializable (R : jsval) : Prop :=
  exists s, JSON_stringify R = Normal (Some s) /\
            JSON_parse (utf8_decode (utf8_encode s)) = Normal R.

(** The primitive works with the key: encryption under it succeeds,
    and decryption with the same nonce inverts it. *)
Definition key_usable (key : list byte) : Prop :=
  (forall iv pt, exists ct, subtle_encrypt key iv pt = Normal ct) /\
  (forall iv pt ct, subtle_encrypt key iv pt = Normal ct ->
                    subtle_decrypt key iv ct = Normal pt).

End Crypto.

End PrivacyManager.

(* ================================================================== *)
(** ** The service worker: persisted conversation records *)
(* ================================================================== *)

Module ServiceWorker.
Import JS.

Record ConversationRecord := {
  contactId : jsstring;
  platform : jsstring;
  message : jsstring;
  response : jsstring;
  timestamp : Z;
  success : bool
}.

(** The key of [chrome.storage.local] the two functions below touch;
    [None] when the key has never been set. *)
Record Storage := {
  conversationData : option (list ConversationRecord)
}.

(** [result.conversationData || []]. *)
Definition stored (st : Storage) : list ConversationRecord :=
  match conversationData st with
  | Some conversations => conversations
  | None => []
  end.

(** [storeConversationData]; [now] is [Date.now()]. *)
Definition storeConversationData (contactId platform message response : jsstring)
    (now : Z) (st : Storage) : Storage :=
  let timestamp := now in
  let record :=
    {| contactId := contactId; platform := platform; message := message;
       response := response; timestamp := timestamp; success := true |} in
  let conversations := stored st ++ [record] in
  let conversations :=
    if 1000 <? Z.of_nat (length conversations)
    then skipn (length conversations - 1000) conversations
    else conversations in
  {| conversationData := Some conversations |}.

(** [cleanupOldData], the daily retention job. *)
Definition cleanupOldData (now : Z) (st : Storage) : Storage :=
  let thirtyDaysAgo := now - 30 * 24 * 60 * 60 * 1000 in
  match conversationData st with
  | Some conversations =>
      {| conversationData :=
           Some (filter (fun conv => thirtyDaysAgo <? timestamp conv) conversations) |}
  | None => st
  end.

End ServiceWorker.

(* ================================================================== *)
(** ** Concrete pages, messages and contacts used in the examples *)
(* ================================================================== *)

Module Scenarios.
Import JS Adapter.

(** A conversation page whose URL names the chat "alice". *)
Definition alice_page (p : platform) : Page :=
  {| href := lit "https://messenger.example/" ++ url_prefix p ++ lit "alice?tab=1";
     title := lit "Alice";
     querySelector := fun _ => Some (lit "Alice") |}.

(** A page without a conversation in its URL. *)
Definition plain_page : Page :=
  {| href := lit "https://messenger.example/";
     title := lit "Alice";
     querySelector := fun _ => None |}.

(** The message "hello" from the contact "5899680", detected at [t]. *)
Definition hello_at (t : Z) : MessageData :=
  {| message := lit "hello"; contactId := lit "5899680";
     platform_ := lit "whatsapp"; timestamp := t; type := lit "incoming" |}.

(** Contact Y, the previous contact, and contact X, the new one. *)
Definition contactY : ContentScript.Contact :=
  {| ContentScript.contactId := lit "5899680";
     ContentScript.platform := lit "whatsapp";
     ContentScript.conversationStyle := None |}.

Definition contactX : ContentScript.Contact :=
  {| ContentScript.contactId := lit "17e3b1";
     ContentScript.platform := lit "whatsapp";
     ContentScript.conversationStyle := None |}.

(** Y writes "hello"; a suggestion is requested; the contact changes to
    X; only then does the answer "Sure" for Y arrive. *)
Definition afterMessageFromY : ContentScript.Script :=
  ContentScript.handleMessageReceived (hello_at 1000) contactY ContentScript.new.

Definition requestForY : option ContentScript.Request :=
  ContentScript.handleTypingDetected (Some (lit "5899680")) afterMessageFromY.

(** The request produced by that typing signal. *)
Definition theRequestForY : ContentScript.Request :=
  {| ContentScript.r_message := lit "hello";
     ContentScript.r_context := lit "Them: hello";
     ContentScript.r_contactId := lit "5899680";
     ContentScript.r_platform := lit "whatsapp";
     ContentScript.r_contactStyle := None |}.

Definition afterSwitchToX : ContentScript.Script :=
  ContentScript.handleContactChanged (lit "17e3b1") (lit "whatsapp") contactX
    afterMessageFromY.

Definition answerForY : ContentScript.Response :=
  {| ContentScript.success := true; ContentScript.response := lit "Sure" |}.

(** An answer that reports a failure. *)
Definition failedAnswer : ContentScript.Response :=
  {| ContentScript.success := false; ContentScript.response := [] |}.

(** The same trace with an overlay that was shown and then dismissed less
    than 200 ms before the answer arrives. *)
Definition dismissedOverlay : ContentScript.Overlay :=
  UIOverlay.hide (UIOverlay.show UIOverlay.new).

Definition afterDismissal : ContentScript.Script :=
  {| ContentScript.isEnabled := ContentScript.isEnabled afterSwitchToX;
     ContentScript.currentContact := ContentScript.currentContact afterSwitchToX;
     ContentScript.conversationContext :=
       ContentScript.conversationContext afterSwitchToX;
     ContentScript.uiOverlay := Some dismissedOverlay |}.

(** The same trace before the overlay exists. *)
Definition withoutOverlay : ContentScript.Script :=
  {| ContentScript.isEnabled := ContentScript.isEnabled afterSwitchToX;
     ContentScript.currentContact := ContentScript.currentContact afterSwitchToX;
     ContentScript.conversationContext :=
       ContentScript.conversationContext afterSwitchToX;
     ContentScript.uiOverlay := None |}.

(** A contact with formality 0.9 and emoji rate 0.8, and the content
    script while that contact is the current one. *)
Definition formalEmojiContact : ContentScript.Contact :=
  {| ContentScript.contactId := lit "5899680";
     ContentScript.platform := lit "whatsapp";
     ContentScript.conversationStyle :=
       Some {| ContentScript.formalityLevel := 9 # 10;
               ContentScript.emojiUsage := 8 # 10 |} |}.

Definition withFormalEmojiContact : ContentScript.Script :=
  ContentScript.handleContactChanged (lit "5899680") (lit "whatsapp")
    formalEmojiContact ContentScript.new.

(** A stand-in for the host's primitives, to run the privacy manager:
    a "cipher" that adds the first key byte to every byte and appends a
    one-byte tag, a serializer that knows the value [null] only, and
    one-byte character codes. *)
Definition toy_shift (key : list Byte.byte) : Z :=
  match key with
  | k :: _ => PrivacyManager.Z_of_byte k
  | [] => 0
  end.

Definition toy_encrypt (key iv pt : list Byte.byte)
  : JSValue.completion (list Byte.byte) :=
  JSValue.Normal
    (map (fun b => PrivacyManager.byte_of_Z
                     (PrivacyManager.Z_of_byte b + toy_shift key)) pt
     ++ [Byte.xff]).

Definition toy_decrypt (key iv ct : list Byte.byte)
  : JSValue.completion (list Byte.byte) :=
  match rev ct with
  | Byte.xff :: body =>
      JSValue.Normal
        (map (fun b => PrivacyManager.byte_of_Z
                         (PrivacyManager.Z_of_byte b - toy_shift key))
             (rev body))
  | _ => JSValue.Throw (lit "OperationError")
  end.

Definition toy_stringify (v : JSValue.jsval)
  : JSValue.completion (option jsstring) :=
  match v with
  | JSValue.JNull => JSValue.Normal (Some (lit "null"))
  | JSValue.JUndefined => JSValue.Normal None
  | _ => JSValue.Throw JSValue.TypeError
  end.

Definition toy_parse (s : jsstring) : JSValue.completion JSValue.jsval :=
  if jsstring_eqb s (lit "null") then JSValue.Normal JSValue.JNull
  else JSValue.Throw (lit "SyntaxError").

Definition toy_encode (s : jsstring) : list Byte.byte :=
  map PrivacyManager.byte_of_Z s.

Definition toy_decode (bytes : list Byte.byte) : jsstring :=
  map PrivacyManager.Z_of_byte bytes.

Definition toy_key : list Byte.byte := repeat Byte.x07 32.

Definition toy_iv : list Byte.byte :=
  [Byte.x01; Byte.x02; Byte.x03; Byte.x04; Byte.x05; Byte.x06;
   Byte.x07; Byte.x08; Byte.x09; Byte.x0a; Byte.x0b; Byte.x0c].

Definition toy_manager : PrivacyManager.Manager :=
  {| PrivacyManager.encryptionKey := Some toy_key |}.

End Scenarios.

(* ================================================================== *)
(** ** The event emitter the detector and the overlay extend *)
(* ================================================================== *)

Module EventEmitter.
Import JS JSValue.

Notation "x <- c ;; k" := (bind c (fun x => k))
  (at level 61, c at next level, right associativity).

(** A listener is a function object, compared by identity: a function the
    caller supplies, named by [id], or the closure [once] creates around
    such a function; every closure [once] creates is a new object, told
    apart by its [serial]. *)
Inductive callback :=
| Callback (id : nat)
| OnceCallback (serial : nat) (inner : nat).

Definition callback_eqb (a b : callback) : bool :=
  match a, b with
  | Callback i, Callback j => Nat.eqb i j
  | OnceCallback s i, OnceCallback t j => Nat.eqb s t && Nat.eqb i j
  | _, _ => false
  end.

(** [this.events]: [None] is [null] (after [destroy]); otherwise the own
    properties of the object, each an array of listeners; [closures]
    counts the closures [once] has created. *)
Record Emitter := {
  events : option (list (jsstring * list callback));
  closures : nat
}.

(** The state the constructor leaves. *)
Definition new : Emitter := {| events := Some []; closures := 0 |}.

(** The property names every object inherits from [Object.prototype]. *)
Definition object_prototype_names : list jsstring :=
  [lit "constructor"; lit "toString"; lit "toLocaleString"; lit "valueOf";
   lit "hasOwnProperty"; lit "isPrototypeOf"; lit "propertyIsEnumerable";
   lit "__proto__"; lit "__defineGetter__"; lit "__defineSetter__";
   lit "__lookupGetter__"; lit "__lookupSetter__"].

Definition inherited (event : jsstring) : bool :=
  existsb (jsstring_eqb event) object_prototype_names.

(** The [length] of the inherited value: the arity of the inherited
    function; [Object.prototype] itself, under [__proto__], has none. *)
Definition inherited_length (event : jsstring) : option Z :=
  if jsstring_eqb event (lit "__proto__") then None
  else if jsstring_eqb event (lit "__defineGetter__") ||
          jsstring_eqb event (lit "__defineSetter__") then Some 2
  else if jsstring_eqb event (lit "toString") ||
          jsstring_eqb event (lit "toLocaleString") ||
          jsstring_eqb event (lit "valueOf") then Some 0
  else Some 1.

Fixpoint own (evs : list (jsstring * list callback)) (event : jsstring)
  : option (list callback) :=
  match evs with
  | [] => None
  | (k, l) :: rest => if jsstring_eqb k event then Some l else own rest event
  end.

(** What [this.events[event]] evaluates to. *)
Inductive slot :=
| Own (listeners : list callback)
| Inherited
| Absent.

Definition get (evs : list (jsstring * list callback)) (event : jsstring)
  : slot :=
  match own evs event with
  | Some l => Own l
  | None => if inherited event then Inherited else Absent
  end.

(** [this.events[event] = l] on an own property. *)
Fixpoint assign (evs : list (jsstring * list callback)) (event : jsstring)
    (l : list callback) : list (jsstring * list callback) :=
  match evs with
  | [] => []
  | (k, l0) :: rest =>
      if jsstring_eqb k event then (k, l) :: rest
      else (k, l0) :: assign rest event l
  end.

(** [delete this.events[event]]. *)
Fixpoint delete (evs : list (jsstring * list callback)) (event : jsstring)
  : list (jsstring * list callback) :=
  match evs with
  | [] => []
  | (k, l0) :: rest =>
      if jsstring_eqb k event then rest else (k, l0) :: delete rest event
  end.

Definition with_events (evs : list (jsstring * list callback)) (em : Emitter)
  : Emitter :=
  {| events := Some evs; closures := closures em |}.

(** [on]: on an inherited name the value found is not an array and [push]
    is not a function of it. *)
Definition on (event : jsstring) (cb : callback) (em : Emitter)
  : completion Emitter :=
  match events em with
  | None => Throw TypeError
  | Some evs =>
      match get evs event with
      | Own l => Normal (with_events (assign evs event (l ++ [cb])) em)
      | Absent => Normal (with_events (evs ++ [(event, [cb])]) em)
      | Inherited => Throw TypeError
      end
  end.

(** [arr.indexOf(cb)] followed by [splice(index, 1)] when found. *)
Fixpoint remove_first (cb : callback) (l : list callback) : list callback :=
  match l with
  | [] => []
  | x :: rest => if callback_eqb x cb then rest else x :: remove_first cb rest
  end.

(** [off]. *)
Definition off (event : jsstring) (cb : callback) (em : Emitter)
  : completion Emitter :=
  match events em with
  | None => Throw TypeError
  | Some evs =>
      match get evs event with
      | Absent => Normal em
      | Inherited => Throw TypeError
      | Own l =>
          let l' := remove_first cb l in
          if Z.of_nat (length l') =? 0
          then Normal (with_events (delete evs event) em)
          else Normal (with_events (assign evs event l') em)
      end
  end.

(** [once]: the closure is created, then registered with [on]. *)
Definition once (event : jsstring) (cb : nat) (em : Emitter)
  : completion Emitter :=
  let onceCallback := OnceCallback (closures em) cb in
  on event onceCallback
     {| events := events em; closures := S (closures em) |}.

(** One turn of the [forEach] of [emit].  The listeners supplied by the
    caller do not themselves call the emitter; [throws id] tells whether
    the function [id] throws when called.  The result is the emitter and
    the functions called so far, in order.  The closure of [once] calls
    its function and then [off]; the [try] of [emit] catches what either
    throws. *)
Definition call (throws : nat -> bool) (event : jsstring)
    (st : Emitter * list nat) (cb : callback) : Emitter * list nat :=
  let (em, called) := st in
  match cb with
  | Callback id => (em, called ++ [id])
  | OnceCallback _ inner =>
      if throws inner then (em, called ++ [inner])
      else match off event cb em with
           | Normal em' => (em', called ++ [inner])
           | Throw _ => (em, called ++ [inner])
           end
  end.

(** [emit]: the listeners are copied, then called in order. *)
Definition emit (throws : nat -> bool) (event : jsstring) (em : Emitter)
  : completion (Emitter * list nat) :=
  match events em with
  | None => Throw TypeError
  | Some evs =>
      match get evs event with
      | Absent => Normal (em, [])
      | Inherited => Throw TypeError
      | Own l =>
          let callbacks := l in
          Normal (fold_left (call throws event) callbacks (em, []))
      end
  end.

(** [removeAllListeners(event)]; [None] is a call without argument. *)
Definition removeAllListeners (event : option jsstring) (em : Emitter)
  : completion Emitter :=
  match event with
  | Some (c :: name) =>
      match events em with
      | None => Throw TypeError
      | Some evs => Normal (with_events (delete evs (c :: name)) em)
      end
  | _ => Normal (with_events [] em)
  end.

(** [listenerCount]; [None] is [undefined]. *)
Definition listenerCount (event : jsstring) (em : Emitter)
  : completion (option Z) :=
  match events em with
  | None => Throw TypeError
  | Some evs =>
      match get evs event with
      | Absent => Normal (Some 0)
      | Own l => Normal (Some (Z.of_nat (length l)))
      | Inherited => Normal (inherited_length event)
      end
  end.

(** [hasListeners]. *)
Definition hasListeners (event : jsstring) (em : Emitter)
  : completion bool :=
  n <- listenerCount event em ;;
  Normal (match n with Some k => 0 <? k | None => false end).

(** [destroy]. *)
Definition destroy (em : Emitter) : Emitter :=
  {| events := None; closures := closures em |}.

(** The operations that change an emitter, as labels. *)
Inductive Op :=
| OpOn (event : jsstring) (cb : nat)
| OpOff (event : jsstring) (cb : nat)
| OpOnce (event : jsstring) (cb : nat)
| OpEmit (throws : nat -> bool) (event : jsstring)
| OpRemoveAll (event : option jsstring).

(** One operation; when it throws, the emitter is as it was before. *)
Definition step (em : Emitter) (op : Op) : Emitter :=
  let result :=
    match op with
    | OpOn event cb => on event (Callback cb) em
    | OpOff event cb => off event (Callback cb) em
    | OpOnce event cb => once event cb em
    | OpEmit throws event =>
        r <- emit throws event em ;; Normal (fst r)
    | OpRemoveAll event => removeAllListeners event em
    end in
  match result with
  | Normal em' => em'
  | Throw _ => em
  end.

Definition run (ops : list Op) (em : Emitter) : Emitter :=
  fold_left step ops em.

(** The function a listener calls. *)
Definition function_of (c : callback) : nat :=
  match c with
  | Callback id => id
  | OnceCallback _ inner => inner
  end.

(** A listener registered with [on], not through [once]. *)
Definition plain (c : callback) : bool :=
  match c with
  | Callback _ => true
  | OnceCallback _ _ => false
  end.

(** A listener that is still subscribed after [emit] has called it: a
    function subscribed with [on], and a closure of [once] whose function
    throws, so that the closure does not reach its call of [off]. *)
Definition stays (throws : nat -> bool) (c : callback) : bool :=
  match c with
  | Callback _ => true
  | OnceCallback _ inner => throws inner
  end.

(** The emitter is in use and its events object has each property once. *)
Definition well_formed (em : Emitter) : Prop :=
  exists evs, events em = Some evs /\ NoDup (map fst evs).

(** No event is registered with an empty array of listeners. *)
Definition no_empty_array (em : Emitter) : Prop :=
  match events em with
  | Some evs => Forall (fun kv => snd kv <> []) evs
  | None => True
  end.

(** The listeners registered for an event ([[]] when there are none). *)
Definition listeners (event : jsstring) (em : Emitter) : list callback :=
  match events em with
  | Some evs => match own evs event with Some l => l | None => [] end
  | None => []
  end.

End EventEmitter.

(* ================================================================== *)
(** ** The feed observer on a tree of added nodes *)
(* ================================================================== *)

Module Observer.
Import JS.
Export MessageDetector.

(** An element of the page as the adapter and the detector question it:
    [isMessageNode] and [isTypingIndicator] are the adapter's answers for
    the node itself, [messageText], [nodeTimestamp] and [messageType] what
    [extractMessageText], [extractMessageTimestamp] and [getMessageType]
    read from it, [typingMark] the answer of the detector's own
    [isTypingIndicator]; [children] are its element children. *)
#[warnings="-register-all"]
Inductive Node :=
| mkNode (isMessageNode : bool) (messageText : option jsstring)
         (nodeTimestamp : option Z) (messageType : jsstring)
         (isTypingIndicator : bool) (typingMark : bool)
         (children : list Node).

Definition isMessageNode (n : Node) : bool :=
  match n with mkNode b _ _ _ _ _ _ => b end.
Definition messageText (n : Node) : option jsstring :=
  match n with mkNode _ t _ _ _ _ _ => t end.
Definition nodeTimestamp (n : Node) : option Z :=
  match n with mkNode _ _ t _ _ _ _ => t end.
Definition messageType (n : Node) : jsstring :=
  match n with mkNode _ _ _ t _ _ _ => t end.
Definition isTypingIndicator (n : Node) : bool :=
  match n with mkNode _ _ _ _ b _ _ => b end.
Definition typingMark (n : Node) : bool :=
  match n with mkNode _ _ _ _ _ b _ => b end.
Definition children (n : Node) : list Node :=
  match n with mkNode _ _ _ _ _ _ c => c end.


(** [Date.now()] during one callback of the observer: [clock k] is its
    value at the [k]-th place of the callback where the code may read it;
    the places are counted in the order the code passes them. *)
Definition Clock : Type := nat -> Z.

(** [extractMessageData] on a node. *)
Definition extractNode (p : platform) (pg : Page) (now : Z) (n : Node)
  : option MessageData :=
  extractMessageData p pg (messageText n) (nodeTimestamp n) (messageType n) now.

(** The adapters' [detectNewMessage]: the node itself, else its first
    child that is a message node. *)
Definition detectNewMessage (p : platform) (pg : Page) (now : Z) (n : Node)
  : option MessageData :=
  if isMessageNode n then extractNode p pg now n
  else match find isMessageNode (children n) with
       | Some child => extractNode p pg now child
       | None => None
       end.

(** The adapters' [detectTyping] on a node. *)
Definition detectTypingNode (p : platform) (pg : Page) (now : Z) (n : Node)
  : option TypingData :=
  detectTyping p pg (isTypingIndicator n || existsb isTypingIndicator (children n)) now.

(** [checkForNewMessages]: detection on the node, then on each child in
    turn.  The detector goes with the number of clock places passed so
    far: the extraction reads the clock at the first place, the
    contact-change check of [handleNewMessage] at the next. *)
Fixpoint checkForNewMessages (pg : Page) (clock : Clock) (n : Node)
    (s : Detector * nat) : Detector * nat :=
  match n with
  | mkNode _ _ _ _ _ _ kids =>
      let s :=
        let (st, k) := s in
        match platformAdapter st with
        | Some p =>
            match detectNewMessage p pg (clock k) n with
            | Some messageData =>
                (handleNewMessage pg (clock (S k)) messageData st, S (S k))
            | None => (st, S k)
            end
        | None => (st, k)
        end in
      (fix each (l : list Node) (s : Detector * nat) : Detector * nat :=
         match l with
         | [] => s
         | child :: rest => each rest (checkForNewMessages pg clock child s)
         end) kids s
  end.

(** [checkForTypingIndicators]: the adapter's detection reads the clock at
    the first place, the detector's own signal at the next. *)
Definition checkForTypingIndicators (pg : Page) (clock : Clock) (n : Node)
    (s : Detector * nat) : Detector * nat :=
  let (st, k) := s in
  let st :=
    match platformAdapter st with
    | Some p =>
        match detectTypingNode p pg (clock k) n with
        | Some typingData => handleTypingDetected typingData st
        | None => st
        end
    | None => st
    end in
  let st :=
    if typingMark n then
      handleTypingDetected
        {| t_contactId := getCurrentContactId st pg;
           t_platform := currentPlatform st;
           t_timestamp := clock (S k) |} st
    else st in
  (st, S (S k)).

(** A mutation record: added element nodes, or an attribute change. *)
Inductive Mutation :=
| childList (addedNodes : list Node)
| attributes (target : Node).

(** The detector with the flag [startMonitoring] sets. *)
Record Monitor := {
  detector : Detector;
  isMonitoring : bool
}.

Definition handleMutation (pg : Page) (clock : Clock) (s : Detector * nat)
    (m : Mutation) : Detector * nat :=
  match m with
  | childList addedNodes =>
      fold_left (fun s node =>
                   checkForTypingIndicators pg clock node
                     (checkForNewMessages pg clock node s))
                addedNodes s
  | attributes target => checkForTypingIndicators pg clock target s
  end.

(** [handleDOMChanges]: one callback of the observer. *)
Definition handleDOMChanges (pg : Page) (clock : Clock)
    (mutations : list Mutation) (m : Monitor) : Monitor :=
  if negb (isMonitoring m) then m
  else {| detector :=
            fst (fold_left (handleMutation pg clock) mutations
                   (detector m, 0%nat));
          isMonitoring := true |}.

(** [startMonitoring]. *)
Definition startMonitoring (m : Monitor) : Monitor :=
  if isMonitoring m then m
  else {| detector := detector m; isMonitoring := true |}.

(** [stopMonitoring]: the pending typing timer is cleared. *)
Definition stopMonitoring (m : Monitor) : Monitor :=
  if negb (isMonitoring m) then m
  else
    let d := detector m in
    {| detector :=
         {| platformAdapter := platformAdapter d;
            currentPlatform := currentPlatform d;
            messageQueue := messageQueue d;
            lastMessageTime := lastMessageTime d;
            lastContactId := lastContactId d;
            typingTimeout := None;
            emitted := emitted d |};
       isMonitoring := false |}.

(** The typing timer elapsing. *)
Definition timerElapsed (m : Monitor) : Monitor :=
  {| detector := typingTimerFired (detector m);
     isMonitoring := isMonitoring m |}.

(** The [typingDetected] events among the emitted ones. *)
Definition typingEvents (st : Detector) : list TypingData :=
  flat_map (fun e => match e with
                     | typingDetected d => [d]
                     | _ => []
                     end) (emitted st).

(** A typing signal that passes the validation of [handleTypingDetected]. *)
Definition valid_typing (d : TypingData) : Prop :=
  (exists cid, t_contactId d = Some cid /\ cid <> []) /\ t_platform d <> [].

End Observer.

(* ================================================================== *)
(** ** Shapes of strings used in the statements *)
(* ================================================================== *)

Module Shapes.
Import JS.

(** At most 103 code units, the first of which is not white space. *)
Definition tidy (s : jsstring) : Prop :=
  (length s <= 103)%nat /\
  match s with c :: _ => is_space c = false | [] => True end.

End Shapes.

(* ================================================================== *)
(** ** Regular expressions, as the sanitizer uses them *)
(* ================================================================== *)

Module Regex.
Import JS.

(** The constructs the patterns of the sources are built from.  A
    character class is the set of code units it accepts; the [i] flag is
    part of the classes of a pattern. *)
Inductive regex :=
| Eps
| Class (accepts : Z -> bool)
| Cat (r1 r2 : regex)
| Alt (r1 r2 : regex)
| Star (r : regex)
| WordBoundary.

(** [\w]. *)
Definition is_word (c : Z) : bool :=
  ((48 <=? c) && (c <=? 57)) || ((65 <=? c) && (c <=? 90)) ||
  ((97 <=? c) && (c <=? 122)) || (c =? 95).

(** [\d]. *)
Definition is_digit (c : Z) : bool := (48 <=? c) && (c <=? 57).

(** [[A-Za-z]]. *)
Definition is_letter (c : Z) : bool :=
  ((65 <=? c) && (c <=? 90)) || ((97 <=? c) && (c <=? 122)).

Definition word_before (prev : option Z) : bool :=
  match prev with Some c => is_word c | None => false end.

Definition word_after (s : jsstring) : bool :=
  match s with c :: _ => is_word c | [] => false end.

(** Backtracking matcher in continuation-passing style: [prev] is the
    code unit before the current position, [s] the input from the current
    position on, [k] what remains to be matched; alternatives are tried
    left to right and [Star] takes as many iterations as it can before it
    gives one back; an iteration that consumes nothing is refused.  The
    result is the input left after the first way to match that succeeds. *)
Fixpoint run (r : regex) (prev : option Z) (s : jsstring)
    (k : option Z -> jsstring -> option jsstring) : option jsstring :=
  match r with
  | Eps => k prev s
  | Class accepts =>
      match s with
      | c :: rest => if accepts c then k (Some c) rest else None
      | [] => None
      end
  | Cat r1 r2 => run r1 prev s (fun prev' s' => run r2 prev' s' k)
  | Alt r1 r2 =>
      match run r1 prev s k with
      | Some res => Some res
      | None => run r2 prev s k
      end
  | Star r1 =>
      (fix iterate (fuel : nat) (prev : option Z) (s : jsstring)
         : option jsstring :=
         match fuel with
         | O => k prev s
         | S fuel' =>
             match run r1 prev s
                     (fun prev' s' =>
                        if (length s' <? length s)%nat
                        then iterate fuel' prev' s'
                        else None) with
             | Some res => Some res
             | None => k prev s
             end
         end) (S (length s)) prev s
  | WordBoundary =>
      if xorb (word_before prev) (word_after s) then k prev s else None
  end.

(** The input left after a match starting at the current position. *)
Definition match_here (r : regex) (prev : option Z) (s : jsstring)
  : option jsstring :=
  run r prev s (fun _ rest => Some rest).

(** [r+], [r?], [r{n}], [r{n,}] and literal text. *)
Definition Plus (r : regex) : regex := Cat r (Star r).
Definition Opt (r : regex) : regex := Alt r Eps.
Fixpoint Repeat (n : nat) (r : regex) : regex :=
  match n with
  | O => Eps
  | S n' => Cat r (Repeat n' r)
  end.
Definition AtLeast (n : nat) (r : regex) : regex := Cat (Repeat n r) (Star r).
Fixpoint Lit (s : jsstring) : regex :=
  match s with
  | [] => Eps
  | c :: rest => Cat (Class (Z.eqb c)) (Lit rest)
  end.

(** Literal text under the [i] flag: ASCII letters match in either case. *)
Fixpoint LitI (s : jsstring) : regex :=
  match s with
  | [] => Eps
  | c :: rest =>
      Cat (Class (fun d => APIManager.ascii_upper d =? APIManager.ascii_upper c))
          (LitI rest)
  end.

Fixpoint AnyOf (rs : list regex) : regex :=
  match rs with
  | [] => Class (fun _ => false)
  | [r] => r
  | r :: rest => Alt r (AnyOf rest)
  end.

(** [s.replace(/r/g, replacement)]: matches are looked for from left to
    right, each after the end of the one before; after an empty match the
    search moves on by one code unit. *)
Fixpoint replace_from (fuel : nat) (r : regex) (replacement : jsstring)
    (prev : option Z) (s : jsstring) : jsstring :=
  match fuel with
  | O => s
  | S fuel' =>
      match match_here r prev s with
      | Some rest =>
          if (length rest <? length s)%nat then
            let matched := firstn (length s - length rest) s in
            replacement ++
            replace_from fuel' r replacement (Some (last matched 0)) rest
          else
            match s with
            | c :: t => replacement ++ c :: replace_from fuel' r replacement (Some c) t
            | [] => replacement
            end
      | None =>
          match s with
          | c :: t => c :: replace_from fuel' r replacement (Some c) t
          | [] => []
          end
      end
  end.

Definition replace_all (r : regex) (replacement s : jsstring) : jsstring :=
  replace_from (S (length s)) r replacement None s.

(** [r.test(s)]: is there a match somewhere. *)
Fixpoint test_from (r : regex) (prev : option Z) (s : jsstring) : bool :=
  match match_here r prev s with
  | Some _ => true
  | None =>
      match s with
      | c :: t => test_from r (Some c) t
      | [] => false
      end
  end.

Definition test (r : regex) (s : jsstring) : bool := test_from r None s.

End Regex.

(* ================================================================== *)
(** ** The sanitizer of the privacy manager *)
(* ================================================================== *)

Module Sanitizer.
Import JS Regex.

Definition digit : regex := Class is_digit.

(** [[-.]]. *)
Definition phone_separator : regex := Class (fun c => (c =? 45) || (c =? 46)).

(** [/\b\d{3}[-.]?\d{3}[-.]?\d{4}\b/]. *)
Definition phonePattern : regex :=
  Cat WordBoundary
    (Cat (Repeat 3 digit)
       (Cat (Opt phone_separator)
          (Cat (Repeat 3 digit)
             (Cat (Opt phone_separator)
                (Cat (Repeat 4 digit) WordBoundary))))).

(** [[A-Za-z0-9._%+-]], [[A-Za-z0-9.-]] and [[A-Z|a-z]]. *)
Definition local_char (c : Z) : bool :=
  is_letter c || is_digit c ||
  (c =? 46) || (c =? 95) || (c =? 37) || (c =? 43) || (c =? 45).
Definition domain_char (c : Z) : bool :=
  is_letter c || is_digit c || (c =? 46) || (c =? 45).
Definition tld_char (c : Z) : bool := is_letter c || (c =? 124).

(** [/\b[A-Za-z0-9._%+-]+@[A-Za-z0-9.-]+\.[A-Z|a-z]{2,}\b/]. *)
Definition emailPattern : regex :=
  Cat WordBoundary
    (Cat (Plus (Class local_char))
       (Cat (Class (Z.eqb 64))
          (Cat (Plus (Class domain_char))
             (Cat (Class (Z.eqb 46))
                (Cat (AtLeast 2 (Class tld_char)) WordBoundary))))).

(** [/https?:\/\/[^\s]+/]. *)
Definition urlPattern : regex :=
  Cat (Lit (lit "http"))
    (Cat (Opt (Class (Z.eqb 115)))
       (Cat (Lit (lit "://")) (Plus (Class (fun c => negb (is_space c)))))).

(** [/\b(John|Jane|Mike|Sarah|David|Lisa|Tom|Amy|Chris|Emma)\b/gi]. *)
Definition commonNames : regex :=
  Cat WordBoundary
    (Cat (AnyOf (map LitI
                   [lit "John"; lit "Jane"; lit "Mike"; lit "Sarah";
                    lit "David"; lit "Lisa"; lit "Tom"; lit "Amy";
                    lit "Chris"; lit "Emma"]))
       WordBoundary).

(** [/\b\d+\s+[A-Za-z\s]+(Street|St|Avenue|Ave|Road|Rd|Boulevard|Blvd|Drive|Dr)\b/gi]. *)
Definition addressPattern : regex :=
  Cat WordBoundary
    (Cat (Plus digit)
       (Cat (Plus (Class is_space))
          (Cat (Plus (Class (fun c => is_letter c || is_space c)))
             (Cat (AnyOf (map LitI
                            [lit "Street"; lit "St"; lit "Avenue"; lit "Ave";
                             lit "Road"; lit "Rd"; lit "Boulevard";
                             lit "Blvd"; lit "Drive"; lit "Dr"]))
                WordBoundary)))).

(** [anonymizeMessage]. *)
Definition anonymizeMessage (message : jsstring) : jsstring :=
  let anonymized := message in
  let anonymized := replace_all phonePattern (lit "[PHONE]") anonymized in
  let anonymized := replace_all emailPattern (lit "[EMAIL]") anonymized in
  let anonymized := replace_all urlPattern (lit "[URL]") anonymized in
  let anonymized := replace_all commonNames (lit "[NAME]") anonymized in
  let anonymized := replace_all addressPattern (lit "[ADDRESS]") anonymized in
  anonymized.

End Sanitizer.

(* ================================================================== *)
(** ** A suggestion request in the background script *)
(* ================================================================== *)

Module AIRequest.
Import JS JSValue.
Import ContentScript (Style, formalityLevel, emojiUsage).

(** The payload [sanitizeData] receives: the fields the content script
    sends and the fields the sanitizer looks for; [None] is an absent
    property. *)
Record Payload := {
  message : option jsstring;
  context : option jsstring;
  contactId : option jsstring;
  platform : option jsstring;
  contactStyle : option Style;
  contactName : option jsstring;
  phoneNumber : option jsstring;
  email : option jsstring;
  fullName : option jsstring;
  privacyLevel : option jsstring;
  timestamp : option Z
}.

(** The [data] of a [GET_AI_RESPONSE] message as [generateSuggestions]
    builds it. *)
Definition of_request (req : ContentScript.Request) : Payload :=
  {| message := Some (ContentScript.r_message req);
     context := Some (ContentScript.r_context req);
     contactId := Some (ContentScript.r_contactId req);
     platform := Some (ContentScript.r_platform req);
     contactStyle := ContentScript.r_contactStyle req;
     contactName := None; phoneNumber := None; email := None;
     fullName := None; privacyLevel := None; timestamp := None |}.

(** [if (x) x = f(x)] on a string property. *)
Definition update_if_truthy (f : jsstring -> jsstring) (x : option jsstring)
  : option jsstring :=
  match x with
  | Some (c :: s) => Some (f (c :: s))
  | other => other
  end.

Section Sanitize.

Variable cryptoAvailable : bool.
Variable subtle_digest : list PrivacyManager.byte -> completion (list PrivacyManager.byte).
Variable utf8_encode : jsstring -> list PrivacyManager.byte.

(** [sanitizeData]; [now] is [Date.now()]. *)
Definition sanitizeData (now : Z) (data : Payload) : Payload :=
  {| message := update_if_truthy Sanitizer.anonymizeMessage (message data);
     context := context data;
     contactId := None;
     platform := None;
     contactStyle := contactStyle data;
     contactName :=
       update_if_truthy
         (PrivacyManager.hashString cryptoAvailable subtle_digest utf8_encode)
         (contactName data);
     phoneNumber := None;
     email := None;
     fullName := None;
     privacyLevel := Some (lit "high");
     timestamp := Some now |}.

End Sanitize.

(** What [generateResponse] and the prompt builders read of the payload;
    [None] when there is no message, on which [toLowerCase] throws. *)
Definition to_request (p : Payload) : option APIManager.RequestData :=
  match message p with
  | Some m =>
      Some {| APIManager.message := m;
              APIManager.context :=
                match context p with Some c => c | None => [] end;
              APIManager.contactStyle := contactStyle p |}
  | None => None
  end.

(** [x > 0.7] and [x > 0.5]: the literal is the double nearest to it. *)
Definition above (x : Q) (threshold : Q) : bool :=
  negb (Qle_bool x (to_double threshold)).

(** [buildHFPrompt]. *)
Definition buildHFPrompt (data : APIManager.RequestData) : jsstring :=
  let context := APIManager.context data in
  let prompt :=
    lit "Context: " ++
    (if negb (Z.of_nat (length context) =? 0) then context
     else lit "General conversation") ++ [10] in
  let prompt :=
    match APIManager.contactStyle data with
    | Some contactStyle =>
        let prompt :=
          prompt ++ lit "Contact style: " ++
          (if above (formalityLevel contactStyle) (7 # 10)
           then lit "Formal" else lit "Casual") ++ lit ", " in
        prompt ++ lit "Emoji usage: " ++
        (if above (emojiUsage contactStyle) (5 # 10)
         then lit "High" else lit "Low") ++ [10]
    | None => prompt
    end in
  prompt ++ lit "Message: " ++ APIManager.message data ++ [10] ++ lit "Response:".

(** [buildGeminiPrompt]; 34 is the double quote. *)
Definition buildGeminiPrompt (data : APIManager.RequestData) : jsstring :=
  let context := APIManager.context data in
  let prompt :=
    lit "You are a helpful AI texting assistant. Generate a natural, contextual response to this message:"
    ++ [10; 10] in
  let prompt :=
    if negb (Z.of_nat (length context) =? 0)
    then prompt ++ lit "Conversation context: " ++ context ++ [10; 10]
    else prompt in
  let prompt :=
    match APIManager.contactStyle data with
    | Some contactStyle =>
        let prompt := prompt ++ lit "Match this style: " in
        let prompt :=
          prompt ++ lit "Formality level: " ++
          (if above (formalityLevel contactStyle) (7 # 10)
           then lit "formal" else lit "casual") ++ lit ", " in
        prompt ++ lit "Emoji usage: " ++
        (if above (emojiUsage contactStyle) (5 # 10)
         then lit "include emojis" else lit "minimal emojis") ++ [10; 10]
    | None => prompt
    end in
  prompt ++ lit "Message: " ++ [34] ++ APIManager.message data ++ [34] ++
  [10; 10] ++ lit "Response:".

(** What [sendResponse] is called with. *)
Inductive Reply :=
| Success (response : jsstring)
| Failure.

Section Handle.

Variable cryptoAvailable : bool.
Variable subtle_digest : list PrivacyManager.byte -> completion (list PrivacyManager.byte).
Variable utf8_encode : jsstring -> list PrivacyManager.byte.
Variable toLowerCase : jsstring -> jsstring.

(** [handleAIRequest] on a request of the content script: the payload is
    sanitized, the answer generated from the sanitized payload, and the
    record stored from the fields of the payload as it came in.
    [sanitizedAt] and [storedAt] are the two readings of [Date.now()].  A
    table lookup that yields [undefined], to which no value of
    [Math.random()] leads, is left out ([None]). *)
Definition handleAIRequest (apiKeys : option APIManager.ApiKeys)
    (hf gm : APIManager.FetchOutcome) (r : Q) (sanitizedAt storedAt : Z)
    (data : ContentScript.Request) (st : ServiceWorker.Storage)
  : option (ServiceWorker.Storage * Reply) :=
  let message := ContentScript.r_message data in
  let contactId := ContentScript.r_contactId data in
  let platform := ContentScript.r_platform data in
  let sanitizedData :=
    sanitizeData cryptoAvailable subtle_digest utf8_encode sanitizedAt
      (of_request data) in
  match to_request sanitizedData with
  | None => Some (st, Failure)
  | Some request =>
      match APIManager.generateResponse toLowerCase apiKeys hf gm r request with
      | Some response =>
          Some (ServiceWorker.storeConversationData contactId platform message
                  response storedAt st,
                Success response)
      | None => None
      end
  end.

End Handle.

End AIRequest.

(* ================================================================== *)
(** ** The platform detector and the injection check *)
(* ================================================================== *)

Module PlatformDetector.
Import JS.
Import Adapter (platform, WhatsApp, Instagram, Telegram, platform_name, attr_selector).

(** [window.location.hostname] and [window.location.pathname]. *)
Record Location := {
  hostname : jsstring;
  pathname : jsstring
}.

(** [currentPlatform] and [platformAdapter]. *)
Record Detector := {
  currentPlatform : option jsstring;
  platformAdapter : option platform
}.

(** The state the constructor sets before it detects. *)
Definition new : Detector :=
  {| currentPlatform := None; platformAdapter := None |}.

(** A selector [tag[name*="value"]]. *)
Definition contains_selector (tag name value : string) : jsstring :=
  lit tag ++ lit "[" ++ lit name ++ lit "*=" ++ [34] ++ lit value ++ [34] ++
  lit "]".

Definition whatsAppIndicators : list jsstring :=
  [attr_selector "data-testid" "chat-list";
   attr_selector "data-testid" "conversation-title";
   lit ".chat-list"; lit ".conversation-list";
   contains_selector "div" "data-testid" "chat"].

Definition instagramIndicators : list jsstring :=
  [attr_selector "data-testid" "direct-message";
   lit ".direct-message"; lit ".ig-dm";
   contains_selector "div" "data-testid" "dm";
   contains_selector "div" "data-testid" "message"].

Definition telegramIndicators : list jsstring :=
  [lit ".chat-list"; lit ".message-list"; lit ".chat-item"; lit ".message";
   lit "div[data-peer-id]"].

(** [detectFromContent]; [present selector] tells whether
    [document.querySelector(selector)] finds an element. *)
Definition detectFromContent (present : jsstring -> bool) : option platform :=
  if existsb present whatsAppIndicators then Some WhatsApp
  else if existsb present instagramIndicators then Some Instagram
  else if existsb present telegramIndicators then Some Telegram
  else None.

Definition resolved (p : platform) : Detector :=
  {| currentPlatform := Some (platform_name p); platformAdapter := Some p |}.

(** [detectPlatform]. *)
Definition detectPlatform (loc : Location) (present : jsstring -> bool)
  : Detector :=
  let hostname := hostname loc in
  let pathname := pathname loc in
  if includes hostname (lit "web.whatsapp.com") ||
     includes hostname (lit "whatsapp.com")
  then resolved WhatsApp
  else if (includes hostname (lit "instagram.com") ||
           includes hostname (lit "www.instagram.com")) &&
          (includes pathname (lit "/direct/") ||
           includes pathname (lit "/messages/"))
  then resolved Instagram
  else if includes hostname (lit "web.telegram.org") ||
          includes hostname (lit "telegram.org")
  then resolved Telegram
  else match detectFromContent present with
       | Some p => resolved p
       | None => {| currentPlatform := Some (lit "unknown");
                    platformAdapter := None |}
       end.

(** [isSupportedPlatform] of the detector. *)
Definition isSupportedPlatform (d : Detector) : bool :=
  match currentPlatform d with
  | Some name =>
      existsb (jsstring_eqb name)
              [lit "whatsapp"; lit "instagram"; lit "telegram"]
  | None => false
  end.

(** The selectors of [getPlatformConfig] that [isPlatformReady] reads:
    input selectors and message selectors. *)
Definition platformConfig (name : jsstring)
  : option (list jsstring * list jsstring) :=
  if jsstring_eqb name (lit "whatsapp") then
    Some ([attr_selector "contenteditable" "true"
             ++ attr_selector "data-testid" "conversation-compose-box-input";
           attr_selector "contenteditable" "true"],
          [attr_selector "data-testid" "msg-meta";
           lit ".message-in"; lit ".message-out"])
  else if jsstring_eqb name (lit "instagram") then
    Some ([lit "textarea[placeholder*=" ++ [34] ++ lit "Message" ++ [34] ++ lit "]";
           lit "textarea[aria-label*=" ++ [34] ++ lit "Message" ++ [34] ++ lit "]"],
          [attr_selector "data-testid" "direct-message";
           lit ".direct-message"])
  else if jsstring_eqb name (lit "telegram") then
    Some ([lit ".input-message-input";
           attr_selector "contenteditable" "true"],
          [lit ".message"; lit ".message-text"])
  else None.

(** [isPlatformReady]. *)
Definition isPlatformReady (present : jsstring -> bool) (d : Detector)
  : bool :=
  match currentPlatform d, platformAdapter d with
  | Some name, Some _ =>
      if Z.of_nat (length name) =? 0 then false else
      match platformConfig name with
      | Some (inputSelectors, messageSelectors) =>
          existsb present inputSelectors && existsb present messageSelectors
      | None => false
      end
  | _, _ => false
  end.

(** [isSupportedPlatform] of the service worker, which decides whether
    the content script is injected into a tab. *)
Definition injects (hostname : jsstring) : bool :=
  existsb (fun platform => includes hostname platform)
          [lit "web.whatsapp.com"; lit "www.instagram.com";
           lit "web.telegram.org"].

End PlatformDetector.

(* ================================================================== *)
(** ** Concrete emitters, nodes and requests used in the examples *)
(* ================================================================== *)

Module Examples.
Import JS.

Definition messageEvent : jsstring := lit "messageReceived".

(** An emitter with one listener, function 1, on [messageReceived]. *)
Definition oneListener : EventEmitter.Emitter :=
  {| EventEmitter.events := Some [(messageEvent, [EventEmitter.Callback 1])];
     EventEmitter.closures := 0 |}.

Definition emitterOps : list EventEmitter.Op :=
  [EventEmitter.OpOn messageEvent 1;
   EventEmitter.OpOnce messageEvent 2;
   EventEmitter.OpEmit (fun _ => false) messageEvent;
   EventEmitter.OpOff messageEvent 1].

(** A WhatsApp detector on the page of the chat "alice". *)
Definition whatsAppDetector : MessageDetector.Detector :=
  MessageDetector.new (Some Adapter.WhatsApp) (lit "whatsapp").

Definition typingOf (t : Z) : Adapter.TypingData :=
  {| Adapter.t_contactId := Some (lit "alice");
     Adapter.t_platform := lit "whatsapp";
     Adapter.t_timestamp := t |}.

Definition monitoring : Observer.Monitor :=
  {| Observer.detector :=
       MessageDetector.handleTypingDetected (typingOf 10) whatsAppDetector;
     Observer.isMonitoring := true |}.



(** The double 0.6666666666666666, the largest below two thirds. *)
Definition twoThirds : Q := 6004799503160661 # 9007199254740992.


(** A provider answer whose generated text is "Response:   Sure thing  ". *)
Definition hfAnswer : APIManager.FetchOutcome :=
  APIManager.HttpResponse 200
    (Some (JSValue.JArr
             [JSValue.JObj
                [(lit "generated_text",
                  JSValue.JStr (lit "Response:   Sure thing  "))]])).

(** A received message that carries a phone number. *)
Definition phoneMessage : Adapter.MessageData :=
  {| Adapter.message := lit "call 555-123-4567";
     Adapter.contactId := lit "5899680";
     Adapter.platform_ := lit "whatsapp";
     Adapter.timestamp := 1000;
     Adapter.type := lit "incoming" |}.

Definition bothKeys : option APIManager.ApiKeys :=
  Some {| APIManager.huggingface := Some (lit "hf_key");
          APIManager.gemini := Some (lit "g_key") |}.

Definition noKeys : option APIManager.ApiKeys :=
  Some {| APIManager.huggingface := None; APIManager.gemini := None |}.

Definition thinkRequest : APIManager.RequestData :=
  {| APIManager.message := lit "I think so"; APIManager.context := [];
     APIManager.contactStyle := None |}.

(** A record stored at time 1000. *)
Definition oneRecord : ServiceWorker.Storage :=
  {| ServiceWorker.conversationData :=
       Some [{| ServiceWorker.contactId := lit "alice";
                ServiceWorker.platform := lit "whatsapp";
                ServiceWorker.message := lit "hi";
                ServiceWorker.response := lit "Hi! How are you?";
                ServiceWorker.timestamp := 1000;
                ServiceWorker.success := true |}] |}.

Definition noStorage : ServiceWorker.Storage :=
  {| ServiceWorker.conversationData := None |}.

Definition noKeyManager : PrivacyManager.Manager :=
  {| PrivacyManager.encryptionKey := None |}.

Definition whatsAppTab : PlatformDetector.Location :=
  {| PlatformDetector.hostname := lit "web.whatsapp.com";
     PlatformDetector.pathname := lit "/" |}.

Definition instagramFeedTab : PlatformDetector.Location :=
  {| PlatformDetector.hostname := lit "www.instagram.com";
     PlatformDetector.pathname := lit "/explore/" |}.

Definition shownOverlay : ContentScript.Overlay :=
  {| UIOverlay.isVisible := true;
     UIOverlay.currentSuggestions :=
       [{| ContentScript.id := lit "direct"; ContentScript.text := lit "Sure";
           ContentScript.s_type := lit "direct";
           ContentScript.description := lit "Use as is" |}];
     UIOverlay.currentContact := Some Scenarios.contactY;
     UIOverlay.pendingHides := 0;
     UIOverlay.autoHideTimer := true |}.

Definition newSuggestions : list ContentScript.Suggestion :=
  [{| ContentScript.id := lit "direct"; ContentScript.text := lit "Later";
      ContentScript.s_type := lit "direct";
      ContentScript.description := lit "Use as is" |}].

End Examples.

(* ================================================================== *)
(** * Verified properties *)
(* ================================================================== *)

Import JS.

(** ** Strings *)

Section StringFacts.

Lemma starts_with_app (s p : jsstring) :
  starts_with s p = true -> exists r, s = p ++ r.
Proof.
  revert s. induction p as [|c p IH]; intros s H.
  - exists s. reflexivity.
  - destruct s as [|d s]; simpl in H; [discriminate|].
    apply andb_true_iff in H. destruct H as [Hc Hr].
    apply Z.eqb_eq in Hc. subst d.
    destruct (IH s Hr) as [r ->]. exists r. reflexivity.
Qed.

Lemma includes_app (s sub : jsstring) :
  includes s sub = true -> exists a b, s = a ++ sub ++ b.
Proof.
  induction s as [|d s IH]; intro H; cbn [includes] in H.
  - rewrite orb_false_r in H.
    apply starts_with_app in H. destruct H as [r Hr].
    exists [], r. exact Hr.
  - apply orb_true_iff in H. destruct H as [H|H].
    + apply starts_with_app in H. destruct H as [r Hr].
      exists [], r. exact Hr.
    + destruct (IH H) as (a & b & ->). exists (d :: a), b. reflexivity.
Qed.

(** A string that occurs in another is no longer than it. *)
Lemma includes_length (s sub : jsstring) :
  includes s sub = true -> (length sub <= length s)%nat.
Proof.
  intro H. apply includes_app in H. destruct H as (a & b & ->).
  rewrite !length_app. lia.
Qed.

(** Every code unit of a string that occurs in another occurs in it. *)
Lemma includes_forallb (f : Z -> bool) (s sub : jsstring) :
  includes s sub = true -> forallb f s = true -> forallb f sub = true.
Proof.
  intros H Hs. apply includes_app in H. destruct H as (a & b & ->).
  rewrite !forallb_app in Hs.
  apply andb_true_iff in Hs. destruct Hs as [_ Hs].
  apply andb_true_iff in Hs. tauto.
Qed.

End StringFacts.

(** ** Doubles *)

Section Doubles.
Local Open Scope Q_scope.

Lemma pow2_pos (k : Z) : 0 < pow2 k.
Proof. apply Qpower_0_lt. reflexivity. Qed.

Lemma pow2_add (a b : Z) : pow2 (a + b) == pow2 a * pow2 b.
Proof. apply Qpower_plus. intro H. discriminate H. Qed.

Lemma pow2_le (a b : Z) : (a <= b)%Z -> pow2 a <= pow2 b.
Proof.
  intro H. apply Qpower_le_compat_l; [exact H|]. unfold Qle. cbn. lia.
Qed.

Lemma pow2_lt_inv (a b : Z) : pow2 a < pow2 b -> (a < b)%Z.
Proof.
  intro H. apply (Qpower_lt_compat_l_inv 2); [exact H | reflexivity].
Qed.

Lemma pow2_Z (k : Z) : (0 <= k)%Z -> inject_Z (2 ^ k) == pow2 k.
Proof. intro H. apply Zpower_Qpower. exact H. Qed.

(** The exponent is the one it is meant to be. *)
Lemma exponent_bounds (x : Q) :
  0 < x -> pow2 (exponent x) <= x /\ x < pow2 (exponent x + 1).
Proof.
  intro Hx. destruct x as [a b].
  assert (Ha : (0 < a)%Z).
  { unfold Qlt in Hx. cbn in Hx. lia. }
  pose proof (Z.log2_spec a Ha) as [La1 La2].
  pose proof (Z.log2_spec (Zpos b) (Pos2Z.is_pos b)) as [Lb1 Lb2].
  pose proof (Z.log2_nonneg a) as Na.
  pose proof (Z.log2_nonneg (Zpos b)) as Nb.
  set (la := Z.log2 a) in *. set (lb := Z.log2 (Zpos b)) in *.
  set (x := a # b) in *.
  assert (XB : x * inject_Z (Zpos b) == inject_Z a).
  { unfold x. rewrite (Qmake_Qdiv a b). field. intro H. discriminate H. }
  assert (A1 : pow2 la <= inject_Z a).
  { rewrite <- pow2_Z by exact Na. rewrite <- Zle_Qle. exact La1. }
  assert (A2 : inject_Z a < pow2 (la + 1)).
  { rewrite <- pow2_Z by lia. rewrite <- Zlt_Qlt. exact La2. }
  assert (B1 : pow2 lb <= inject_Z (Zpos b)).
  { rewrite <- pow2_Z by exact Nb. rewrite <- Zle_Qle. exact Lb1. }
  assert (B2 : inject_Z (Zpos b) < pow2 (lb + 1)).
  { rewrite <- pow2_Z by lia. rewrite <- Zlt_Qlt. exact Lb2. }
  assert (Up : x < pow2 (la - lb + 1)).
  { apply (Qmult_lt_r _ _ (inject_Z (Zpos b))); [reflexivity|].
    rewrite XB. apply Qlt_le_trans with (pow2 (la + 1)); [exact A2|].
    replace (la + 1)%Z with ((la - lb + 1) + lb)%Z by lia.
    rewrite pow2_add. apply Qmult_le_l; [apply pow2_pos | exact B1]. }
  assert (Lo : pow2 (la - lb - 1) < x).
  { apply (Qmult_lt_r _ _ (pow2 (lb + 1))); [apply pow2_pos|].
    rewrite <- pow2_add. replace (la - lb - 1 + (lb + 1))%Z with la by lia.
    apply Qle_lt_trans with (inject_Z a); [exact A1|].
    rewrite <- XB. apply Qmult_lt_l; [exact Hx | exact B2]. }
  assert (EX : exponent x = if Qle_bool (pow2 (la - lb)) x
                            then (la - lb)%Z else (la - lb - 1)%Z)
    by reflexivity.
  rewrite EX.
  destruct (Qle_bool (pow2 (la - lb)) x) eqn:E.
  - apply Qle_bool_iff in E. split; assumption.
  - assert (N : ~ pow2 (la - lb) <= x).
    { intro H. apply Qle_bool_iff in H. congruence. }
    apply Qnot_le_lt in N. split; [apply Qlt_le_weak; exact Lo|].
    replace (la - lb - 1 + 1)%Z with (la - lb)%Z by lia. exact N.
Qed.

Lemma exponent_unique (x : Q) (e : Z) :
  pow2 e <= x -> x < pow2 (e + 1) -> exponent x = e.
Proof.
  intros H1 H2.
  assert (Hx : 0 < x) by (eapply Qlt_le_trans; [apply pow2_pos | exact H1]).
  destruct (exponent_bounds x Hx) as [E1 E2].
  assert (exponent x < e + 1)%Z
    by (apply pow2_lt_inv; eapply Qle_lt_trans; eassumption).
  assert (e < exponent x + 1)%Z
    by (apply pow2_lt_inv; eapply Qle_lt_trans; eassumption).
  lia.
Qed.

Lemma round_half_even_bounds (y : Q) :
  inject_Z (round_half_even y) <= y + (1 # 2) /\
  (0 <= y -> 0 <= inject_Z (round_half_even y)).
Proof.
  pose proof (Qfloor_le y) as F1. pose proof (Qlt_floor y) as F2.
  rewrite inject_Z_plus in F2. change (inject_Z 1) with 1 in F2.
  assert (F0 : 0 <= y -> 0 <= inject_Z (Qfloor y)).
  { intro H. change 0 with (inject_Z 0). rewrite <- Zle_Qle.
    rewrite <- (Qfloor_Z 0). apply Qfloor_resp_le. exact H. }
  unfold round_half_even.
  destruct (Qcompare_spec (y - inject_Z (Qfloor y)) (1 # 2)) as [C|C|C].
  - destruct (Z.even (Qfloor y)).
    + split; [lra | exact F0].
    + rewrite inject_Z_plus. change (inject_Z 1) with 1.
      split; [lra|]. intro H. specialize (F0 H). lra.
  - split; [lra | exact F0].
  - rewrite inject_Z_plus. change (inject_Z 1) with 1.
    split; [lra|]. intro H. specialize (F0 H). lra.
Qed.

Lemma Qabs_of_pos (x : Q) : 0 < x -> Qabs x = x.
Proof.
  destruct x as [a b]. unfold Qlt. cbn. intro H. unfold Qabs.
  rewrite Z.abs_eq by lia. reflexivity.
Qed.

Lemma ulp_pos (x : Q) : 0 < ulp x.
Proof. apply pow2_pos. Qed.

(** Rounding moves a positive number up by half the distance between
    doubles at most, and not below zero. *)
Lemma to_double_bounds (x : Q) :
  0 < x -> 0 <= to_double x /\ to_double x <= x + ulp x * (1 # 2).
Proof.
  intro Hx. unfold to_double.
  assert (E : Qeq_bool x 0 = false).
  { destruct (Qeq_bool x 0) eqn:E; [|reflexivity].
    apply Qeq_bool_iff in E. lra. }
  rewrite E, (Qabs_of_pos x Hx).
  assert (L : Qle_bool 0 x = true) by (apply Qle_bool_iff; lra).
  rewrite L.
  pose proof (ulp_pos x) as U.
  assert (Y : 0 <= x / ulp x).
  { apply Qle_shift_div_l; [exact U | lra]. }
  destruct (round_half_even_bounds (x / ulp x)) as [R1 R2].
  specialize (R2 Y). split.
  - apply Qmult_le_0_compat; lra.
  - apply Qle_trans with ((x / ulp x + (1 # 2)) * ulp x).
    + apply Qmult_le_compat_r; lra.
    + assert (D : x / ulp x * ulp x == x) by (field; lra).
      rewrite Qmult_plus_distr_l, D. lra.
Qed.

Lemma floor_scaled_le (r u : Q) :
  0 < u -> inject_Z (Qfloor (r / u)) * u <= r.
Proof.
  intro U. apply Qle_trans with (r / u * u).
  - apply Qmult_le_compat_r; [apply Qfloor_le | lra].
  - assert (D : r / u * u == r) by (field; lra). rewrite D. apply Qle_refl.
Qed.

Lemma floor_scaled_nonneg (r u : Q) :
  0 < u -> 0 <= r -> (0 <= Qfloor (r / u))%Z.
Proof.
  intros U H. rewrite <- (Qfloor_Z 0). apply Qfloor_resp_le.
  change (inject_Z 0) with 0. apply Qle_shift_div_l; [exact U | lra].
Qed.

Lemma ulp_cases (x : Q) :
  0 < x -> ulp x <= x * pow2 (-52) \/ ulp x = pow2 (-1074).
Proof.
  intro Hx. unfold ulp.
  destruct (Z.max_spec (exponent x) (-1022)) as [[H ->]|[H ->]].
  - right. reflexivity.
  - left. replace (exponent x - 52)%Z with (exponent x + -52)%Z by lia.
    rewrite pow2_add. apply Qmult_le_compat_r;
      [apply (exponent_bounds x Hx) | apply Qlt_le_weak, pow2_pos].
Qed.

(** [Math.random()] is below the largest double below 1. *)
Lemma double_below_range (r : Q) :
  0 <= r -> r < 1 ->
  0 <= double_below r /\ double_below r <= 1 - pow2 (-53).
Proof.
  intros H0 H1. unfold double_below.
  assert (P : pow2 (-53) == 1 # 9007199254740992) by reflexivity.
  destruct (Qle_bool r 0) eqn:E; [rewrite P; split; lra|].
  assert (Hr : 0 < r).
  { apply Qnot_le_lt. intro H. apply Qle_bool_iff in H. congruence. }
  pose proof (ulp_pos r) as U.
  pose proof (Qfloor_le (r / ulp r)) as F.
  pose proof (floor_scaled_le r (ulp r) U) as Below.
  split.
  - apply Qmult_le_0_compat; [|lra].
    change 0 with (inject_Z 0). rewrite <- Zle_Qle.
    apply floor_scaled_nonneg; [exact U | lra].
  - destruct (Qlt_le_dec r (1 # 2)) as [Small|Large]; [rewrite P; lra|].
    assert (Ex : exponent r = (-1)%Z).
    { apply exponent_unique.
      - assert (pow2 (-1) == 1 # 2) by reflexivity. lra.
      - assert (pow2 (-1 + 1) == 1) by reflexivity. lra. }
    assert (Ur : ulp r = pow2 (-53)).
    { unfold ulp. rewrite Ex. reflexivity. }
    rewrite Ur in *. rewrite P in *.
    assert (Lt : (Qfloor (r / (1 # 9007199254740992)) < 9007199254740992)%Z).
    { rewrite Zlt_Qlt. eapply Qle_lt_trans; [exact F|].
      apply Qlt_shift_div_r; [reflexivity|].
      setoid_replace (inject_Z 9007199254740992 * (1 # 9007199254740992))
        with 1 by reflexivity.
      exact H1. }
    assert (Le : inject_Z (Qfloor (r / (1 # 9007199254740992)))
                 <= inject_Z 9007199254740991).
    { rewrite <- Zle_Qle. lia. }
    change (inject_Z 9007199254740991) with (9007199254740991 # 1) in Le.
    apply Qle_trans with ((9007199254740991 # 1) * (1 # 9007199254740992)).
    + apply Qmult_le_compat_r; [exact Le | discriminate].
    + lra.
Qed.

(** The index [Math.floor(Math.random() * length)], computed in doubles,
    lies within the array. *)
Lemma random_index_in_range (r : Q) (n : Z) :
  0 <= r -> r < 1 -> (1 <= n)%Z ->
  (0 <= Qfloor (to_double (double_below r * inject_Z n)) < n)%Z.
Proof.
  intros H0 H1 Hn.
  destruct (double_below_range r H0 H1) as [R0 R1].
  assert (P : pow2 (-53) == 1 # 9007199254740992) by reflexivity.
  rewrite P in R1.
  assert (N : 1 <= inject_Z n).
  { change 1 with (inject_Z 1). rewrite <- Zle_Qle. exact Hn. }
  set (x := double_below r * inject_Z n) in *.
  assert (X0 : 0 <= x) by (apply Qmult_le_0_compat; lra).
  assert (X1 : x <= inject_Z n - inject_Z n * (1 # 9007199254740992)).
  { unfold x. setoid_replace (inject_Z n - inject_Z n * (1 # 9007199254740992))
      with ((1 - (1 # 9007199254740992)) * inject_Z n) by ring.
    apply Qmult_le_compat_r; lra. }
  destruct (Qlt_le_dec 0 x) as [Xp|Xz].
  - destruct (to_double_bounds x Xp) as [T0 T1].
    assert (T : to_double x < inject_Z n).
    { destruct (ulp_cases x Xp) as [U|U].
      - assert (P52 : pow2 (-52) == 1 # 4503599627370496) by reflexivity.
        rewrite P52 in U. lra.
      - rewrite U in T1.
        assert (P1074 : pow2 (-1074) * (1 # 2) <= (1 # 9007199254740992) * (1 # 2))
          by (vm_compute; discriminate).
        lra. }
    split.
    + rewrite <- (Qfloor_Z 0). apply Qfloor_resp_le. exact T0.
    + rewrite Zlt_Qlt. eapply Qle_lt_trans; [apply Qfloor_le | exact T].
  - assert (Z0 : Qeq_bool x 0 = true) by (apply Qeq_bool_iff; lra).
    unfold to_double. rewrite Z0. cbn. lia.
Qed.

(** A double is the largest double not above itself. *)
Lemma double_below_idempotent (r : Q) :
  0 <= r -> double_below (double_below r) == double_below r.
Proof.
  intro H0. unfold double_below at 2 3.
  destruct (Qle_bool r 0) eqn:E; [reflexivity|].
  assert (Hr : 0 < r).
  { apply Qnot_le_lt. intro H. apply Qle_bool_iff in H. congruence. }
  destruct (exponent_bounds r Hr) as [E1 E2].
  pose proof (ulp_pos r) as U.
  set (m := Qfloor (r / ulp r)).
  assert (M0 : (0 <= m)%Z)
    by (apply floor_scaled_nonneg; [exact U | lra]).
  pose proof (floor_scaled_le r (ulp r) U) as Below. fold m in Below.
  destruct (Z.eq_dec m 0) as [->|Mne].
  { unfold double_below.
    assert (Z0 : Qle_bool (inject_Z 0 * ulp r) 0 = true)
      by (apply Qle_bool_iff; change (inject_Z 0) with 0; lra).
    rewrite Z0. change (inject_Z 0) with 0. lra. }
  assert (Mp : 1 <= inject_Z m).
  { change 1 with (inject_Z 1). rewrite <- Zle_Qle. lia. }
  set (R := inject_Z m * ulp r).
  assert (Rp : 0 < R) by (unfold R; apply Qmult_lt_0_compat; lra).
  assert (UR : ulp R = ulp r).
  { unfold ulp. f_equal. f_equal.
    destruct (Z_lt_le_dec (exponent r) (-1022)) as [Sub|Norm].
    - assert (exponent R < -1022)%Z.
      { destruct (exponent_bounds R Rp) as [G1 _].
        assert (pow2 (exponent R) < pow2 (-1022)).
        { eapply Qle_lt_trans; [exact G1|].
          eapply Qle_lt_trans; [exact Below|].
          eapply Qlt_le_trans; [exact E2|]. apply pow2_le. lia. }
        apply pow2_lt_inv. assumption. }
      lia.
    - assert (exponent R = exponent r); [|lia].
      apply exponent_unique.
      + assert (Uv : ulp r = pow2 (exponent r - 52)).
        { unfold ulp. f_equal. lia. }
        assert (S52 : pow2 (exponent r) == inject_Z (2 ^ 52) * ulp r).
        { rewrite Uv, (pow2_Z 52) by lia. rewrite <- pow2_add.
          replace (52 + (exponent r - 52))%Z with (exponent r) by lia.
          reflexivity. }
        assert (Mge : (2 ^ 52 <= m)%Z).
        { unfold m. rewrite <- (Qfloor_Z (2 ^ 52)). apply Qfloor_resp_le.
          apply Qle_shift_div_l; [exact U|]. rewrite <- S52. exact E1. }
        rewrite S52. unfold R. apply Qmult_le_compat_r; [|lra].
        rewrite <- Zle_Qle. exact Mge.
      + eapply Qle_lt_trans; [exact Below | exact E2]. }
  unfold double_below. fold R.
  assert (Z0 : Qle_bool R 0 = false).
  { destruct (Qle_bool R 0) eqn:Z0; [|reflexivity].
    apply Qle_bool_iff in Z0. lra. }
  rewrite Z0, UR.
  assert (Q : R / ulp r == inject_Z m) by (unfold R; field; lra).
  rewrite Q, Qfloor_Z. reflexivity.
Qed.

End Doubles.

(** ** Radix-16 printing *)

Section HexFacts.

Lemma hex_digit_is_hex (d : Z) :
  0 <= d < 16 -> is_hex_digit (hex_digit d) = true.
Proof.
  intro Hd. unfold is_hex_digit, hex_digit.
  destruct (d <? 10) eqn:E.
  - apply Z.ltb_lt in E. apply orb_true_iff. left.
    apply andb_true_iff. split; [apply Z.leb_le | apply Z.leb_le]; lia.
  - apply Z.ltb_ge in E. apply orb_true_iff. right.
    apply andb_true_iff. split; [apply Z.leb_le | apply Z.leb_le]; lia.
Qed.

Lemma to_hex_aux_digits (fuel : nat) : forall n acc,
  0 <= n -> forallb is_hex_digit acc = true ->
  forallb is_hex_digit (to_hex_aux fuel n acc) = true.
Proof.
  induction fuel as [|f IH]; intros n acc Hn Hacc; simpl; [exact Hacc|].
  assert (Hd : forallb is_hex_digit (hex_digit (n mod 16) :: acc) = true).
  { simpl. rewrite Hacc, hex_digit_is_hex; [reflexivity|].
    apply Z.mod_pos_bound. lia. }
  destruct (n / 16 =? 0); [exact Hd|].
  apply IH; [apply Z.div_pos; lia | exact Hd].
Qed.

Lemma to_hex_aux_length (fuel : nat) : forall k n acc,
  0 <= n < 16 ^ Z.of_nat (S k) ->
  (length (to_hex_aux fuel n acc) <= length acc + S k)%nat.
Proof.
  induction fuel as [|f IH]; intros k n acc Hn; simpl; [lia|].
  destruct (n / 16 =? 0) eqn:E; [simpl; lia|].
  apply Z.eqb_neq in E.
  destruct k as [|k].
  - exfalso. apply E. apply Z.div_small. simpl in Hn. lia.
  - specialize (IH k (n / 16) (hex_digit (n mod 16) :: acc)).
    simpl length in IH.
    assert (H16 : 0 <= n / 16 < 16 ^ Z.of_nat (S k)).
    { split; [apply Z.div_pos; lia|].
      apply Z.div_lt_upper_bound; [lia|].
      replace (16 * 16 ^ Z.of_nat (S k)) with (16 ^ Z.of_nat (S (S k))); [lia|].
      rewrite (Nat2Z.inj_succ (S k)), Z.pow_succ_r; lia. }
    specialize (IH H16). lia.
Qed.

Lemma to_hex_aux_nonempty (fuel : nat) (n : Z) (acc : jsstring) :
  (length acc <= length (to_hex_aux (S fuel) n acc))%nat /\
  to_hex_aux (S fuel) n [] <> [].
Proof.
  assert (G : forall f m a,
            (length a <= length (to_hex_aux f m a))%nat).
  { induction f as [|f IH]; intros m a; simpl; [lia|].
    destruct (m / 16 =? 0); [simpl; lia|].
    specialize (IH (m / 16) (hex_digit (m mod 16) :: a)). simpl in IH. lia. }
  split; [apply G|].
  simpl. destruct (n / 16 =? 0); [discriminate|].
  intro H.
  specialize (G fuel (n / 16) [hex_digit (n mod 16)]).
  rewrite H in G. simpl in G. lia.
Qed.

Lemma hex_digit_value_hex_digit (d : Z) :
  0 <= d < 16 -> hex_digit_value (hex_digit d) = d.
Proof.
  intro Hd. unfold hex_digit_value, hex_digit.
  destruct (d <? 10) eqn:E.
  - apply Z.ltb_lt in E.
    destruct (48 + d <? 58) eqn:F; [lia | apply Z.ltb_ge in F; lia].
  - apply Z.ltb_ge in E.
    destruct (97 + (d - 10) <? 58) eqn:F; [apply Z.ltb_lt in F; lia | lia].
Qed.

(** Reading the digits produced for [n] in front of [acc] amounts to
    reading [acc] starting from [n], when the fuel covers the digits. *)
Lemma to_hex_aux_value (fuel : nat) : forall n acc,
  0 <= n < 16 ^ Z.of_nat fuel ->
  fold_left (fun a c => 16 * a + hex_digit_value c) (to_hex_aux fuel n acc) 0
  = fold_left (fun a c => 16 * a + hex_digit_value c) acc n.
Proof.
  induction fuel as [|f IH]; intros n acc Hn.
  - cbn in Hn. assert (n = 0) by lia. subst n. reflexivity.
  - cbn [to_hex_aux].
    assert (Hm : 0 <= n mod 16 < 16) by (apply Z.mod_pos_bound; lia).
    pose proof (Z.div_mod n 16 ltac:(lia)) as Hdm.
    destruct (n / 16 =? 0) eqn:E.
    + apply Z.eqb_eq in E. cbn [fold_left].
      rewrite hex_digit_value_hex_digit by exact Hm.
      f_equal. lia.
    + rewrite IH.
      * cbn [fold_left]. rewrite hex_digit_value_hex_digit by exact Hm.
        f_equal. lia.
      * split; [apply Z.div_pos; lia|].
        apply Z.div_lt_upper_bound; [lia|].
        rewrite Nat2Z.inj_succ, Z.pow_succ_r in Hn; lia.
Qed.

(** The fuel of [toString16] suffices: the digits it prints denote [n]. *)
Lemma toString16_value (n : Z) : 0 <= n -> hex_value (toString16 n) = n.
Proof.
  intro Hn. unfold hex_value, toString16.
  rewrite to_hex_aux_value; [reflexivity|].
  split; [exact Hn|].
  destruct (Z.eq_dec n 0) as [->|Hnz]; [reflexivity|].
  pose proof (Z.log2_spec n ltac:(lia)) as [_ Hlt].
  pose proof (Z.log2_nonneg n) as Hl.
  rewrite Nat2Z.inj_succ, Z2Nat.id by exact Hl.
  eapply Z.lt_le_trans; [exact Hlt|].
  apply Z.pow_le_mono_l. lia.
Qed.

(** [toString(16)] of a number below [2^32] is one to eight hex digits. *)
Lemma toString16_shape (n : Z) :
  0 <= n < 2 ^ 32 ->
  (1 <= length (toString16 n) <= 8)%nat /\
  forallb is_hex_digit (toString16 n) = true.
Proof.
  intro Hn. unfold toString16. repeat split.
  - destruct (to_hex_aux_nonempty (Z.to_nat (Z.log2 n)) n []) as [_ H].
    destruct (to_hex_aux (S (Z.to_nat (Z.log2 n))) n []); [congruence|simpl; lia].
  - pose proof (to_hex_aux_length (S (Z.to_nat (Z.log2 n))) 7 n []) as H.
    simpl length in H. apply H. change (16 ^ Z.of_nat 8) with (2 ^ 32). exact Hn.
  - apply to_hex_aux_digits; [lia | reflexivity].
Qed.

End HexFacts.

(** ** The rolling hash *)

Section HashFacts.

Lemma to_int32_range (x : Z) : - 2 ^ 31 <= to_int32 x < 2 ^ 31.
Proof.
  unfold to_int32.
  pose proof (Z.mod_pos_bound (x + 2 ^ 31) (2 ^ 32) ltac:(lia)). lia.
Qed.

Lemma step_range (h c : Z) : - 2 ^ 31 <= Hash.step h c < 2 ^ 31.
Proof. unfold Hash.step, and32. apply to_int32_range. Qed.

Lemma loop_range (str : jsstring) : forall h,
  - 2 ^ 31 <= h < 2 ^ 31 -> - 2 ^ 31 <= Hash.loop str h < 2 ^ 31.
Proof.
  assert (G : forall (f : Z -> Z -> Z) (lo hi : Z),
             (forall h c, lo <= f h c < hi) ->
             forall (s : jsstring) h, lo <= h < hi ->
             lo <= fold_left f s h < hi).
  { intros f lo hi Hstep.
    induction s as [|c s IH]; intros h Hh; cbn [fold_left]; [exact Hh|].
    apply IH. apply Hstep. }
  exact (G Hash.step (- 2 ^ 31) (2 ^ 31) step_range str).
Qed.

(** The rolling hash prints as one to eight lowercase hex digits. *)
Lemma simpleHash_shape (s : jsstring) :
  (1 <= length (Hash.simpleHash s) <= 8)%nat /\
  forallb is_hex_digit (Hash.simpleHash s) = true.
Proof.
  unfold Hash.simpleHash.
  destruct (Z.of_nat (length s) =? 0).
  - vm_compute. repeat split; lia.
  - apply toString16_shape.
    pose proof (loop_range s 0 ltac:(lia)). lia.
Qed.

(** For a non-empty input the digits denote the absolute value of the
    32-bit hash. *)
Lemma simpleHash_value (s : jsstring) :
  s <> [] -> hex_value (Hash.simpleHash s) = Z.abs (Hash.loop s 0).
Proof.
  intro Hne. unfold Hash.simpleHash.
  destruct s as [|c s]; [congruence|]. cbn [length].
  destruct (Z.of_nat (S (length s)) =? 0) eqn:E;
    [apply Z.eqb_eq in E; lia|].
  apply toString16_value. lia.
Qed.

Lemma hex2_digits (b : PrivacyManager.byte) :
  forallb is_hex_digit (PrivacyManager.hex2 b) = true.
Proof.
  unfold PrivacyManager.hex2, PrivacyManager.Z_of_byte.
  pose proof (Byte.to_N_bounded b) as Hb.
  cbn [forallb].
  rewrite !hex_digit_is_hex; [reflexivity| |].
  - apply Z.mod_pos_bound. lia.
  - split; [apply Z.div_pos; lia|].
    apply Z.div_lt_upper_bound; lia.
Qed.

(** The privacy manager's [hashString] prints hex digits only, through the
    digest as well as through the rolling hash, so it never contains an
    input that has a code unit other than a lowercase hex digit. *)
Lemma privacy_hashString_hex
    (cryptoAvailable : bool)
    (subtle_digest : list PrivacyManager.byte ->
                     JSValue.completion (list PrivacyManager.byte))
    (utf8_encode : jsstring -> list PrivacyManager.byte) (s : jsstring) :
  forallb is_hex_digit
    (PrivacyManager.hashString cryptoAvailable subtle_digest utf8_encode s)
  = true /\
  (forallb is_hex_digit s = false ->
   includes
     (PrivacyManager.hashString cryptoAvailable subtle_digest utf8_encode s) s
   = false).
Proof.
  assert (H : forallb is_hex_digit
                (PrivacyManager.hashString cryptoAvailable subtle_digest
                   utf8_encode s) = true).
  { unfold PrivacyManager.hashString, PrivacyManager.simpleHash.
    destruct cryptoAvailable; [|apply simpleHash_shape].
    destruct (subtle_digest (utf8_encode s)) as [hashArray|e];
      [|apply simpleHash_shape].
    induction hashArray as [|b rest IH]; [reflexivity|].
    cbn [flat_map]. rewrite forallb_app, hex2_digits, IH. reflexivity. }
  split; [exact H|].
  intro Hs.
  destruct (includes _ s) eqn:E; [|reflexivity].
  rewrite (includes_forallb is_hex_digit _ _ E H) in Hs. discriminate.
Qed.

End HashFacts.

(** ** Contact identifiers (C9, C1) *)

Section ContactIdentifiers.
Import Adapter Scenarios.

(** C9, counterexample: the rolling hash of the one-character string "1"
    is "31", which contains the raw input; the claim that the output never
    reproduces the input as a substring fails there. *)
Lemma hash_reproduces_hex_input :
  Hash.hashString (lit "1") = lit "31" /\
  includes (Hash.hashString (lit "1")) (lit "1") = true.
Proof. split; vm_compute; reflexivity. Qed.

(** C9, amended: the rolling hash ([simpleHash], and [hashString] of the
    adapters, which has the same body) is a function of its input alone
    (two runs on equal inputs agree); its output is between one and eight
    lowercase hexadecimal digits; hence the output does not contain the
    input whenever the input is longer than eight code units or has a
    code unit that is not a lowercase hexadecimal digit. *)
Theorem hash_deterministic_short_hex (s : jsstring) :
  (forall t, t = s -> Hash.hashString t = Hash.hashString s) /\
  Hash.simpleHash s = Hash.hashString s /\
  (1 <= length (Hash.hashString s) <= 8)%nat /\
  forallb is_hex_digit (Hash.hashString s) = true /\
  ((8 < length s)%nat \/ forallb is_hex_digit s = false ->
   includes (Hash.hashString s) s = false).
Proof.
  destruct (simpleHash_shape s) as [Hlen Hhex].
  split; [intros t ->; reflexivity|].
  split; [reflexivity|].
  split; [exact Hlen|].
  split; [exact Hhex|].
  intros Hs.
  destruct (includes (Hash.hashString s) s) eqn:E; [exfalso|reflexivity].
  destruct Hs as [Hlong|Hnonhex].
  - apply includes_length in E. unfold Hash.hashString in E. lia.
  - rewrite (includes_forallb is_hex_digit _ _ E Hhex) in Hnonhex.
    discriminate.
Qed.

(** The amended statement at the input "alice@example.org". *)
Lemma hash_deterministic_short_hex_witness :
  ((8 < length (lit "alice@example.org"))%nat \/
   forallb is_hex_digit (lit "alice@example.org") = false) /\
  includes (Hash.hashString (lit "alice@example.org"))
           (lit "alice@example.org") = false.
Proof.
  split.
  - left. vm_compute. lia.
  - apply (hash_deterministic_short_hex (lit "alice@example.org")).
    left. vm_compute. lia.
Defined.

(** The capture group of the URL pattern is never empty. *)
Lemma match_capture_nonempty (prefix s seg : jsstring) :
  match_capture prefix s = Some seg -> seg <> [].
Proof.
  induction s as [|c s IH]; cbn [match_capture]; [discriminate|].
  destruct (starts_with (c :: s) prefix); [|exact IH].
  destruct (take_segment (skipn (length prefix) (c :: s))) eqn:E; [exact IH|].
  intros [= <-]. discriminate.
Qed.

(** Whatever the URL pattern captures is what [getCurrentContactId]
    returns: the first branch returns the segment without hashing it. *)
Lemma getCurrentContactId_returns_url_segment (p : platform) (pg : Page)
    (seg : jsstring) :
  extractContactIdFromURL p pg = Some seg ->
  getCurrentContactId p pg = Some seg.
Proof.
  intro H. unfold getCurrentContactId. rewrite H.
  pose proof (match_capture_nonempty _ _ _ H) as Hne.
  destruct seg as [|c seg]; [congruence|]. reflexivity.
Qed.

(** C1, the code at the failing input: on a page whose URL carries the
    path segment "alice", each of the three adapters returns the raw
    segment "alice" from [getCurrentContactId] (its hash is "5899680"),
    and the same raw value is the [contactId] of the message and of the
    typing signal built on that page; without the URL segment the title
    is hashed. *)
Theorem url_segment_leaves_adapter_unhashed (p : platform) :
  getCurrentContactId p (alice_page p) = Some (lit "alice") /\
  Hash.hashString (lit "alice") = lit "5899680" /\
  option_map contactId
    (extractMessageData p (alice_page p) (Some (lit "hi")) None
       (lit "incoming") 1000) = Some (lit "alice") /\
  option_map t_contactId (detectTyping p (alice_page p) true 1000)
    = Some (Some (lit "alice")) /\
  getCurrentContactId p plain_page = Some (Hash.hashString (lit "Alice")).
Proof. destruct p; vm_compute; repeat split; reflexivity. Qed.

(** The detector's own fallback has the same unhashed first branch. *)
Lemma detector_fallback_returns_url_segment :
  MessageDetector.getCurrentContactId
    (MessageDetector.new None (lit "whatsapp")) (alice_page WhatsApp)
  = Some (lit "alice").
Proof. vm_compute. reflexivity. Qed.

End ContactIdentifiers.

(** ** Duplicate suppression in the feed observer (C3) *)

Section DuplicateSuppression.
Import MessageDetector Scenarios.

Variables (pg : Page) (now : Z).

Lemma checkForContactChange_queue (st : Detector) :
  messageQueue (checkForContactChange pg now st) = messageQueue st.
Proof.
  unfold checkForContactChange.
  destruct (getCurrentContactId st pg) as [cid|]; [|reflexivity].
  destruct (truthy_str cid && _); reflexivity.
Qed.

Lemma checkForContactChange_received (st : Detector) :
  receivedEvents (checkForContactChange pg now st) = receivedEvents st.
Proof.
  unfold checkForContactChange.
  destruct (getCurrentContactId st pg) as [cid|]; [|reflexivity].
  destruct (truthy_str cid && _); [|reflexivity].
  unfold receivedEvents, emit. cbn [emitted].
  rewrite flat_map_app. cbn. apply app_nil_r.
Qed.

(** The loop of [processMessageQueue] leaves the queue empty and emits
    no [messageReceived] event. *)
Lemma drain_empties (queue : list MessageData) : forall st,
  messageQueue st = queue ->
  messageQueue (drain pg now queue st) = [] /\
  receivedEvents (drain pg now queue st) = receivedEvents st.
Proof.
  induction queue as [|d rest IH]; intros st Hq; cbn [drain].
  - split; [exact Hq | reflexivity].
  - destruct (IH (processOne pg now d rest st)) as [H1 H2].
    + unfold processOne. rewrite checkForContactChange_queue. reflexivity.
    + split; [exact H1|]. rewrite H2. unfold processOne.
      rewrite checkForContactChange_received. reflexivity.
Qed.

(** With an empty queue nothing is ever a duplicate. *)
Lemma isDuplicateMessage_empty_queue (st : Detector) (d : MessageData) :
  messageQueue st = [] -> isDuplicateMessage st d = false.
Proof. intro H. unfold isDuplicateMessage. rewrite H. reflexivity. Qed.

Lemma truthy_str_nonempty (s : jsstring) : s <> [] -> truthy_str s = true.
Proof. destruct s; [congruence | reflexivity]. Qed.

(** Starting from an empty queue, a well-formed message is always
    emitted, and the queue is empty again afterwards. *)
Lemma handleNewMessage_always_emits (st : Detector) (d : MessageData) :
  messageQueue st = [] -> valid d ->
  messageQueue (handleNewMessage pg now d st) = [] /\
  receivedEvents (handleNewMessage pg now d st) = receivedEvents st ++ [d].
Proof.
  intros Hq (Hm & Hc & Hp). unfold handleNewMessage.
  rewrite !truthy_str_nonempty by assumption. cbn [negb orb].
  rewrite isDuplicateMessage_empty_queue by exact Hq.
  destruct (drain_empties (messageQueue (push d st)) (push d st) eq_refl)
    as [H1 H2].
  unfold processMessageQueue. split.
  - exact H1.
  - unfold receivedEvents at 1. unfold emit. cbn [emitted].
    rewrite flat_map_app. cbn [flat_map app].
    fold (receivedEvents (drain pg now (messageQueue (push d st)) (push d st))).
    rewrite H2. reflexivity.
Qed.

(** C3, the code at the failing input: two detections of the same text
    "hello" for the same contact, whatever their two timestamps (in
    particular 1000 ms apart), are both emitted as [messageReceived]:
    the queue the duplicate check scans has been drained before the
    second detection arrives, so nothing is suppressed. *)
Theorem duplicate_within_window_emitted_twice
    (adapter : option platform) (t1 t2 : Z) :
  let st1 := handleNewMessage pg now (hello_at t1)
               (MessageDetector.new adapter (lit "whatsapp")) in
  let st2 := handleNewMessage pg now (hello_at t2) st1 in
  messageQueue st1 = [] /\
  isDuplicateMessage st1 (hello_at t2) = false /\
  receivedEvents st2 = [hello_at t1; hello_at t2].
Proof.
  intros st1 st2.
  assert (V : forall t, valid (hello_at t)).
  { intro t. repeat split; discriminate. }
  destruct (handleNewMessage_always_emits
              (MessageDetector.new adapter (lit "whatsapp")) (hello_at t1)
              eq_refl (V t1)) as [Q1 R1].
  fold st1 in Q1, R1.
  destruct (handleNewMessage_always_emits st1 (hello_at t2) Q1 (V t2))
    as [_ R2].
  fold st2 in R2.
  split; [exact Q1|].
  split; [apply isDuplicateMessage_empty_queue; exact Q1|].
  rewrite R2, R1. reflexivity.
Qed.

End DuplicateSuppression.

(** ** The context window (C6) *)

Section ContextWindow.
Import ContentScript.

Lemma trim_to_last_bound {A} (n : nat) (arr : list A) :
  (length (trim_to_last n arr) <= n)%nat.
Proof.
  unfold trim_to_last.
  destruct (Z.of_nat n <? Z.of_nat (length arr)) eqn:E.
  - apply Z.ltb_lt in E. rewrite length_skipn. lia.
  - apply Z.ltb_ge in E. lia.
Qed.

(** Push-and-trim keeps the most recent [n] entries. *)
Lemma trim_to_last_recent {A} (n : nat) (arr : list A) :
  trim_to_last n arr = skipn (length arr - n) arr.
Proof.
  unfold trim_to_last.
  destruct (Z.of_nat n <? Z.of_nat (length arr)) eqn:E; [reflexivity|].
  apply Z.ltb_ge in E.
  replace (length arr - n)%nat with 0%nat by lia. reflexivity.
Qed.

(** Each of the two handlers leaves at most ten entries, whatever the
    state it starts from. *)
Lemma step_bound (st : Script) (op : Op) :
  (length (conversationContext (step st op)) <= 10)%nat.
Proof.
  destruct op as [data resolved | cid p resolved]; cbn.
  - apply trim_to_last_bound.
  - lia.
Qed.

Lemma run_bound (ops : list Op) : forall st,
  (length (conversationContext st) <= 10)%nat ->
  (length (conversationContext (run ops st)) <= 10)%nat.
Proof.
  unfold run.
  induction ops as [|op ops IH]; intros st H; cbn [fold_left]; [exact H|].
  apply IH, step_bound.
Qed.

(** C6: after every sequence of [handleMessageReceived] and
    [handleContactChanged] steps from the initial state the context holds
    at most 10 entries; a received message is appended and the window
    trimmed to its 10 most recent entries; a contact change replaces the
    context by the empty one, whatever it held. *)
Theorem context_window_bounded_and_reset (ops : list Op) :
  (length (conversationContext (run ops new)) <= 10)%nat /\
  (forall st data resolved,
      let pushed :=
        conversationContext st ++
        [{| c_type := lit "received";
            c_message := Adapter.message data;
            c_timestamp := Adapter.timestamp data;
            c_contactId := Adapter.contactId data |}] in
      conversationContext (handleMessageReceived data resolved st)
      = skipn (length pushed - 10) pushed) /\
  (forall st cid p resolved,
      conversationContext (handleContactChanged cid p resolved st) = []).
Proof.
  split; [apply run_bound; cbn; lia|].
  split.
  - intros st data resolved pushed. cbn [handleMessageReceived conversationContext].
    apply trim_to_last_recent.
  - reflexivity.
Qed.

End ContextWindow.

(** ** Late suggestion results (C4) *)

Section LateResults.
Import ContentScript Scenarios.

(** C4, counterexample: the request is issued for contact Y
    ("5899680"); the contact changes to X ("17e3b1"); the answer "Sure"
    then arrives and is put on display, under contact X: the state
    changes and the overlay shows the three variants of Y's answer. *)
Lemma late_result_for_previous_contact_is_shown :
  requestForY = Some theRequestForY /\
  r_contactId theRequestForY = lit "5899680" /\
  option_map contactId (currentContact afterSwitchToX) = Some (lit "17e3b1") /\
  let st := deliver theRequestForY (Some answerForY) 0 afterSwitchToX in
  st <> afterSwitchToX /\
  shownTexts afterSwitchToX = [] /\
  shownTexts st =
    [lit "Sure"; lit "Thanks for that! Sure"; lit "Sure What do you think?"] /\
  option_map UIOverlay.currentContact (uiOverlay st) = Some (Some contactX).
Proof.
  split; [vm_compute; reflexivity|].
  split; [reflexivity|].
  split; [vm_compute; reflexivity|].
  cbv zeta. vm_compute.
  split; [discriminate|]. repeat split; reflexivity.
Qed.

(** What the overlay holds after [showSuggestions] with a list that is
    not empty. *)
Lemma overlay_takes_suggestions (o : Overlay) (suggestions : list Suggestion)
    (contact : option Contact) :
  suggestions <> [] ->
  UIOverlay.isVisible (UIOverlay.showSuggestions suggestions contact o) = true /\
  UIOverlay.currentSuggestions (UIOverlay.showSuggestions suggestions contact o)
  = suggestions /\
  UIOverlay.currentContact (UIOverlay.showSuggestions suggestions contact o)
  = contact /\
  UIOverlay.pendingHides (UIOverlay.showSuggestions suggestions contact o)
  = UIOverlay.pendingHides o.
Proof.
  intro Hne. unfold UIOverlay.showSuggestions.
  destruct suggestions as [|s rest]; [congruence|].
  assert (E : (Z.of_nat (length (s :: rest)) =? 0) = false).
  { apply Z.eqb_neq. cbn [length]. lia. }
  rewrite E. unfold UIOverlay.show.
  destruct o as [v cs cc ph ah]. destruct v; cbn; repeat split; reflexivity.
Qed.

(** C4, amended: when a response arrives, no comparison is made between
    the contact the request was issued for and the contact active at
    delivery.  With an overlay present, every successful response is
    handed to the overlay as the three variants of its text: the overlay
    takes them in, attributed to the contact active at delivery time, and
    the outcome is the same whichever request the response belongs to.
    They are on display and stay so when no dismissal of the overlay is
    under way; when one is (the 200 ms after [hide]), its timeout wipes
    them.  An unsuccessful or absent response changes nothing, and neither
    does any response while there is no overlay. *)
Theorem late_result_shown_without_contact_check
    (st : Script) (req : Request) (r : Q) :
  (forall (o : Overlay) (rsp : Response),
      uiOverlay st = Some o ->
      success rsp = true ->
      let variants :=
        generateSuggestionOptions st r (response rsp) (r_message req) in
      let st' := deliver req (Some rsp) r st in
      map text variants
      = [response rsp; addPoliteDelay r (response rsp);
         makeEngaging st (response rsp)] /\
      (forall req', deliver req' (Some rsp) r st = st') /\
      exists o',
        uiOverlay st' = Some o' /\
        UIOverlay.isVisible o' = true /\
        UIOverlay.currentSuggestions o' = variants /\
        UIOverlay.currentContact o' = currentContact st /\
        UIOverlay.pendingHides o' = UIOverlay.pendingHides o /\
        (UIOverlay.pendingHides o = 0%nat ->
         shownTexts st' = map text variants /\
         overlayTimeoutElapsed st' = st') /\
        (UIOverlay.pendingHides o <> 0%nat ->
         shownTexts (overlayTimeoutElapsed st') = [] /\
         option_map UIOverlay.currentSuggestions
           (uiOverlay (overlayTimeoutElapsed st')) = Some [] /\
         option_map UIOverlay.isVisible
           (uiOverlay (overlayTimeoutElapsed st')) = Some false)) /\
  (forall rsp : Response,
      success rsp = false -> deliver req (Some rsp) r st = st) /\
  deliver req None r st = st /\
  (uiOverlay st = None -> forall resp, deliver req resp r st = st).
Proof.
  split; [|split; [|split]].
  - intros o rsp Ho Hs. cbv zeta.
    split; [reflexivity|]. split; [reflexivity|].
    unfold deliver. rewrite Hs. unfold showSuggestions. rewrite Ho.
    set (variants :=
           generateSuggestionOptions st r (response rsp) (r_message req)).
    assert (Hne : variants <> []) by discriminate.
    destruct (overlay_takes_suggestions o variants (currentContact st) Hne)
      as (V & S & C & Pn).
    exists (UIOverlay.showSuggestions variants (currentContact st) o).
    split; [reflexivity|]. split; [exact V|]. split; [exact S|].
    split; [exact C|]. split; [exact Pn|].
    unfold shownTexts, overlayTimeoutElapsed, UIOverlay.onDisplay,
      UIOverlay.hideTimeoutElapsed.
    cbn [uiOverlay option_map isEnabled currentContact conversationContext].
    rewrite Pn. split.
    + intro P0. rewrite P0, V, S. cbn [Nat.eqb andb]. split; reflexivity.
    + intro P1. destruct (UIOverlay.pendingHides o) as [|n]; [congruence|].
      cbn. repeat split; reflexivity.
  - intros rsp Hs. unfold deliver. rewrite Hs. reflexivity.
  - reflexivity.
  - intros Hn [rsp|]; [|reflexivity]. unfold deliver, showSuggestions.
    rewrite Hn. destruct (success rsp); reflexivity.
Qed.

(** The amended statement on the trace of the counterexample, on the same
    trace with a dismissal under way when the answer arrives, with an
    answer that reports a failure, and before the overlay exists. *)
Lemma late_result_shown_without_contact_check_witness :
  uiOverlay afterSwitchToX = Some UIOverlay.new /\
  uiOverlay afterDismissal = Some dismissedOverlay /\
  uiOverlay withoutOverlay = None /\
  success answerForY = true /\
  success failedAnswer = false /\
  UIOverlay.pendingHides (UIOverlay.new : Overlay) = 0%nat /\
  UIOverlay.pendingHides dismissedOverlay <> 0%nat /\
  shownTexts (deliver theRequestForY (Some answerForY) 0 afterSwitchToX)
  = [lit "Sure"; lit "Thanks for that! Sure"; lit "Sure What do you think?"] /\
  shownTexts
    (overlayTimeoutElapsed
       (deliver theRequestForY (Some answerForY) 0 afterDismissal)) = [] /\
  deliver theRequestForY (Some failedAnswer) 0 afterSwitchToX
  = afterSwitchToX /\
  deliver theRequestForY (Some answerForY) 0 withoutOverlay = withoutOverlay.
Proof.
  split; [reflexivity|]. split; [reflexivity|]. split; [reflexivity|].
  split; [reflexivity|]. split; [reflexivity|].
  split; [reflexivity|]. split; [discriminate|].
  split; [|split; [|split]].
  - destruct (proj1 (late_result_shown_without_contact_check
                       afterSwitchToX theRequestForY 0)
                UIOverlay.new answerForY eq_refl eq_refl)
      as (T & _ & o' & _ & _ & _ & _ & _ & Shown & _).
    cbv zeta in T, Shown.
    rewrite (proj1 (Shown eq_refl)). exact T.
  - destruct (proj1 (late_result_shown_without_contact_check
                       afterDismissal theRequestForY 0)
                dismissedOverlay answerForY eq_refl eq_refl)
      as (_ & _ & o' & _ & _ & _ & _ & _ & _ & Wiped).
    cbv zeta in Wiped.
    apply (proj1 (Wiped ltac:(discriminate))).
  - apply (proj1 (proj2 (late_result_shown_without_contact_check
                           afterSwitchToX theRequestForY 0))
             failedAnswer eq_refl).
  - apply (proj2 (proj2 (proj2 (late_result_shown_without_contact_check
                                  withoutOverlay theRequestForY 0)))
             eq_refl (Some answerForY)).
Defined.

End LateResults.

(** ** Suggestion variants (C8) *)

Section SuggestionVariants.
Import ContentScript Scenarios.

(** C8, counterexample: for the contact with formality 0.9 and emoji
    rate 0.8 and the base text "Sounds good", the engaging variant is
    "Sounds good What do you think? " followed by U+1F60A: the emoji is
    appended after the question, so the text does not end with "?". *)
Lemma engaging_variant_ends_with_emoji_not_question_mark :
  map text (generateSuggestionOptions withFormalEmojiContact 0
              (lit "Sounds good") (lit "hello"))
    = [lit "Sounds good";
       lit "Thanks for that! Sounds good";
       lit "Sounds good What do you think? " ++ smiling_face] /\
  ends_with (makeEngaging withFormalEmojiContact (lit "Sounds good"))
            (lit "?") = false.
Proof. split; vm_compute; reflexivity. Qed.

(** C8, amended: [generateSuggestionOptions] always produces exactly 3
    variants of one response, of kinds direct, polite and engaging, the
    direct one being the response unmodified; for the contact with
    formality 0.9 and emoji rate 0.8 and the base text "Sounds good", the
    engaging variant is the base text followed by " What do you think?"
    and then by a space and the emoji U+1F60A: it contains the question
    mark, includes the emoji and ends with the emoji. *)
Theorem three_variants_engaging_question_then_emoji
    (st : Script) (r : Q) (aiResponse originalMessage : jsstring) :
  length (generateSuggestionOptions st r aiResponse originalMessage) = 3%nat /\
  map s_type (generateSuggestionOptions st r aiResponse originalMessage)
    = [lit "direct"; lit "polite"; lit "engaging"] /\
  map text (generateSuggestionOptions st r aiResponse originalMessage)
    = [aiResponse; addPoliteDelay r aiResponse; makeEngaging st aiResponse] /\
  makeEngaging withFormalEmojiContact (lit "Sounds good")
    = lit "Sounds good" ++ lit " What do you think?" ++ lit " " ++ smiling_face /\
  includes (makeEngaging withFormalEmojiContact (lit "Sounds good"))
           (lit "?") = true /\
  includes (makeEngaging withFormalEmojiContact (lit "Sounds good"))
           smiling_face = true /\
  ends_with (makeEngaging withFormalEmojiContact (lit "Sounds good"))
            smiling_face = true.
Proof.
  split; [reflexivity|]. split; [reflexivity|]. split; [reflexivity|].
  repeat split; vm_compute; reflexivity.
Qed.

End SuggestionVariants.

(** ** The rate limiter (C2) *)

Section RateLimiter.
Import JSValue APIManager.

(** C2, the code on every input: whatever the state of the manager and
    the time of the call, the promise [checkRateLimit] returns is rejected
    with a TypeError: [requestCount] is the number 0 after the
    constructor, so [filter] is not a function of it; and were it an
    array, the first statement would overwrite it with a number, on which
    the spread in [Math.min] or the final [push] fails.  No call is ever
    delayed, and no call completes. *)
Theorem checkRateLimit_always_rejects (now : Z) (m : Manager) :
  snd (checkRateLimit now m) = Throw TypeError /\
  waits (fst (checkRateLimit now m)) = waits m /\
  checkRateLimit now APIManager.new = (APIManager.new, Throw TypeError).
Proof.
  split; [|split; [|reflexivity]].
  - unfold checkRateLimit.
    destruct (requestCount m) as [n|times]; cbn; [reflexivity|].
    destruct (maxRequestsPerMinute m <=? _); reflexivity.
  - unfold checkRateLimit.
    destruct (requestCount m) as [n|times]; cbn; [reflexivity|].
    destruct (maxRequestsPerMinute m <=? _); reflexivity.
Qed.

End RateLimiter.

(** ** Persisted conversation records (C10) *)

Section ConversationStore.
Import ServiceWorker.

(** C10: every [storeConversationData] call leaves at most 1000 records
    in storage, whatever was stored before; what it leaves is the
    previous array with the new record appended, cut down to its 1000
    most recent entries; the new record is the last one. *)
Theorem storeConversationData_keeps_last_1000
    (contactId platform message response : jsstring) (now : Z)
    (st : Storage) :
  let record :=
    {| contactId := contactId; platform := platform; message := message;
       response := response; timestamp := now; success := true |} in
  let appended := stored st ++ [record] in
  let st' := storeConversationData contactId platform message response now st in
  (length (stored st') <= 1000)%nat /\
  stored st' = skipn (length appended - 1000) appended /\
  last (stored st') record = record /\
  In record (stored st').
Proof.
  intros record appended st'.
  assert (E : stored st' = skipn (length appended - 1000) appended).
  { unfold st', storeConversationData, stored at 1. cbn [conversationData].
    fold record. fold appended.
    destruct (1000 <? Z.of_nat (length appended)) eqn:L; [reflexivity|].
    apply Z.ltb_ge in L.
    replace (length appended - 1000)%nat with 0%nat by lia. reflexivity. }
  assert (Hlen : length appended = S (length (stored st))).
  { unfold appended. rewrite length_app. cbn. lia. }
  assert (Hs : skipn (length appended - 1000) appended
              = skipn (length appended - 1000) (stored st) ++ [record]).
  { unfold appended at 2. rewrite skipn_app.
    replace (length appended - 1000 - length (stored st))%nat with 0%nat by lia.
    reflexivity. }
  split; [rewrite E, length_skipn; lia|].
  split; [exact E|].
  rewrite E, Hs. split; [apply last_last|].
  apply in_or_app. right. left. reflexivity.
Qed.

End ConversationStore.

(** ** The provider fallback chain (C5) *)

Section FallbackChain.
Import JSValue APIManager ContentScript.

(** With [0 <= r < 1] the index [Math.floor(Math.random() * arr.length)]
    falls inside a non-empty array. *)
Lemma random_pick_in_range {A} (r : Q) (arr : list A) :
  (0 <= r)%Q -> (r < 1)%Q -> arr <> [] ->
  exists x, random_pick r arr = Some x /\ In x arr.
Proof.
  intros H0 H1 Hne. unfold random_pick.
  assert (Hn : 1 <= Z.of_nat (length arr)).
  { destruct arr; [congruence | cbn [length]; lia]. }
  pose proof (random_index_in_range r (Z.of_nat (length arr)) H0 H1 Hn)
    as [Hlo Hhi].
  set (i := Qfloor (to_double
                      (double_below r * inject_Z (Z.of_nat (length arr)))))
    in *.
  destruct (i <? 0) eqn:E; [apply Z.ltb_lt in E; lia|].
  destruct (nth_error arr (Z.to_nat i)) as [x|] eqn:N.
  - exists x. split; [reflexivity|]. eapply nth_error_In; exact N.
  - apply nth_error_None in N. lia.
Qed.

(** Every bucket of the local matcher is a non-empty list of non-empty
    strings. *)
Lemma localBucket_nonempty (lowerMessage message : jsstring) :
  nonempty_strings (localBucket lowerMessage message).
Proof.
  unfold localBucket.
  repeat match goal with
         | |- context [if ?b then _ else _] => destruct b
         end;
    (split; [discriminate | repeat constructor; discriminate]).
Qed.

Variable toLowerCase : jsstring -> jsstring.

(** The local pattern matcher always yields a non-empty string. *)
Lemma generateLocalResponse_nonempty (r : Q) (data : RequestData) :
  (0 <= r)%Q -> (r < 1)%Q ->
  exists s, generateLocalResponse toLowerCase r data = Some s /\ s <> [].
Proof.
  intros H0 H1. unfold generateLocalResponse, getRandomResponse.
  destruct (localBucket_nonempty (toLowerCase (message data)) (message data))
    as [Hne Hall].
  destruct (random_pick_in_range r _ H0 H1 Hne) as (x & Hx & Hin).
  exists x. split; [exact Hx|].
  rewrite Forall_forall in Hall. apply Hall. exact Hin.
Qed.

Lemma truthy_response_nonempty (o : option jsstring) :
  truthy_response o = true -> exists s, o = Some s /\ s <> [].
Proof.
  destruct o as [[|c s]|]; cbn; try discriminate.
  intros _. exists (c :: s). split; [reflexivity | discriminate].
Qed.

(** Whatever the keys and whatever the two providers answer,
    [generateResponse] returns a non-empty string. *)
Lemma generateResponse_nonempty (apiKeys : option ApiKeys)
    (hf gm : FetchOutcome) (r : Q) (data : RequestData) :
  (0 <= r)%Q -> (r < 1)%Q ->
  exists s, generateResponse toLowerCase apiKeys hf gm r data = Some s /\ s <> [].
Proof.
  intros H0 H1.
  pose proof (generateLocalResponse_nonempty r data H0 H1) as L.
  unfold generateResponse, generateResponse_try.
  destruct (tryHuggingFace apiKeys hf) as [hfResponse|e]; cbn [bind];
    [|exact L].
  destruct (truthy_response hfResponse) eqn:T1;
    [apply truthy_response_nonempty; exact T1|].
  destruct (tryGoogleGemini apiKeys gm) as [geminiResponse|e]; cbn [bind];
    [|exact L].
  destruct (truthy_response geminiResponse) eqn:T2;
    [apply truthy_response_nonempty; exact T2 | exact L].
Qed.

(** C5: when the first provider answers with a status outside 200..299
    (such as 500) and the body of the second provider's answer is not
    valid JSON, [generateResponse] returns what the local pattern matcher
    returns, and that is a non-empty string for every message; more
    generally [generateResponse] returns a non-empty string whatever the
    keys and the providers' answers, so no request is left without a
    result.  [r] is the value [Math.random()] yields. *)
Theorem fallback_chain_ends_in_nonempty_local_result
    (apiKeys : option ApiKeys) (hfStatus gmStatus : Z) (hfBody : option jsval)
    (r : Q) (data : RequestData) :
  (0 <= r)%Q -> (r < 1)%Q ->
  status_ok hfStatus = false ->
  generateResponse toLowerCase apiKeys
    (HttpResponse hfStatus hfBody) (HttpResponse gmStatus None) r data
    = generateLocalResponse toLowerCase r data /\
  (exists s, generateLocalResponse toLowerCase r data = Some s /\ s <> []) /\
  (forall keys hf gm,
      exists s, generateResponse toLowerCase keys hf gm r data = Some s /\
                s <> []).
Proof.
  intros H0 H1 Hhf.
  split; [|split].
  - unfold generateResponse, generateResponse_try,
      tryHuggingFace, tryGoogleGemini, tryProvider.
    destruct apiKeys as [keys|]; [|reflexivity].
    rewrite Hhf.
    destruct (key_present (huggingface keys)); cbn;
      destruct (key_present (gemini keys)); cbn;
      destruct (status_ok gmStatus); reflexivity.
  - apply generateLocalResponse_nonempty; assumption.
  - intros keys hf gm. apply generateResponse_nonempty; assumption.
Qed.

End FallbackChain.

(** C5 at a concrete request: both keys set, the first provider answers
    500, the second 200 with a malformed body, [Math.random()] yields 1/2
    and the message is "Hello there". *)
Lemma fallback_chain_ends_in_nonempty_local_result_witness :
  (0 <= 1 # 2)%Q /\ (1 # 2 < 1)%Q /\ APIManager.status_ok 500 = false /\
  APIManager.generateResponse APIManager.ascii_toLowerCase
    (Some {| APIManager.huggingface := Some (lit "hf_key");
             APIManager.gemini := Some (lit "g_key") |})
    (APIManager.HttpResponse 500 None) (APIManager.HttpResponse 200 None)
    (1 # 2)
    {| APIManager.message := lit "Hello there"; APIManager.context := [];
       APIManager.contactStyle := None |}
  = Some (lit "Hi! How are you?").
Proof.
  assert (H0 : (0 <= 1 # 2)%Q) by (vm_compute; discriminate).
  assert (H1 : (1 # 2 < 1)%Q) by reflexivity.
  assert (H5 : APIManager.status_ok 500 = false) by reflexivity.
  split; [exact H0|]. split; [exact H1|]. split; [exact H5|].
  rewrite (proj1 (fallback_chain_ends_in_nonempty_local_result
                    APIManager.ascii_toLowerCase _ 500 200 None (1 # 2) _
                    H0 H1 H5)).
  vm_compute. reflexivity.
Defined.

(** ** Encryption of persisted state (C7) *)

Section EncryptionRoundTrip.
Import JSValue PrivacyManager.

Lemma byte_of_Z_of_byte (b : byte) : byte_of_Z (Z_of_byte b) = b.
Proof.
  unfold byte_of_Z, Z_of_byte.
  pose proof (Byte.to_N_bounded b) as Hb.
  rewrite Z.mod_small by lia.
  rewrite N2Z.id, Byte.of_to_N. reflexivity.
Qed.

Variable cryptoAvailable : bool.
Variables subtle_encrypt subtle_decrypt
  : list byte -> list byte -> list byte -> completion (list byte).
Variable JSON_stringify : jsval -> completion (option jsstring).
Variable JSON_parse : jsstring -> completion jsval.
Variable utf8_encode : jsstring -> list byte.
Variable utf8_decode : list byte -> jsstring.
Variable ToUint8_other : jsval -> byte.

(** [new Uint8Array(Array.from(bytes))] gives the bytes back. *)
Lemma uint8array_of_array_from (bytes : list byte) :
  match array_from bytes with
  | JArr elems => uint8array_of ToUint8_other elems = bytes
  | _ => False
  end.
Proof.
  unfold array_from, uint8array_of. rewrite map_map.
  rewrite <- (map_id bytes) at 2. apply map_ext. intro b.
  cbn [ToUint8]. unfold truncate. cbn [inject_Z Qnum Qden].
  rewrite Z.quot_1_r. apply byte_of_Z_of_byte.
Qed.

(** C7: with the crypto primitive present, a key it can use, and a record
    [R] that survives JSON serialization, [encryptData] returns the
    12-byte nonce followed by the ciphertext of the serialized record, and
    [decryptData] strips the nonce, decrypts the rest and returns [R]. *)
Theorem encrypt_decrypt_round_trip
    (m : Manager) (key iv : list byte) (R : jsval) :
  cryptoAvailable = true ->
  encryptionKey m = Some key ->
  key_usable subtle_encrypt subtle_decrypt key ->
  serializable JSON_stringify JSON_parse utf8_encode utf8_decode R ->
  length iv = 12%nat ->
  (exists s ct,
      JSON_stringify R = Normal (Some s) /\
      subtle_encrypt key iv (utf8_encode s) = Normal ct /\
      encryptData cryptoAvailable subtle_encrypt JSON_stringify utf8_encode
        m iv R = array_from (iv ++ ct)) /\
  decryptData cryptoAvailable subtle_decrypt JSON_parse utf8_decode
    ToUint8_other m
    (encryptData cryptoAvailable subtle_encrypt JSON_stringify utf8_encode
       m iv R) = R.
Proof.
  intros Hc Hk [Henc Hdec] (s & Hs & Hp) Hiv.
  destruct (Henc iv (utf8_encode s)) as [ct Hct].
  assert (E : encryptData cryptoAvailable subtle_encrypt JSON_stringify
                utf8_encode m iv R = array_from (iv ++ ct)).
  { unfold encryptData, encryptData_try.
    rewrite Hc, Hk, Hs. cbn [bind]. rewrite Hct. reflexivity. }
  split; [exists s, ct; auto|].
  rewrite E. unfold decryptData. rewrite Hc, Hk.
  pose proof (uint8array_of_array_from (iv ++ ct)) as U.
  destruct (array_from (iv ++ ct)) as [| | | | |elems|] eqn:A; try contradiction.
  unfold decryptData_try. rewrite U.
  rewrite firstn_app, skipn_app, Hiv.
  replace (12 - 12)%nat with 0%nat by reflexivity.
  rewrite <- Hiv at 1. rewrite firstn_all.
  rewrite <- Hiv at 1. rewrite skipn_all.
  cbn [firstn skipn app]. rewrite app_nil_r.
  rewrite (Hdec iv (utf8_encode s) ct Hct). cbn [bind].
  rewrite Hp. reflexivity.
Qed.

End EncryptionRoundTrip.

(** C7 run on stand-ins for the host's primitives and the record [null]. *)
Lemma encrypt_decrypt_round_trip_witness :
  PrivacyManager.key_usable Scenarios.toy_encrypt Scenarios.toy_decrypt
    Scenarios.toy_key /\
  PrivacyManager.serializable Scenarios.toy_stringify Scenarios.toy_parse
    Scenarios.toy_encode Scenarios.toy_decode JSValue.JNull /\
  length Scenarios.toy_iv = 12%nat /\
  PrivacyManager.decryptData true Scenarios.toy_decrypt Scenarios.toy_parse
    Scenarios.toy_decode (fun _ => Byte.x00) Scenarios.toy_manager
    (PrivacyManager.encryptData true Scenarios.toy_encrypt
       Scenarios.toy_stringify Scenarios.toy_encode Scenarios.toy_manager
       Scenarios.toy_iv JSValue.JNull)
  = JSValue.JNull.
Proof.
  assert (K : PrivacyManager.key_usable Scenarios.toy_encrypt
                Scenarios.toy_decrypt Scenarios.toy_key).
  { split.
    - intros iv pt. eexists. reflexivity.
    - intros iv pt ct. unfold Scenarios.toy_encrypt, Scenarios.toy_decrypt.
      intros [= <-]. rewrite rev_app_distr. cbn [rev app].
      rewrite rev_involutive, map_map. f_equal.
      rewrite <- (map_id pt) at 2. apply map_ext. intro b.
      destruct b; vm_compute; reflexivity. }
  assert (S : PrivacyManager.serializable Scenarios.toy_stringify
                Scenarios.toy_parse Scenarios.toy_encode Scenarios.toy_decode
                JSValue.JNull).
  { exists (lit "null"). split; vm_compute; reflexivity. }
  split; [exact K|]. split; [exact S|]. split; [reflexivity|].
  exact (proj2 (encrypt_decrypt_round_trip true Scenarios.toy_encrypt
                  Scenarios.toy_decrypt Scenarios.toy_stringify
                  Scenarios.toy_parse Scenarios.toy_encode Scenarios.toy_decode
                  (fun _ => Byte.x00) Scenarios.toy_manager Scenarios.toy_key
                  Scenarios.toy_iv JSValue.JNull eq_refl eq_refl K S eq_refl)).
Defined.

(* ================================================================== *)
(** * Further properties of the code around the claims *)
(* ================================================================== *)

(** ** The event emitter *)

Section EventEmitterFacts.
Import JSValue EventEmitter.

Lemma jsstring_eqb_eq (a b : jsstring) : jsstring_eqb a b = true <-> a = b.
Proof.
  unfold jsstring_eqb. destruct (list_eq_dec Z.eq_dec a b); split; congruence.
Qed.

Lemma jsstring_eqb_refl (a : jsstring) : jsstring_eqb a a = true.
Proof. apply jsstring_eqb_eq. reflexivity. Qed.

Lemma callback_eqb_eq (a b : callback) : callback_eqb a b = true <-> a = b.
Proof.
  destruct a as [i|s i], b as [j|t j]; cbn; split; intro H;
    try discriminate.
  - apply Nat.eqb_eq in H. congruence.
  - injection H as ->. apply Nat.eqb_refl.
  - apply andb_true_iff in H. destruct H as [H1 H2].
    apply Nat.eqb_eq in H1, H2. congruence.
  - injection H as -> ->. rewrite !Nat.eqb_refl. reflexivity.
Qed.

Lemma own_assign (evs : list (jsstring * list callback)) (e : jsstring)
    (l0 l : list callback) :
  own evs e = Some l0 -> own (assign evs e l) e = Some l.
Proof.
  induction evs as [|[k l1] rest IH]; cbn; [discriminate|].
  destruct (jsstring_eqb k e) eqn:E; cbn; rewrite E; [reflexivity | exact IH].
Qed.

Lemma own_assign_other (evs : list (jsstring * list callback))
    (e e' : jsstring) (l : list callback) :
  e' <> e -> own (assign evs e l) e' = own evs e'.
Proof.
  intro Hne. induction evs as [|[k l1] rest IH]; cbn; [reflexivity|].
  destruct (jsstring_eqb k e) eqn:E; cbn.
  - apply jsstring_eqb_eq in E. subst k.
    destruct (jsstring_eqb e e') eqn:E'; [|reflexivity].
    apply jsstring_eqb_eq in E'. congruence.
  - destruct (jsstring_eqb k e'); [reflexivity | exact IH].
Qed.

Lemma own_delete_other (evs : list (jsstring * list callback))
    (e e' : jsstring) :
  e' <> e -> own (delete evs e) e' = own evs e'.
Proof.
  intro Hne. induction evs as [|[k l1] rest IH]; cbn; [reflexivity|].
  destruct (jsstring_eqb k e) eqn:E; cbn.
  - apply jsstring_eqb_eq in E. subst k.
    destruct (jsstring_eqb e e') eqn:E'; [|reflexivity].
    apply jsstring_eqb_eq in E'. congruence.
  - destruct (jsstring_eqb k e'); [reflexivity | exact IH].
Qed.

Lemma own_app_new (evs : list (jsstring * list callback)) (e : jsstring)
    (l : list callback) :
  own evs e = None -> own (evs ++ [(e, l)]) e = Some l.
Proof.
  induction evs as [|[k l1] rest IH]; cbn.
  - rewrite jsstring_eqb_refl. reflexivity.
  - destruct (jsstring_eqb k e); [discriminate | exact IH].
Qed.

Lemma delete_app_new (evs : list (jsstring * list callback)) (e : jsstring)
    (l : list callback) :
  own evs e = None -> delete (evs ++ [(e, l)]) e = evs.
Proof.
  induction evs as [|[k l1] rest IH]; cbn.
  - rewrite jsstring_eqb_refl. reflexivity.
  - destruct (jsstring_eqb k e); [discriminate|].
    intro H. rewrite (IH H). reflexivity.
Qed.

Lemma assign_assign (evs : list (jsstring * list callback)) (e : jsstring)
    (l1 l2 : list callback) :
  assign (assign evs e l1) e l2 = assign evs e l2.
Proof.
  induction evs as [|[k l0] rest IH]; cbn; [reflexivity|].
  destruct (jsstring_eqb k e) eqn:E; cbn; rewrite E; [reflexivity|].
  rewrite IH. reflexivity.
Qed.

Lemma assign_same (evs : list (jsstring * list callback)) (e : jsstring)
    (l : list callback) :
  own evs e = Some l -> assign evs e l = evs.
Proof.
  induction evs as [|[k l0] rest IH]; cbn; [reflexivity|].
  destruct (jsstring_eqb k e) eqn:E.
  - intros [= ->]. reflexivity.
  - intro H. rewrite (IH H). reflexivity.
Qed.

Lemma Forall_assign (evs : list (jsstring * list callback)) (e : jsstring)
    (l : list callback) :
  l <> [] -> Forall (fun kv => snd kv <> []) evs ->
  Forall (fun kv => snd kv <> []) (assign evs e l).
Proof.
  intros Hl. induction 1 as [|[k l0] rest Hk Hrest IH]; cbn; [constructor|].
  destruct (jsstring_eqb k e); constructor; assumption.
Qed.

Lemma Forall_delete (evs : list (jsstring * list callback)) (e : jsstring) :
  Forall (fun kv => snd kv <> []) evs ->
  Forall (fun kv => snd kv <> []) (delete evs e).
Proof.
  induction 1 as [|[k l0] rest Hk Hrest IH]; cbn; [constructor|].
  destruct (jsstring_eqb k e); [assumption | constructor; assumption].
Qed.

Lemma remove_first_app_last (cb : callback) (l : list callback) :
  ~ In cb l -> remove_first cb (l ++ [cb]) = l.
Proof.
  induction l as [|x l IH]; cbn; intro Hn.
  - destruct (callback_eqb cb cb) eqn:E; [reflexivity|].
    assert (callback_eqb cb cb = true) by (apply callback_eqb_eq; reflexivity).
    congruence.
  - destruct (callback_eqb x cb) eqn:E.
    + apply callback_eqb_eq in E. subst x. exfalso. apply Hn. left. reflexivity.
    + rewrite IH; [reflexivity|]. intro H. apply Hn. right. exact H.
Qed.

Lemma remove_first_length_in (cb : callback) (l : list callback) :
  In cb l -> S (length (remove_first cb l)) = length l.
Proof.
  induction l as [|x l IH]; cbn; [contradiction|].
  destruct (callback_eqb x cb) eqn:E; [reflexivity|].
  intros [H|H].
  - subst x. assert (callback_eqb cb cb = true) by (apply callback_eqb_eq; reflexivity).
    congruence.
  - cbn. rewrite (IH H). reflexivity.
Qed.

Lemma remove_first_notin (cb : callback) (l : list callback) :
  ~ In cb l -> remove_first cb l = l.
Proof.
  induction l as [|x l IH]; cbn; intro Hn; [reflexivity|].
  destruct (callback_eqb x cb) eqn:E.
  - apply callback_eqb_eq in E. subst x. exfalso. apply Hn. left. reflexivity.
  - rewrite IH; [reflexivity|]. intro H. apply Hn. right. exact H.
Qed.

(** Each operation keeps the emitter free of empty listener arrays. *)
Lemma on_no_empty_array (e : jsstring) (cb : callback) (em em' : Emitter) :
  no_empty_array em -> on e cb em = Normal em' -> no_empty_array em'.
Proof.
  unfold no_empty_array, on. destruct (events em) as [evs|]; [|discriminate].
  intro H. unfold get. destruct (own evs e) as [l|].
  - intros [= <-]. cbn. apply Forall_assign; [|exact H].
    destruct l; discriminate.
  - destruct (inherited e); [discriminate|]. intros [= <-]. cbn.
    apply Forall_app. split; [exact H|]. repeat constructor. discriminate.
Qed.

Lemma off_no_empty_array (e : jsstring) (cb : callback) (em em' : Emitter) :
  no_empty_array em -> off e cb em = Normal em' -> no_empty_array em'.
Proof.
  unfold no_empty_array at 1, off.
  destruct (events em) as [evs|] eqn:Ev; [|discriminate].
  intro H. unfold get. destruct (own evs e) as [l|].
  - destruct (Z.of_nat (length (remove_first cb l)) =? 0) eqn:E;
      intros [= <-]; unfold no_empty_array; cbn.
    + apply Forall_delete. exact H.
    + apply Forall_assign; [|exact H].
      destruct (remove_first cb l); [discriminate E | discriminate].
  - destruct (inherited e); [discriminate|]. intros [= <-].
    unfold no_empty_array. rewrite Ev. exact H.
Qed.

Lemma call_no_empty_array (throws : nat -> bool) (e : jsstring)
    (st : Emitter * list nat) (cb : callback) :
  no_empty_array (fst st) -> no_empty_array (fst (call throws e st cb)).
Proof.
  destruct st as [em called]. cbn [fst]. intro H. unfold call.
  destruct cb as [id|s inner]; [exact H|].
  destruct (throws inner); [exact H|].
  destruct (off e (OnceCallback s inner) em) as [em'|err] eqn:O; [|exact H].
  cbn [fst]. eapply off_no_empty_array; eassumption.
Qed.

Lemma step_no_empty_array (em : Emitter) (op : Op) :
  no_empty_array em -> no_empty_array (step em op).
Proof.
  intro H. unfold step.
  destruct op as [e cb | e cb | e cb | throws e | e].
  - destruct (on e (Callback cb) em) eqn:O; [|exact H].
    eapply on_no_empty_array; eassumption.
  - destruct (off e (Callback cb) em) eqn:O; [|exact H].
    eapply off_no_empty_array; eassumption.
  - unfold once.
    destruct (on e _ _) eqn:O; [|exact H].
    eapply on_no_empty_array; [|exact O]. exact H.
  - unfold emit. destruct (events em) as [evs|] eqn:Ev; [|exact H].
    destruct (get evs e) as [l| |]; cbn [bind fst]; try exact H.
    assert (G : forall cbs st, no_empty_array (fst st) ->
                no_empty_array (fst (fold_left (call throws e) cbs st))).
    { induction cbs as [|c cbs IH]; intros st Hst; cbn [fold_left]; [exact Hst|].
      apply IH, call_no_empty_array, Hst. }
    apply G. exact H.
  - unfold removeAllListeners.
    destruct e as [[|c name]|]; try (cbn; constructor).
    destruct (events em) as [evs|] eqn:Ev; [|exact H].
    unfold no_empty_array in *. rewrite Ev in H. cbn. apply Forall_delete, H.
Qed.

(** Whatever is subscribed, unsubscribed, emitted or removed, starting
    from a new emitter, an event either has no entry or has at least one
    listener: [hasListeners] holds exactly for the events with an entry. *)
Theorem emitter_never_keeps_empty_event (ops : list Op) (e : jsstring) :
  inherited e = false ->
  no_empty_array (run ops EventEmitter.new) /\
  exists evs,
    events (run ops EventEmitter.new) = Some evs /\
    hasListeners e (run ops EventEmitter.new)
    = Normal (match own evs e with Some _ => true | None => false end).
Proof.
  intro Hi.
  assert (Inv : forall ops em, no_empty_array em -> events em <> None ->
                no_empty_array (run ops em) /\ events (run ops em) <> None).
  { clear. induction ops as [|op ops IH]; intros em H Hev; cbn; [tauto|].
    apply IH; [apply step_no_empty_array, H|].
    unfold step.
    destruct op as [e cb | e cb | e cb | throws e | e].
    - destruct (on e (Callback cb) em) eqn:O; [|exact Hev].
      unfold on in O. destruct (events em); [|discriminate].
      destruct (get l e); inversion O; discriminate.
    - destruct (off e (Callback cb) em) eqn:O; [|exact Hev].
      unfold off in O. destruct (events em) eqn:Ev; [|discriminate].
      destruct (get l e); [destruct (_ =? 0)| |]; inversion O; subst;
        try discriminate. rewrite Ev. discriminate.
    - unfold once, on. cbn [events].
      destruct (events em) eqn:Ev; [|congruence].
      destruct (get l e); cbn; try discriminate. rewrite Ev. discriminate.
    - unfold emit. destruct (events em) as [evs|] eqn:Ev; [|congruence].
      destruct (get evs e) as [l| |]; cbn [bind fst]; try congruence.
      assert (G : forall cbs st, events (fst st) <> None ->
                  events (fst (fold_left (call throws e) cbs st)) <> None).
      { induction cbs as [|c cbs IHc]; intros st Hst; cbn [fold_left]; [exact Hst|].
        apply IHc. destruct st as [em0 called]. unfold call.
        destruct c as [id|s inner]; [exact Hst|].
        destruct (throws inner); [exact Hst|].
        destruct (off e (OnceCallback s inner) em0) eqn:O; [|exact Hst].
        cbn [fst] in *. unfold off in O.
        destruct (events em0) eqn:Ev0; [|discriminate].
        destruct (get l0 e); [destruct (_ =? 0)| |]; inversion O; subst;
          try discriminate. rewrite Ev0. discriminate. }
      apply G. cbn. congruence.
    - unfold removeAllListeners.
      destruct e as [[|c name]|]; try discriminate.
      destruct (events em) eqn:Ev; [discriminate | congruence]. }
  destruct (Inv ops EventEmitter.new) as [H1 H2];
    [cbn; constructor | discriminate |].
  split; [exact H1|].
  destruct (events (run ops EventEmitter.new)) as [evs|] eqn:Ev; [|congruence].
  exists evs. split; [reflexivity|].
  unfold hasListeners, listenerCount. rewrite Ev. unfold get.
  unfold no_empty_array in H1. rewrite Ev in H1.
  destruct (own evs e) as [l|] eqn:O; cbn [bind].
  - assert (l <> []).
    { clear - H1 O. induction H1 as [|[k l1] rest Hk Hrest IH]; cbn in O;
        [discriminate|].
      destruct (jsstring_eqb k e); [injection O as <-; exact Hk | exact (IH O)]. }
    destruct l; [congruence|]. reflexivity.
  - rewrite Hi. reflexivity.
Qed.

(** Subscribing a function and unsubscribing it again leaves the number
    of listeners of every event as it was; when the function was not
    subscribed to the event before, the emitter is exactly as before. *)
Theorem on_then_off_round_trip
    (em : Emitter) (evs : list (jsstring * list callback))
    (e : jsstring) (cb : callback) :
  events em = Some evs ->
  no_empty_array em ->
  inherited e = false ->
  exists em1 em2,
    on e cb em = Normal em1 /\
    off e cb em1 = Normal em2 /\
    listenerCount e em1
      = Normal (Some (Z.of_nat (length (listeners e em)) + 1)) /\
    (forall e', listenerCount e' em2 = listenerCount e' em) /\
    (~ In cb (listeners e em) -> em2 = em).
Proof.
  intros Ev Hne Hi. unfold on, off, listeners. rewrite Ev. unfold get.
  rewrite Hi. unfold no_empty_array in Hne. rewrite Ev in Hne.
  destruct em as [evs0 n]. cbn in Ev. subst evs0.
  destruct (own evs e) as [l|] eqn:O.
  - eexists. eexists. split; [reflexivity|].
    unfold with_events. cbn [events closures].
    rewrite (own_assign _ _ _ (l ++ [cb]) O).
    assert (Hl : l <> []).
    { clear - Hne O. induction Hne as [|[k l1] rest Hk Hrest IH]; cbn in O;
        [discriminate|].
      destruct (jsstring_eqb k e); [injection O as <-; exact Hk | exact (IH O)]. }
    assert (Hlen : S (length (remove_first cb (l ++ [cb]))) = length (l ++ [cb])).
    { apply remove_first_length_in. apply in_or_app. right. left. reflexivity. }
    rewrite length_app in Hlen. cbn [length] in Hlen.
    destruct (Z.of_nat (length (remove_first cb (l ++ [cb]))) =? 0) eqn:Z0.
    { apply Z.eqb_eq in Z0. destruct l; [congruence | cbn [length] in Hlen; lia]. }
    split; [reflexivity|]. rewrite assign_assign.
    split; [|split].
    + unfold listenerCount. cbn [events]. unfold get.
      rewrite (own_assign _ _ _ (l ++ [cb]) O).
      rewrite length_app. cbn [length]. do 2 f_equal. lia.
    + intro e'. unfold listenerCount. cbn [events]. unfold get.
      destruct (list_eq_dec Z.eq_dec e' e) as [->|Hd].
      * rewrite (own_assign _ _ _ _ O), O. do 3 f_equal. lia.
      * rewrite own_assign_other by exact Hd. reflexivity.
    + intro Hn. rewrite remove_first_app_last by exact Hn.
      rewrite assign_same by exact O. reflexivity.
  - eexists. eexists. split; [reflexivity|].
    unfold with_events. cbn [events closures].
    rewrite (own_app_new _ _ [cb] O).
    assert (R : remove_first cb [cb] = []).
    { cbn. destruct (callback_eqb cb cb) eqn:E; [reflexivity|].
      assert (callback_eqb cb cb = true) by (apply callback_eqb_eq; reflexivity).
      congruence. }
    rewrite R. cbn [length Z.of_nat Z.eqb]. rewrite delete_app_new by exact O.
    split; [reflexivity|]. split; [|split].
    + unfold listenerCount. cbn [events]. unfold get.
      rewrite (own_app_new _ _ [cb] O). reflexivity.
    + intro e'. reflexivity.
    + intros _. reflexivity.
Qed.

Lemma emit_called_aux (throws : nat -> bool) (e : jsstring)
    (cbs : list callback) : forall st,
  snd (fold_left (call throws e) cbs st)
  = snd st ++ map function_of cbs.
Proof.
  induction cbs as [|c cbs IH]; intros [em called]; cbn [fold_left map].
  - cbn. rewrite app_nil_r. reflexivity.
  - rewrite IH. unfold call.
    destruct c as [id|s inner]; cbn [snd].
    + rewrite <- app_assoc. reflexivity.
    + destruct (throws inner); cbn [snd]; [rewrite <- app_assoc; reflexivity|].
      destruct (off e (OnceCallback s inner) em); cbn [snd];
        rewrite <- app_assoc; reflexivity.
Qed.

(** [emit] calls every listener registered for the event when it starts,
    once each and in the order of registration, whether or not some of
    them throw or unsubscribe on the way. *)
Theorem emit_calls_all_in_order
    (throws : nat -> bool) (em : Emitter)
    (evs : list (jsstring * list callback)) (e : jsstring)
    (l : list callback) :
  events em = Some evs ->
  own evs e = Some l ->
  exists em',
    emit throws e em
    = Normal (em', map function_of l).
Proof.
  intros Ev O. unfold emit. rewrite Ev. unfold get. rewrite O.
  exists (fst (fold_left (call throws e) l (em, []))).
  pose proof (emit_called_aux throws e l (em, [])) as H. cbn [snd app] in H.
  rewrite <- H.
  destruct (fold_left (call throws e) l (em, [])). reflexivity.
Qed.

Lemma fold_call_plain (throws : nat -> bool) (e : jsstring)
    (l : list callback) : forall em called,
  forallb plain l = true ->
  fold_left (call throws e) l (em, called)
  = (em, called ++ map function_of l).
Proof.
  induction l as [|c l IH]; intros em called H; cbn [fold_left map].
  - rewrite app_nil_r. reflexivity.
  - cbn [forallb] in H. apply andb_true_iff in H. destruct H as [Hc Hl].
    destruct c as [id|s inner]; [|discriminate].
    cbn [call]. rewrite IH by exact Hl. rewrite <- app_assoc. reflexivity.
Qed.

Lemma own_nonempty (evs : list (jsstring * list callback)) (e : jsstring)
    (l : list callback) :
  Forall (fun kv => snd kv <> []) evs -> own evs e = Some l -> l <> [].
Proof.
  induction 1 as [|[k l1] rest Hk Hrest IH]; cbn; [discriminate|].
  destruct (jsstring_eqb k e); [intros [= <-]; exact Hk | exact IH].
Qed.

Lemma plain_not_once (l : list callback) (s inner : nat) :
  forallb plain l = true -> ~ In (OnceCallback s inner) l.
Proof.
  intros H Hin. rewrite forallb_forall in H. specialize (H _ Hin). discriminate.
Qed.

(** [once] on an event whose other listeners were all subscribed with
    [on]: after the next [emit] the events are those before [once] when the
    function returns, and the [emit] changes nothing when it throws. *)
Lemma once_among_plain
    (throws : nat -> bool) (em : Emitter)
    (evs : list (jsstring * list callback)) (e : jsstring) (cb : nat) :
  events em = Some evs ->
  no_empty_array em ->
  inherited e = false ->
  forallb plain (listeners e em) = true ->
  exists em1 em2,
    once e cb em = Normal em1 /\
    emit throws e em1
    = Normal (em2, map function_of (listeners e em) ++ [cb]) /\
    (throws cb = false -> events em2 = events em) /\
    (throws cb = true -> em2 = em1).
Proof.
  intros Ev Hne Hi Hp. unfold once, on. cbn [events]. rewrite Ev.
  unfold listeners in *. rewrite Ev in Hp |- *. unfold get. rewrite Hi.
  unfold no_empty_array in Hne. rewrite Ev in Hne.
  assert (R : forall W, remove_first W [W] = []).
  { intro W. cbn. destruct (callback_eqb W W) eqn:E; [reflexivity|].
    assert (callback_eqb W W = true) by (apply callback_eqb_eq; reflexivity).
    congruence. }
  destruct (own evs e) as [l|] eqn:O; destruct (throws cb) eqn:T;
    eexists; eexists; (split; [reflexivity|]);
    unfold emit, with_events; cbn [events closures]; unfold get.
  - rewrite (own_assign _ _ _ (l ++ [OnceCallback (closures em) cb]) O).
    rewrite fold_left_app, fold_call_plain by exact Hp.
    cbn [fold_left app call]. rewrite T.
    split; [reflexivity|]. split; [discriminate | reflexivity].
  - pose proof (own_nonempty _ _ _ Hne O) as Hl.
    rewrite (own_assign _ _ _ (l ++ [OnceCallback (closures em) cb]) O).
    rewrite fold_left_app, fold_call_plain by exact Hp.
    cbn [fold_left app call]. rewrite T.
    unfold off. cbn [events]. unfold get.
    rewrite (own_assign _ _ _ (l ++ [OnceCallback (closures em) cb]) O).
    rewrite remove_first_app_last by (apply plain_not_once; exact Hp).
    destruct (Z.of_nat (length l) =? 0) eqn:Z0.
    { apply Z.eqb_eq in Z0. destruct l; [congruence | cbn in Z0; lia]. }
    split; [reflexivity|]. split; [|discriminate].
    intros _. unfold with_events. cbn [events].
    rewrite assign_assign, assign_same by exact O. reflexivity.
  - rewrite (own_app_new _ _ [OnceCallback (closures em) cb] O).
    cbn [fold_left app call map]. rewrite T.
    split; [reflexivity|]. split; [discriminate | reflexivity].
  - rewrite (own_app_new _ _ [OnceCallback (closures em) cb] O).
    cbn [fold_left app call map]. rewrite T.
    unfold off. cbn [events]. unfold get.
    rewrite (own_app_new _ _ [OnceCallback (closures em) cb] O).
    rewrite R. cbn [length Z.of_nat Z.eqb].
    split; [reflexivity|]. split; [|discriminate].
    intros _. unfold with_events. cbn [events].
    rewrite delete_app_new by exact O. reflexivity.
Qed.

Lemma own_absent (evs : list (jsstring * list callback)) (e : jsstring) :
  own evs e = None <-> ~ In e (map fst evs).
Proof.
  induction evs as [|[k l] rest IH]; cbn; [tauto|].
  destruct (jsstring_eqb k e) eqn:E.
  - apply jsstring_eqb_eq in E. split; [discriminate | tauto].
  - rewrite IH. split; [|tauto]. intros Hn [Hk|Hin]; [|tauto].
    subst k. rewrite jsstring_eqb_refl in E. discriminate.
Qed.

Lemma keys_assign (evs : list (jsstring * list callback)) (e : jsstring)
    (l : list callback) :
  map fst (assign evs e l) = map fst evs.
Proof.
  induction evs as [|[k l0] rest IH]; cbn; [reflexivity|].
  destruct (jsstring_eqb k e); cbn; [reflexivity | rewrite IH; reflexivity].
Qed.

Lemma keys_delete_in (evs : list (jsstring * list callback))
    (e k : jsstring) :
  In k (map fst (delete evs e)) -> In k (map fst evs).
Proof.
  induction evs as [|[k0 l0] rest IH]; cbn; [tauto|].
  destruct (jsstring_eqb k0 e); cbn; tauto.
Qed.

Lemma keys_delete (evs : list (jsstring * list callback)) (e : jsstring) :
  NoDup (map fst evs) -> NoDup (map fst (delete evs e)).
Proof.
  induction evs as [|[k0 l0] rest IH]; cbn; intro H; [constructor|].
  inversion H as [|? ? Hn Hr]; subst.
  destruct (jsstring_eqb k0 e); cbn; [exact Hr|].
  constructor; [|apply IH, Hr]. intro Hin. apply Hn.
  eapply keys_delete_in. exact Hin.
Qed.

Lemma own_delete_same (evs : list (jsstring * list callback)) (e : jsstring) :
  NoDup (map fst evs) -> own (delete evs e) e = None.
Proof.
  induction evs as [|[k0 l0] rest IH]; cbn; intro H; [reflexivity|].
  inversion H as [|? ? Hn Hr]; subst.
  destruct (jsstring_eqb k0 e) eqn:E; cbn.
  - apply jsstring_eqb_eq in E. subst k0. apply own_absent. exact Hn.
  - rewrite E. apply IH, Hr.
Qed.

Lemma keys_append (evs : list (jsstring * list callback)) (e : jsstring)
    (l : list callback) :
  own evs e = None -> NoDup (map fst evs) ->
  NoDup (map fst (evs ++ [(e, l)])).
Proof.
  intros O H. rewrite map_app. cbn [map fst].
  apply NoDup_app; [exact H | repeat constructor; intros [] |].
  intros k Hk [<-|[]]. apply own_absent in O. exact (O Hk).
Qed.

(** [on] appends the listener to the listeners of the event. *)
Lemma on_listeners (e : jsstring) (cb : callback) (em : Emitter) :
  well_formed em -> inherited e = false ->
  exists em',
    on e cb em = Normal em' /\ well_formed em' /\
    listeners e em' = listeners e em ++ [cb].
Proof.
  intros (evs & Ev & Hd) Hi. unfold on, listeners. rewrite Ev.
  unfold get. rewrite Hi.
  destruct (own evs e) as [l|] eqn:O; eexists; (split; [reflexivity|]);
    unfold well_formed, with_events; cbn [events].
  - split.
    + eexists. split; [reflexivity|]. rewrite keys_assign. exact Hd.
    + rewrite (own_assign _ _ _ (l ++ [cb]) O). reflexivity.
  - split.
    + eexists. split; [reflexivity|]. apply keys_append; assumption.
    + rewrite (own_app_new _ _ [cb] O). reflexivity.
Qed.

(** [off] removes the first occurrence of the listener. *)
Lemma off_listeners (e : jsstring) (cb : callback) (em : Emitter) :
  well_formed em -> inherited e = false ->
  exists em',
    off e cb em = Normal em' /\ well_formed em' /\
    listeners e em' = remove_first cb (listeners e em).
Proof.
  intros (evs & Ev & Hd) Hi. unfold off, listeners. rewrite Ev.
  unfold get. rewrite Hi.
  destruct (own evs e) as [l|] eqn:O.
  - destruct (Z.of_nat (length (remove_first cb l)) =? 0) eqn:Z0;
      eexists; (split; [reflexivity|]);
      unfold well_formed, with_events; cbn [events].
    + split.
      * eexists. split; [reflexivity|]. apply keys_delete, Hd.
      * rewrite own_delete_same by exact Hd.
        apply Z.eqb_eq in Z0.
        destruct (remove_first cb l); [reflexivity | cbn in Z0; lia].
    + split.
      * eexists. split; [reflexivity|]. rewrite keys_assign. exact Hd.
      * rewrite (own_assign _ _ _ (remove_first cb l) O). reflexivity.
  - exists em. split; [reflexivity|]. split.
    + exists evs. split; assumption.
    + rewrite Ev, O. reflexivity.
Qed.

Lemma callback_eqb_refl (c : callback) : callback_eqb c c = true.
Proof. apply callback_eqb_eq. reflexivity. Qed.

Lemma remove_first_skip (c : callback) (a b : list callback) :
  (forall x, In x a -> callback_eqb x c = false) ->
  remove_first c (a ++ c :: b) = a ++ b.
Proof.
  induction a as [|x a IH]; intro H; cbn [app remove_first].
  - rewrite callback_eqb_refl. reflexivity.
  - rewrite (H x (or_introl eq_refl)). rewrite IH; [reflexivity|].
    intros y Hy. apply H. right. exact Hy.
Qed.

(** One listener called: it stays, or its first occurrence is removed. *)
Lemma call_listeners (throws : nat -> bool) (e : jsstring) (em : Emitter)
    (called : list nat) (c : callback) :
  well_formed em -> inherited e = false ->
  well_formed (fst (call throws e (em, called) c)) /\
  listeners e (fst (call throws e (em, called) c))
  = if stays throws c then listeners e em
    else remove_first c (listeners e em).
Proof.
  intros Hw Hi. unfold call.
  destruct c as [id|s inner]; cbn [stays fst]; [split; [exact Hw | reflexivity]|].
  destruct (throws inner); cbn [fst]; [split; [exact Hw | reflexivity]|].
  destruct (off_listeners e (OnceCallback s inner) em Hw Hi)
    as (em' & O & Hw' & L).
  rewrite O. cbn [fst]. split; assumption.
Qed.

(** The listeners of the event while [emit] goes through its copy of
    them: those already called that stay, then those still to be called. *)
Lemma fold_call_listeners (throws : nat -> bool) (e : jsstring) :
  inherited e = false ->
  forall (rest done : list callback) (em : Emitter) (called : list nat),
    well_formed em ->
    listeners e em = filter (stays throws) done ++ rest ->
    well_formed (fst (fold_left (call throws e) rest (em, called))) /\
    listeners e (fst (fold_left (call throws e) rest (em, called)))
    = filter (stays throws) (done ++ rest).
Proof.
  intro Hi. induction rest as [|c rest IH]; intros done em called Hw L;
    cbn [fold_left fst].
  - rewrite app_nil_r in *. split; assumption.
  - destruct (call_listeners throws e em called c Hw Hi) as [Hw' L'].
    destruct (call throws e (em, called) c) as [em' called'] eqn:C.
    cbn [fst] in Hw', L'.
    replace (done ++ c :: rest) with ((done ++ [c]) ++ rest)
      by (rewrite <- app_assoc; reflexivity).
    apply IH; [exact Hw'|]. rewrite L', L, filter_app. cbn [filter].
    destruct (stays throws c) eqn:S.
    + rewrite <- app_assoc. reflexivity.
    + rewrite app_nil_r. apply remove_first_skip.
      intros x Hx. apply filter_In in Hx. destruct Hx as [_ Sx].
      destruct (callback_eqb x c) eqn:E; [|reflexivity].
      apply callback_eqb_eq in E. subst x. congruence.
Qed.

(** [emit] on an emitter in use calls the listeners of the event. *)
Lemma emit_listeners (throws : nat -> bool) (e : jsstring) (em : Emitter) :
  well_formed em -> inherited e = false ->
  exists em',
    emit throws e em = Normal (em', map function_of (listeners e em)) /\
    well_formed em' /\
    listeners e em' = filter (stays throws) (listeners e em).
Proof.
  intros Hw Hi. pose proof Hw as (evs & Ev & Hd).
  unfold emit, listeners at 1 3. rewrite Ev. unfold get. rewrite Hi.
  destruct (own evs e) as [l|] eqn:O.
  - exists (fst (fold_left (call throws e) l (em, []))).
    pose proof (emit_called_aux throws e l (em, [])) as H.
    cbn [snd app] in H.
    destruct (fold_call_listeners throws e Hi l [] em [] Hw) as [Hw' L].
    { unfold listeners. rewrite Ev, O. reflexivity. }
    split; [|split; [exact Hw' | exact L]].
    rewrite <- H. destruct (fold_left (call throws e) l (em, [])).
    reflexivity.
  - exists em. split; [reflexivity|]. split; [exact Hw|].
    unfold listeners. rewrite Ev, O. reflexivity.
Qed.

Lemma step_well_formed (em : Emitter) (op : Op) :
  well_formed em -> well_formed (step em op).
Proof.
  intros Hw. pose proof Hw as (evs & Ev & Hd). unfold step.
  destruct op as [e cb | e cb | e cb | throws e | e].
  - unfold on. rewrite Ev. unfold get.
    destruct (own evs e) as [l|] eqn:O.
    + eexists. split; [reflexivity|]. rewrite keys_assign. exact Hd.
    + destruct (inherited e); [exact Hw|].
      eexists. split; [reflexivity|]. apply keys_append; assumption.
  - unfold off. rewrite Ev. unfold get.
    destruct (own evs e) as [l|] eqn:O.
    + destruct (Z.of_nat (length (remove_first (Callback cb) l)) =? 0);
        eexists; (split; [reflexivity|]).
      * apply keys_delete, Hd.
      * rewrite keys_assign. exact Hd.
    + destruct (inherited e); exact Hw.
  - unfold once, on. cbn [events]. rewrite Ev. unfold get.
    destruct (own evs e) as [l|] eqn:O.
    + eexists. split; [reflexivity|]. rewrite keys_assign. exact Hd.
    + destruct (inherited e); [exact Hw|].
      eexists. split; [reflexivity|]. apply keys_append; assumption.
  - unfold emit. rewrite Ev. unfold get.
    destruct (own evs e) as [l|] eqn:O; cbn [bind fst].
    + assert (G : forall cbs st, well_formed (fst st) ->
                  well_formed (fst (fold_left (call throws e) cbs st))).
      { induction cbs as [|c cbs IH]; intros st Hst; cbn [fold_left];
          [exact Hst|].
        apply IH. destruct st as [em0 called]. cbn [fst] in Hst.
        unfold call. destruct c as [id|s inner]; [exact Hst|].
        destruct (throws inner); [exact Hst|].
        destruct (off e (OnceCallback s inner) em0) as [em1|err] eqn:F;
          [|exact Hst].
        cbn [fst]. destruct Hst as (evs0 & Ev0 & Hd0).
        unfold off in F. rewrite Ev0 in F. unfold get in F.
        destruct (own evs0 e) as [l0|].
        - destruct (Z.of_nat (length (remove_first _ l0)) =? 0);
            injection F as <-; eexists; (split; [reflexivity|]).
          + apply keys_delete, Hd0.
          + rewrite keys_assign. exact Hd0.
        - destruct (inherited e); [discriminate|]. injection F as <-.
          exists evs0. split; assumption. }
      apply G. exact Hw.
    + destruct (inherited e); exact Hw.
  - unfold removeAllListeners.
    destruct e as [[|c name]|].
    + eexists. split; [reflexivity|]. constructor.
    + rewrite Ev. eexists. split; [reflexivity|]. apply keys_delete, Hd.
    + eexists. split; [reflexivity|]. constructor.
Qed.

(** Every emitter reached from a new one is in use, has each event once
    and no empty array of listeners. *)
Lemma run_reaches_well_formed (ops : list Op) :
  well_formed (run ops EventEmitter.new) /\
  no_empty_array (run ops EventEmitter.new).
Proof.
  assert (G : forall ops em, well_formed em -> no_empty_array em ->
              well_formed (run ops em) /\ no_empty_array (run ops em)).
  { clear. induction ops as [|op ops IH]; intros em Hw Hn; cbn; [tauto|].
    apply IH; [apply step_well_formed, Hw | apply step_no_empty_array, Hn]. }
  apply G.
  - exists []. split; [reflexivity | constructor].
  - cbn. constructor.
Qed.

(** A function subscribed with [once] is called by the next [emit] of the
    event, after the listeners subscribed before it.  After that [emit]
    the listeners of the event are those it was started with, without the
    closures of [once] whose function returned: when the function returns
    its closure is gone, so that it is called once; when it throws, the
    closure does not reach its [off] and stays subscribed, last in the
    list.  A later [emit] calls the listeners that are left.  If the
    listeners subscribed before were all subscribed with [on], the events
    after the [emit] are those before [once] when the function returns,
    and the [emit] changes nothing when it throws. *)
Theorem once_listener_is_one_shot_unless_it_throws
    (throws : nat -> bool) (ops : list Op) (e : jsstring) (cb : nat) :
  inherited e = false ->
  let em := run ops EventEmitter.new in
  let wrapper := OnceCallback (closures em) cb in
  exists em1 em2 em3,
    once e cb em = Normal em1 /\
    emit throws e em1
    = Normal (em2, map function_of (listeners e em) ++ [cb]) /\
    listeners e em2
    = filter (stays throws) (listeners e em ++ [wrapper]) /\
    (throws cb = false -> ~ In wrapper (listeners e em2)) /\
    (throws cb = true ->
     listeners e em2 = filter (stays throws) (listeners e em) ++ [wrapper]) /\
    emit throws e em2 = Normal (em3, map function_of (listeners e em2)) /\
    (forallb plain (listeners e em) = true ->
     (throws cb = false -> events em2 = events em) /\
     (throws cb = true -> em2 = em1)).
Proof.
  intros Hi em wrapper.
  destruct (run_reaches_well_formed ops) as [Hw Hn]. fold em in Hw, Hn.
  assert (Hw0 : well_formed {| events := events em;
                               closures := S (closures em) |}).
  { destruct Hw as (evs & Ev & Hd). exists evs. split; assumption. }
  destruct (on_listeners e wrapper _ Hw0 Hi) as (em1 & O1 & Hw1 & L1).
  change (listeners e {| events := events em; closures := S (closures em) |})
    with (listeners e em) in L1.
  destruct (emit_listeners throws e em1 Hw1 Hi) as (em2 & E2 & Hw2 & L2).
  destruct (emit_listeners throws e em2 Hw2 Hi) as (em3 & E3 & _ & _).
  rewrite L1 in E2, L2. rewrite map_app in E2. cbn [map function_of] in E2.
  exists em1, em2, em3.
  split; [exact O1|]. split; [exact E2|]. split; [exact L2|].
  split; [|split; [|split; [exact E3|]]].
  - intros T Hin. rewrite L2 in Hin. apply filter_In in Hin.
    destruct Hin as [_ S]. cbn [stays wrapper] in S. congruence.
  - intro T. rewrite L2, filter_app. cbn [filter stays wrapper].
    rewrite T. reflexivity.
  - intro Hp. pose proof Hw as (evs & Ev & Hd).
    destruct (once_among_plain throws em evs e cb Ev Hn Hi Hp)
      as (em1' & em2' & O1' & E2' & P1 & P2).
    unfold once in O1'. fold wrapper in O1'. rewrite O1 in O1'.
    injection O1' as <-. rewrite E2 in E2'. injection E2' as <-.
    split; assumption.
Qed.

End EventEmitterFacts.

(** ** The feed observer *)

Section ObserverFacts.
Import Observer.

Lemma handleTypingDetected_valid (d : TypingData) (st : Detector) :
  valid_typing d ->
  typingTimeout (handleTypingDetected d st) = Some d /\
  emitted (handleTypingDetected d st) = emitted st.
Proof.
  intros [(cid & Hc & Hne) Hp]. unfold handleTypingDetected.
  rewrite Hc. cbn [truthy_opt].
  rewrite !truthy_str_nonempty by assumption. split; reflexivity.
Qed.

(** Debouncing: however many typing signals arrive before the timer
    elapses, the timer emits exactly one [typingDetected] event, carrying
    the last signal; elapsing again emits nothing more. *)
Theorem typing_burst_emits_one_event
    (st : Detector) (signals : list TypingData) (last : TypingData) :
  Forall valid_typing (signals ++ [last]) ->
  let st' := fold_left (fun s d => handleTypingDetected d s)
                       (signals ++ [last]) st in
  emitted st' = emitted st /\
  typingEvents (typingTimerFired st') = typingEvents st ++ [last] /\
  typingTimerFired (typingTimerFired st') = typingTimerFired st'.
Proof.
  intros H st'.
  assert (G : forall l s, Forall valid_typing l ->
              emitted (fold_left (fun s d => handleTypingDetected d s) l s)
              = emitted s).
  { induction l as [|d l IH]; intros s Hl; cbn [fold_left]; [reflexivity|].
    inversion Hl; subst. rewrite IH by assumption.
    apply handleTypingDetected_valid. assumption. }
  apply Forall_app in H. destruct H as [Hs Hl]. inversion Hl; subst.
  assert (T : typingTimeout st' = Some last).
  { unfold st'. rewrite fold_left_app. cbn [fold_left].
    apply handleTypingDetected_valid. assumption. }
  assert (E : emitted st' = emitted st).
  { unfold st'. apply G. apply Forall_app. split; assumption. }
  split; [exact E|].
  unfold typingTimerFired. rewrite T. cbn [typingTimeout]. split; [|reflexivity].
  unfold typingEvents, emit. cbn [emitted]. rewrite flat_map_app, E.
  reflexivity.
Qed.

(** When monitoring is stopped the pending typing signal is dropped and
    later mutation batches are ignored: neither the timer nor a batch
    emits anything until monitoring is started again. *)
Theorem stopMonitoring_silences_observer
    (pg : Page) (clock : Clock) (mutations : list Mutation) (m : Monitor) :
  isMonitoring m = true ->
  let stopped := stopMonitoring m in
  emitted (detector stopped) = emitted (detector m) /\
  timerElapsed stopped = stopped /\
  handleDOMChanges pg clock mutations stopped = stopped /\
  stopMonitoring stopped = stopped.
Proof.
  intros H stopped. unfold stopped, stopMonitoring. rewrite H. cbn.
  repeat split; reflexivity.
Qed.

Lemma getCurrentContactId_fixed (pg : Page) (st st' : Detector) :
  platformAdapter st' = platformAdapter st ->
  currentPlatform st' = currentPlatform st ->
  MessageDetector.getCurrentContactId st' pg
  = MessageDetector.getCurrentContactId st pg.
Proof.
  intros Ha Hp. unfold MessageDetector.getCurrentContactId,
    extractContactIdFromPage. rewrite Ha, Hp. reflexivity.
Qed.

Lemma checkForContactChange_fields (pg : Page) (now : Z) (st : Detector) :
  platformAdapter (checkForContactChange pg now st) = platformAdapter st /\
  currentPlatform (checkForContactChange pg now st) = currentPlatform st.
Proof.
  unfold checkForContactChange.
  destruct (MessageDetector.getCurrentContactId st pg) as [cid|];
    [|split; reflexivity].
  destruct (truthy_str cid && _); split; reflexivity.
Qed.

(** After a contact-change check the recorded contact is the page's
    current one, whenever the page has one. *)
Lemma checkForContactChange_records (pg : Page) (now : Z) (st : Detector)
    (cid : jsstring) :
  MessageDetector.getCurrentContactId st pg = Some cid -> cid <> [] ->
  lastContactId (checkForContactChange pg now st) = Some cid.
Proof.
  intros Hc Hne. unfold checkForContactChange. rewrite Hc.
  rewrite truthy_str_nonempty by exact Hne. cbn [andb].
  destruct (lastContactId st) as [l|] eqn:L; cbn [negb].
  - destruct (jsstring_eqb cid l) eqn:E; cbn [negb].
    + apply jsstring_eqb_eq in E. subst l. exact L.
    + reflexivity.
  - reflexivity.
Qed.

(** A check on a page whose current contact is already recorded, or that
    has none, changes nothing. *)
Lemma checkForContactChange_idle (pg : Page) (now : Z) (st : Detector) :
  match MessageDetector.getCurrentContactId st pg with
  | Some cid => cid = [] \/ lastContactId st = Some cid
  | None => True
  end ->
  checkForContactChange pg now st = st.
Proof.
  unfold checkForContactChange.
  destruct (MessageDetector.getCurrentContactId st pg) as [cid|];
    [|reflexivity].
  intros [->| ->]; [reflexivity|].
  rewrite jsstring_eqb_refl. cbn [negb]. rewrite andb_false_r. reflexivity.
Qed.

Lemma handleNewMessage_after (pg : Page) (now : Z) (d : MessageData)
    (st : Detector) :
  messageQueue st = [] -> valid d ->
  handleNewMessage pg now d st
  = MessageDetector.emit (messageReceived d)
      (checkForContactChange pg now
         {| platformAdapter := platformAdapter st;
            currentPlatform := currentPlatform st;
            messageQueue := [];
            lastMessageTime := timestamp d;
            lastContactId := lastContactId st;
            typingTimeout := typingTimeout st;
            emitted := emitted st |}).
Proof.
  intros Hq (Hm & Hc & Hp). unfold handleNewMessage.
  rewrite !truthy_str_nonempty by assumption. cbn [negb orb].
  rewrite isDuplicateMessage_empty_queue by exact Hq.
  unfold processMessageQueue, push. cbn [messageQueue]. rewrite Hq.
  cbn [app drain]. unfold processOne. cbn. reflexivity.
Qed.

(** The contact-change event is emitted exactly when the page's current
    contact is not empty and differs from the recorded one; it comes
    before the message that revealed the change, and it is not repeated: a
    first message on such a page emits [contactChanged] for the page's
    contact, stamped with the clock, followed by its [messageReceived],
    and records the contact; on a page without a contact, or whose contact
    is the recorded one, it emits its [messageReceived] alone; a second
    message on the same page emits its [messageReceived] alone in both
    cases. *)
Theorem contact_change_announced_once
    (pg : Page) (now1 now2 : Z) (d1 d2 : MessageData) (st : Detector) :
  messageQueue st = [] -> valid d1 -> valid d2 ->
  let st1 := handleNewMessage pg now1 d1 st in
  let st2 := handleNewMessage pg now2 d2 st1 in
  (forall cid,
      MessageDetector.getCurrentContactId st pg = Some cid ->
      cid <> [] ->
      lastContactId st <> Some cid ->
      emitted st1 = emitted st ++
                    [contactChanged cid (currentPlatform st) now1;
                     messageReceived d1] /\
      lastContactId st1 = Some cid) /\
  (MessageDetector.getCurrentContactId st pg = None \/
   MessageDetector.getCurrentContactId st pg = Some [] \/
   MessageDetector.getCurrentContactId st pg = lastContactId st ->
   emitted st1 = emitted st ++ [messageReceived d1] /\
   lastContactId st1 = lastContactId st) /\
  emitted st2 = emitted st1 ++ [messageReceived d2].
Proof.
  intros Hq V1 V2 st1 st2.
  pose proof (handleNewMessage_after pg now1 d1 st Hq V1) as E1.
  fold st1 in E1.
  set (s0 := {| platformAdapter := platformAdapter st;
                currentPlatform := currentPlatform st;
                messageQueue := [];
                lastMessageTime := timestamp d1;
                lastContactId := lastContactId st;
                typingTimeout := typingTimeout st;
                emitted := emitted st |}) in E1.
  assert (Hg0 : MessageDetector.getCurrentContactId s0 pg
                = MessageDetector.getCurrentContactId st pg)
    by (apply getCurrentContactId_fixed; reflexivity).
  destruct (checkForContactChange_fields pg now1 s0) as [Fa Fp].
  assert (Q1 : messageQueue st1 = []).
  { rewrite E1. cbn [MessageDetector.emit messageQueue].
    rewrite checkForContactChange_queue. reflexivity. }
  split; [|split].
  - intros cid Hc Hne Hl. rewrite E1.
    cbn [MessageDetector.emit emitted lastContactId].
    unfold checkForContactChange. rewrite Hg0, Hc.
    rewrite truthy_str_nonempty by exact Hne. cbn [andb lastContactId s0].
    assert (N : negb (match lastContactId st with
                      | Some l => jsstring_eqb cid l
                      | None => false
                      end) = true).
    { destruct (lastContactId st) as [l|]; [|reflexivity].
      destruct (jsstring_eqb cid l) eqn:E; [|reflexivity].
      apply jsstring_eqb_eq in E. subst l. congruence. }
    rewrite N. cbn [MessageDetector.emit emitted lastContactId s0].
    rewrite <- app_assoc. split; reflexivity.
  - intro Hidle. rewrite E1. cbn [MessageDetector.emit emitted lastContactId].
    rewrite checkForContactChange_idle; [split; reflexivity|].
    rewrite Hg0.
    destruct (MessageDetector.getCurrentContactId st pg) as [cid|];
      [|exact I].
    destruct Hidle as [H|[H|H]]; [discriminate | left; congruence |].
    right. cbn [lastContactId s0]. symmetry. exact H.
  - pose proof (handleNewMessage_after pg now2 d2 st1 Q1 V2) as E2.
    fold st2 in E2. rewrite E2. cbn [MessageDetector.emit emitted].
    rewrite checkForContactChange_idle; [reflexivity|].
    assert (Hg1 : forall s, platformAdapter s = platformAdapter st1 ->
                  currentPlatform s = currentPlatform st1 ->
                  MessageDetector.getCurrentContactId s pg
                  = MessageDetector.getCurrentContactId st pg).
    { intros s Ha Hp. rewrite (getCurrentContactId_fixed pg st1 s Ha Hp).
      rewrite E1. rewrite <- Hg0. apply getCurrentContactId_fixed.
      - cbn [MessageDetector.emit platformAdapter]. exact Fa.
      - cbn [MessageDetector.emit currentPlatform]. exact Fp. }
    rewrite Hg1 by reflexivity.
    destruct (MessageDetector.getCurrentContactId st pg) as [cid|] eqn:C;
      [|exact I].
    destruct cid as [|c cid]; [left; reflexivity|]. right.
    cbn [lastContactId]. rewrite E1. cbn [MessageDetector.emit lastContactId].
    apply checkForContactChange_records; [exact Hg0 | discriminate].
Qed.











End ObserverFacts.

(** ** Requests for suggestions *)

Section SuggestionRequests.
Import ContentScript.

Lemma join_app_last (sep : jsstring) (l : list jsstring) (x : jsstring) :
  exists prefix, join sep (l ++ [x]) = prefix ++ x.
Proof.
  induction l as [|y l IH].
  - exists []. reflexivity.
  - destruct IH as [prefix Hp].
    cbn [app join]. destruct (l ++ [x]) as [|z rest] eqn:E.
    + destruct l; discriminate.
    + rewrite Hp. exists (y ++ sep ++ prefix). rewrite <- !app_assoc.
      reflexivity.
Qed.

Lemma skipn_app_last {A} (k : nat) (l : list A) (x : A) :
  (k <= length l)%nat -> skipn k (l ++ [x]) = skipn k l ++ [x].
Proof.
  intro H. rewrite skipn_app.
  replace (k - length l)%nat with 0%nat by lia. reflexivity.
Qed.

(** After a contact change nothing is requested until a message arrives:
    a typing signal, for whichever contact, finds the context empty. *)
Theorem no_request_right_after_contact_change
    (st : Script) (cid p : jsstring) (resolved : Contact)
    (typing : option jsstring) :
  handleTypingDetected typing (handleContactChanged cid p resolved st) = None /\
  generateSuggestions (handleContactChanged cid p resolved st) = None.
Proof.
  unfold handleTypingDetected, generateSuggestions, handleContactChanged.
  cbn. split; [|reflexivity].
  destruct (isEnabled st); cbn; [|reflexivity].
  destruct typing as [t|]; [|reflexivity].
  destruct (jsstring_eqb t (contactId resolved)); reflexivity.
Qed.

Lemma request_after_message
    (st : Script) (data : Adapter.MessageData) (resolved : Contact) :
  isEnabled st = true ->
  exists req prefix,
    handleTypingDetected (Some (contactId resolved))
      (handleMessageReceived data resolved st) = Some req /\
    r_message req = Adapter.message data /\
    r_contactId req = contactId resolved /\
    r_contactStyle req = conversationStyle resolved /\
    r_context req = prefix ++ lit "Them: " ++ Adapter.message data.
Proof.
  intro He.
  set (entry := {| c_type := lit "received";
                   c_message := Adapter.message data;
                   c_timestamp := Adapter.timestamp data;
                   c_contactId := Adapter.contactId data |}).
  assert (Hctx : exists older,
             conversationContext (handleMessageReceived data resolved st)
             = older ++ [entry]).
  { cbn [handleMessageReceived conversationContext]. fold entry.
    rewrite trim_to_last_recent.
    exists (skipn (length (conversationContext st ++ [entry]) - 10)
                  (conversationContext st)).
    apply skipn_app_last. rewrite length_app. cbn. lia. }
  destruct Hctx as [older Hctx].
  unfold handleTypingDetected, generateSuggestions.
  cbn [handleMessageReceived isEnabled currentContact]. rewrite He. cbn [negb].
  rewrite jsstring_eqb_refl.
  unfold buildConversationContext.
  change (conversationContext
            {| isEnabled := isEnabled st; currentContact := Some resolved;
               conversationContext :=
                 trim_to_last 10 (conversationContext st ++ [entry]);
               uiOverlay := uiOverlay st |})
    with (conversationContext (handleMessageReceived data resolved st)).
  rewrite Hctx.
  assert (L0 : (Z.of_nat (length (older ++ [entry])) =? 0) = false).
  { apply Z.eqb_neq. rewrite length_app. cbn. lia. }
  rewrite L0.
  assert (L1 : lastReceived (older ++ [entry]) = Some entry).
  { unfold lastReceived. rewrite filter_app. cbn [filter].
    change (jsstring_eqb (c_type entry) (lit "received")) with true.
    cbn iota. rewrite map_app. cbn [map]. apply last_last. }
  rewrite L1.
  assert (L2 : exists z, slice_last 5 (older ++ [entry]) = z ++ [entry]).
  { unfold slice_last. exists (skipn (length (older ++ [entry]) - 5) older).
    apply skipn_app_last. rewrite length_app. cbn. lia. }
  destruct L2 as [z L2]. rewrite L2, map_app. cbn [map].
  destruct (join_app_last [10]
              (map (fun ctx =>
                      (if jsstring_eqb (c_type ctx) (lit "received")
                       then lit "Them" else lit "You")
                      ++ lit ": " ++ c_message ctx) z)
              ((if jsstring_eqb (c_type entry) (lit "received")
                then lit "Them" else lit "You")
               ++ lit ": " ++ c_message entry)) as [prefix Hj].
  eexists. exists prefix. split; [reflexivity|].
  cbn [r_message r_contactId r_contactStyle r_context].
  repeat split; try reflexivity.
  etransitivity; [exact Hj|]. reflexivity.
Qed.

(** A typing signal for the current contact, right after a message was
    received, requests a suggestion for that very message: the request
    names the current contact, its message is the text just received, and
    its context ends with the line "Them: " followed by that text. *)
Theorem request_carries_latest_message
    (st : Script) (data : Adapter.MessageData) (resolved : Contact) :
  isEnabled st = true ->
  exists req prefix,
    handleTypingDetected (Some (contactId resolved))
      (handleMessageReceived data resolved st) = Some req /\
    r_message req = Adapter.message data /\
    r_contactId req = contactId resolved /\
    r_contactStyle req = conversationStyle resolved /\
    r_context req = prefix ++ lit "Them: " ++ Adapter.message data.
Proof. apply request_after_message. Qed.

End SuggestionRequests.

(** ** Provider answers and the local matcher *)

Section ProviderAnswers.
Import JSValue APIManager.

Lemma trim_start_head (s : jsstring) :
  match trim_start s with
  | c :: _ => is_space c = false
  | [] => True
  end.
Proof.
  induction s as [|c s IH]; cbn; [exact I|].
  destruct (is_space c) eqn:E; [exact IH | exact E].
Qed.

Lemma trim_start_app_last (l : jsstring) (c : Z) :
  is_space c = false -> trim_start (l ++ [c]) = trim_start l ++ [c].
Proof.
  intro Hc. induction l as [|d l IH]; cbn.
  - rewrite Hc. reflexivity.
  - destruct (is_space d); [exact IH | reflexivity].
Qed.

Lemma trim_head (s : jsstring) :
  match trim s with
  | c :: _ => is_space c = false
  | [] => True
  end.
Proof.
  unfold trim. pose proof (trim_start_head s) as H.
  destruct (trim_start s) as [|c t]; [exact I|].
  unfold trim_end. cbn [rev]. rewrite trim_start_app_last by exact H.
  rewrite rev_app_distr. cbn. exact H.
Qed.

Lemma truncate100_shape (s : jsstring) :
  (length (truncate100 s) <= 103)%nat /\
  (match s with c :: _ => is_space c = false | [] => True end ->
   match truncate100 s with c :: _ => is_space c = false | [] => True end).
Proof.
  unfold truncate100, substring0.
  destruct (100 <? Z.of_nat (length s)) eqn:E.
  - apply Z.ltb_lt in E. split.
    + rewrite length_app, length_firstn.
      change (length (lit "...")) with 3%nat. lia.
    + destruct s as [|c s]; [cbn in E; lia|]. cbn. tauto.
  - apply Z.ltb_ge in E. split; [lia | tauto].
Qed.

Lemma processHFResponse_tidy (result : jsval) (s : jsstring) :
  processHFResponse result = Normal (Some s) -> Shapes.tidy s.
Proof.
  unfold processHFResponse.
  destruct (negb (truthy result)); [discriminate|].
  destruct (get_index0 result) as [r0|]; cbn [bind]; [|discriminate].
  destruct (negb (truthy r0)); [discriminate|].
  destruct (get_field (lit "generated_text") r0) as [g|]; cbn [bind];
    [|discriminate].
  destruct (negb (truthy g)); [discriminate|].
  destruct (as_string g) as [text|]; cbn [bind]; [|discriminate].
  intros [= <-].
  destruct (truncate100_shape (trim (strip_scaffold text))) as [H1 H2].
  split; [exact H1 | apply H2, trim_head].
Qed.

Lemma processGeminiResponse_tidy (result : jsval) (s : jsstring) :
  processGeminiResponse result = Normal (Some s) -> Shapes.tidy s.
Proof.
  unfold processGeminiResponse.
  destruct (negb (truthy result)); [discriminate|].
  destruct (get_field (lit "candidates") result) as [cs|]; cbn [bind];
    [|discriminate].
  destruct (negb (truthy cs)); [discriminate|].
  destruct (get_index0 cs) as [c0|]; cbn [bind]; [|discriminate].
  destruct (negb (truthy c0)); [discriminate|].
  destruct (get_field (lit "content") c0) as [ct|]; cbn [bind]; [|discriminate].
  destruct (negb (truthy ct)); [discriminate|].
  destruct (get_field (lit "parts") ct) as [ps|]; cbn [bind]; [|discriminate].
  destruct (get_index0 ps) as [p0|]; cbn [bind]; [|discriminate].
  destruct (get_field (lit "text") p0) as [tx|]; cbn [bind]; [|discriminate].
  destruct (as_string tx) as [text|]; cbn [bind]; [|discriminate].
  intros [= <-].
  destruct (truncate100_shape (trim text)) as [H1 H2].
  split; [exact H1 | apply H2, trim_head].
Qed.

(** Whatever a provider answers, the text taken from it is at most 103
    code units long (100 of the answer and the ellipsis) and does not start
    with white space. *)
Theorem provider_text_is_trimmed_and_bounded
    (apiKeys : option ApiKeys) (outcome : FetchOutcome) (s : jsstring) :
  (tryHuggingFace apiKeys outcome = Normal (Some s) \/
   tryGoogleGemini apiKeys outcome = Normal (Some s)) ->
  (length s <= 103)%nat /\
  match s with c :: _ => is_space c = false | [] => True end.
Proof.
  assert (G : forall process,
             (forall result t, process result = Normal (Some t) -> Shapes.tidy t) ->
             tryProvider process outcome = Some s -> Shapes.tidy s).
  { intros process Hp. unfold tryProvider.
    destruct outcome as [|status json]; [discriminate|].
    destruct (status_ok status); [|discriminate].
    destruct json as [result|]; [|discriminate].
    destruct (process result) as [[t|]|] eqn:P; try discriminate.
    intros [= <-]. eapply Hp. exact P. }
  unfold tryHuggingFace, tryGoogleGemini.
  destruct apiKeys as [keys|]; [|intros [H|H]; discriminate].
  intros [H|H].
  - destruct (negb (key_present (huggingface keys))); [discriminate|].
    injection H as H. exact (G _ processHFResponse_tidy H).
  - destruct (negb (key_present (gemini keys))); [discriminate|].
    injection H as H. exact (G _ processGeminiResponse_tidy H).
Qed.

Variable toLowerCase : jsstring -> jsstring.

(** The first provider has priority: a non-empty text from it is the
    result, whatever the second provider would answer; and without keys
    (none stored, or not loaded yet) no provider is consulted and the
    result is the local matcher's. *)
Theorem provider_priority_and_missing_keys
    (apiKeys : option ApiKeys) (hf gm : FetchOutcome) (r : Q)
    (data : RequestData) :
  (forall s, tryHuggingFace apiKeys hf = Normal (Some s) -> s <> [] ->
             generateResponse toLowerCase apiKeys hf gm r data = Some s) /\
  (match apiKeys with
   | Some keys => key_present (huggingface keys) = false /\
                  key_present (gemini keys) = false
   | None => True
   end ->
   generateResponse toLowerCase apiKeys hf gm r data
   = generateLocalResponse toLowerCase r data).
Proof.
  split.
  - intros s H Hne. unfold generateResponse, generateResponse_try.
    rewrite H. cbn [bind]. destruct s; [congruence|]. reflexivity.
  - unfold generateResponse, generateResponse_try, tryHuggingFace,
      tryGoogleGemini.
    destruct apiKeys as [keys|]; [|reflexivity].
    intros [-> ->]. reflexivity.
Qed.

(** The canned answers of the local matcher. *)
Lemma localBucket_cases (lowerMessage message : jsstring) :
  In (localBucket lowerMessage message)
     [greetingResponses; wellbeingResponses; gratitudeResponses;
      farewellResponses; shortResponses; defaultResponses].
Proof.
  unfold localBucket.
  repeat match goal with
         | |- context [if ?b then _ else _] => destruct b
         end; cbn; tauto.
Qed.

(** The local matcher answers with one of its twenty fixed strings and
    never with text of the request; and a message whose lower-cased text
    contains "hi" or "hello" (as "this" or "nothing" do) is answered from
    the greeting set, whatever else it says. *)
Theorem local_answer_is_canned
    (r : Q) (data : RequestData) (s : jsstring) :
  generateLocalResponse toLowerCase r data = Some s ->
  In s (greetingResponses ++ wellbeingResponses ++ gratitudeResponses ++
        farewellResponses ++ shortResponses ++ defaultResponses) /\
  (includes (toLowerCase (message data)) (lit "hi") = true \/
   includes (toLowerCase (message data)) (lit "hello") = true ->
   In s greetingResponses).
Proof.
  unfold generateLocalResponse, getRandomResponse,
    ContentScript.random_pick.
  set (bucket := localBucket (toLowerCase (message data)) (message data)).
  destruct (Qfloor _ <? 0); [discriminate|].
  intro H. apply nth_error_In in H.
  split.
  - pose proof (localBucket_cases (toLowerCase (message data)) (message data))
      as C. fold bucket in C. cbn [In] in C.
    repeat rewrite in_app_iff.
    destruct C as [C|[C|[C|[C|[C|[C|[]]]]]]]; rewrite <- C in H; tauto.
  - intro Hhi. unfold bucket, localBucket in H.
    destruct Hhi as [Hhi|Hhi]; rewrite Hhi in H;
      [rewrite orb_true_r in H | cbn [orb] in H]; exact H.
Qed.

End ProviderAnswers.

(** ** Random picks in double arithmetic *)

Section RandomPicks.
Import ContentScript APIManager.

(** [Math.floor(Math.random() * arr.length)], the product being rounded
    to a double as the code computes it, is an index of the array for
    every value [Math.random()] can return: [getRandomResponse] returns
    the entry at that index of a non-empty array and never [undefined],
    and [addPoliteDelay] puts one of its four phrases before the response,
    never the text "undefined". *)
Theorem random_picks_stay_within_the_array (r : Q) :
  (0 <= r)%Q -> (r < 1)%Q ->
  (forall responses : list jsstring,
      responses <> [] ->
      exists (i : nat) (x : jsstring),
        Z.of_nat i
        = Qfloor (to_double
                    (double_below r * inject_Z (Z.of_nat (length responses)))) /\
        (i < length responses)%nat /\
        nth_error responses i = Some x /\
        getRandomResponse r responses = Some x) /\
  (forall response : jsstring,
      exists phrase,
        In phrase delayPhrases /\
        addPoliteDelay r response = phrase ++ response).
Proof.
  intros H0 H1. split.
  - intros responses Hne.
    assert (Hn : 1 <= Z.of_nat (length responses)).
    { destruct responses; [congruence | cbn [length]; lia]. }
    pose proof (random_index_in_range r _ H0 H1 Hn) as [Hlo Hhi].
    unfold getRandomResponse, random_pick.
    set (k := Qfloor (to_double
                        (double_below r *
                         inject_Z (Z.of_nat (length responses))))) in *.
    assert (E : (k <? 0) = false) by (apply Z.ltb_ge; lia).
    rewrite E.
    destruct (nth_error responses (Z.to_nat k)) as [x|] eqn:N.
    + exists (Z.to_nat k), x. split; [lia|]. split; [lia|].
      split; [exact N | reflexivity].
    + apply nth_error_None in N. lia.
  - intro response. unfold addPoliteDelay.
    destruct (random_pick_in_range r delayPhrases H0 H1 ltac:(discriminate))
      as (phrase & Hp & Hin).
    exists phrase. rewrite Hp. split; [exact Hin | reflexivity].
Qed.

End RandomPicks.

(** ** Retention of stored records *)

Section Retention.
Import ServiceWorker.

Lemma store_appends (cid plat msg resp : jsstring) (now : Z)
    (st : Storage) :
  exists older,
    stored
      (storeConversationData cid plat msg resp now st)
    = older ++
      [{| contactId := cid; platform := plat;
          message := msg; response := resp;
          timestamp := now; success := true |}].
Proof.
  unfold storeConversationData.
  cbn [stored conversationData].
  set (record := {| contactId := cid |}).
  destruct (1000 <? _).
  - exists (skipn (length (stored st ++ [record]) - 1000)
                  (stored st)).
    apply skipn_app_last. rewrite length_app. cbn. lia.
  - exists (stored st). reflexivity.
Qed.

Lemma filter_idempotent {A} (f : A -> bool) (l : list A) :
  filter f (filter f l) = filter f l.
Proof.
  induction l as [|x l IH]; cbn; [reflexivity|].
  destruct (f x) eqn:E; cbn; [rewrite E, IH|]; auto.
Qed.

Lemma filter_length_le {A} (f : A -> bool) (l : list A) :
  (length (filter f l) <= length l)%nat.
Proof.
  induction l as [|x l IH]; cbn; [lia|]. destruct (f x); cbn; lia.
Qed.

Lemma cleanup_keeps_exactly_the_recent_records_aux (now : Z) (st : Storage) :
  (forall record,
      In record (stored (cleanupOldData now st)) <->
      In record (stored st) /\
      now - 2592000000 < timestamp record) /\
  (length (stored (cleanupOldData now st)) <= length (stored st))%nat.
Proof.
  assert (E : stored (cleanupOldData now st)
              = filter (fun conv => now - 2592000000 <? timestamp conv)
                       (stored st)).
  { unfold cleanupOldData, stored.
    destruct (conversationData st) eqn:C; [reflexivity | rewrite C; reflexivity]. }
  split.
  - intro record. rewrite E, filter_In, Z.ltb_lt. reflexivity.
  - rewrite E. apply filter_length_le.
Qed.

(** The retention job keeps exactly the records less than 30 days old, in
    their order; it never adds one, running it again at the same time
    changes nothing, and it does not create the key when nothing was ever
    stored. *)
Theorem cleanup_keeps_exactly_the_recent_records (now : Z) (st : Storage) :
  (forall record,
      In record (stored (cleanupOldData now st)) <->
      In record (stored st) /\
      now - 2592000000 < timestamp record) /\
  stored (cleanupOldData now st)
  = filter (fun conv => now - 2592000000 <? timestamp conv) (stored st) /\
  (length (stored (cleanupOldData now st)) <= length (stored st))%nat /\
  cleanupOldData now (cleanupOldData now st) = cleanupOldData now st /\
  (conversationData st = None -> cleanupOldData now st = st).
Proof.
  assert (E : stored (cleanupOldData now st)
              = filter (fun conv => now - 2592000000 <? timestamp conv)
                       (stored st)).
  { unfold cleanupOldData, stored.
    destruct (conversationData st) eqn:C; [reflexivity | rewrite C; reflexivity]. }
  split; [|split; [exact E|split; [|split]]].
  - intro record. rewrite E, filter_In, Z.ltb_lt. reflexivity.
  - rewrite E. apply filter_length_le.
  - unfold cleanupOldData. destruct (conversationData st) as [l|] eqn:C.
    + cbn [conversationData].
      change (30 * 24 * 60 * 60 * 1000) with 2592000000.
      rewrite filter_idempotent. reflexivity.
    + rewrite C. reflexivity.
  - unfold cleanupOldData. intros ->. reflexivity.
Qed.

(** A record stored at time [t] is still there after a retention run at
    time [t'] exactly when less than 30 days lie between the two; and the
    run keeps the bound of 1000 records. *)
Theorem stored_record_is_kept_for_30_days
    (contactId platform message response : jsstring) (t t' : Z)
    (st : Storage) :
  let record :=
    {| contactId := contactId; platform := platform; message := message;
       response := response; timestamp := t; success := true |} in
  let st' :=
    cleanupOldData t'
      (storeConversationData contactId platform message response t st) in
  (In record (stored st') <-> t' - t < 2592000000) /\
  (length (stored st') <= 1000)%nat.
Proof.
  intros record st'.
  destruct (store_appends contactId platform message response t st)
    as [older Ho]. fold record in Ho.
  destruct (cleanup_keeps_exactly_the_recent_records_aux t'
              (storeConversationData contactId platform message response t st))
    as [Hin Hlen].
  split.
  - unfold st'. rewrite Hin. rewrite Ho. split.
    + intros [_ H]. cbn in H. lia.
    + intro H. split; [apply in_or_app; right; left; reflexivity|].
      cbn. lia.
  - unfold st'. etransitivity; [exact Hlen|].
    unfold storeConversationData. cbn [stored conversationData].
    destruct (1000 <? _) eqn:L.
    + rewrite length_skipn. lia.
    + apply Z.ltb_ge in L. lia.
Qed.

End Retention.

(** ** What leaves the browser and what is stored *)

Section RequestPrivacy.
Import JSValue AIRequest.

Lemma starts_with_self_app (s b : jsstring) : starts_with (s ++ b) s = true.
Proof.
  induction s as [|c s IH]; cbn [app].
  - destruct b; reflexivity.
  - cbn [starts_with]. rewrite Z.eqb_refl. exact IH.
Qed.

Lemma includes_intro (a s b : jsstring) : includes (a ++ s ++ b) s = true.
Proof.
  induction a as [|c a IH].
  - cbn [app]. destruct (s ++ b) eqn:E; cbn [includes].
    + destruct s; [reflexivity | discriminate].
    + rewrite <- E, starts_with_self_app. reflexivity.
  - cbn [app includes]. rewrite IH. apply orb_true_r.
Qed.

Lemma includes_app_r (a s t : jsstring) :
  includes s t = true -> includes (a ++ s) t = true.
Proof.
  intro H. apply includes_app in H. destruct H as (x & y & ->).
  rewrite app_assoc. apply includes_intro.
Qed.

Lemma includes_app_l (s b t : jsstring) :
  includes s t = true -> includes (s ++ b) t = true.
Proof.
  intro H. apply includes_app in H. destruct H as (x & y & ->).
  rewrite <- !app_assoc. apply includes_intro.
Qed.

Ltac find_occurrence :=
  first [ apply includes_intro
        | apply includes_app_l; find_occurrence
        | apply includes_app_r; find_occurrence ].

(** Both prompts carry the context of the request as it is. *)
Lemma prompts_include_context (data : APIManager.RequestData) :
  APIManager.context data <> [] ->
  includes (buildHFPrompt data) (APIManager.context data) = true /\
  includes (buildGeminiPrompt data) (APIManager.context data) = true.
Proof.
  intro Hne. unfold buildHFPrompt, buildGeminiPrompt.
  destruct (APIManager.context data) as [|c ctx] eqn:C; [congruence|].
  cbn [length negb]. change (negb (Z.of_nat (S (length ctx)) =? 0)) with
    (negb (Z.of_nat (S (length ctx)) =? 0)).
  assert (L : negb (Z.of_nat (S (length ctx)) =? 0) = true).
  { destruct (Z.of_nat (S (length ctx)) =? 0) eqn:E; [|reflexivity].
    apply Z.eqb_eq in E. lia. }
  rewrite L.
  split; destruct (APIManager.contactStyle data); find_occurrence.
Qed.

Variable cryptoAvailable : bool.
Variable subtle_digest : list PrivacyManager.byte -> completion (list PrivacyManager.byte).
Variable utf8_encode : jsstring -> list PrivacyManager.byte.

(** What the sanitizer does to a request of the content script. *)
Lemma sanitized_request (now : Z) (req : ContentScript.Request) :
  to_request (sanitizeData cryptoAvailable subtle_digest utf8_encode now
                (of_request req))
  = Some {| APIManager.message :=
              match ContentScript.r_message req with
              | [] => []
              | m => Sanitizer.anonymizeMessage m
              end;
            APIManager.context := ContentScript.r_context req;
            APIManager.contactStyle := ContentScript.r_contactStyle req |}.
Proof.
  unfold to_request, sanitizeData, of_request.
  cbn [message context contactStyle update_if_truthy].
  destruct (ContentScript.r_message req); reflexivity.
Qed.

(** The sanitizer drops the contact identifier and the platform and
    replaces the message by its scrubbed form, but it passes the
    conversation context on as it is: the text of a received message, which
    the content script quotes in the context, is part of both providers'
    prompts unscrubbed, next to the scrubbed message. *)
Theorem received_text_reaches_prompts_unscrubbed
    (now : Z) (st : ContentScript.Script) (data : Adapter.MessageData)
    (resolved : ContentScript.Contact) :
  ContentScript.isEnabled st = true ->
  exists req request,
    ContentScript.handleTypingDetected
      (Some (ContentScript.contactId resolved))
      (ContentScript.handleMessageReceived data resolved st) = Some req /\
    let sanitized :=
      sanitizeData cryptoAvailable subtle_digest utf8_encode now
        (of_request req) in
    contactId sanitized = None /\
    platform sanitized = None /\
    to_request sanitized = Some request /\
    APIManager.message request
    = match Adapter.message data with
      | [] => []
      | received => Sanitizer.anonymizeMessage received
      end /\
    APIManager.context request = ContentScript.r_context req /\
    includes (buildHFPrompt request)
             (lit "Them: " ++ Adapter.message data) = true /\
    includes (buildGeminiPrompt request)
             (lit "Them: " ++ Adapter.message data) = true /\
    includes (buildHFPrompt request) (APIManager.message request) = true /\
    includes (buildGeminiPrompt request) (APIManager.message request) = true.
Proof.
  intro He.
  destruct (request_after_message st data resolved He)
    as (req & prefix & Hreq & Hm & Hc & Hs & Hctx).
  exists req. eexists. split; [exact Hreq|].
  cbv zeta. split; [reflexivity|]. split; [reflexivity|].
  split; [apply sanitized_request|].
  cbn [APIManager.message]. split; [rewrite Hm; reflexivity|].
  cbn [APIManager.context]. split; [reflexivity|].
  match goal with
  | |- _ /\ _ /\ includes (buildHFPrompt ?rd) ?m = true /\ _ =>
      assert (Own : includes (buildHFPrompt rd) m = true /\
                    includes (buildGeminiPrompt rd) m = true)
  end.
  { unfold buildHFPrompt, buildGeminiPrompt. cbn [APIManager.message].
    split; find_occurrence. }
  match goal with
  | |- ?A /\ ?B /\ _ =>
      enough (Ctx : A /\ B)
        by (destruct Ctx, Own; repeat split; assumption)
  end.
  match goal with
  | |- includes (buildHFPrompt ?rd) _ = true /\ _ =>
      assert (Cn : APIManager.context rd <> [])
  end.
  { cbn [APIManager.context]. rewrite Hctx.
    destruct prefix; discriminate. }
  destruct (prompts_include_context _ Cn) as [P1 P2].
  cbn [APIManager.context] in P1, P2.
  assert (Inc : includes (ContentScript.r_context req)
                         (lit "Them: " ++ Adapter.message data) = true).
  { rewrite Hctx. rewrite <- (app_nil_r (lit "Them: " ++ Adapter.message data)) at 1.
    apply includes_intro. }
  apply includes_app in Inc. destruct Inc as (x & y & Exy).
  remember (lit "Them: " ++ Adapter.message data) as quoted eqn:Q.
  split.
  - apply includes_app in P1. destruct P1 as (a & b & ->).
    rewrite Exy.
    replace (a ++ (x ++ quoted ++ y) ++ b)
      with ((a ++ x) ++ quoted ++ (y ++ b))
      by (rewrite <- !app_assoc; reflexivity).
    apply includes_intro.
  - apply includes_app in P2. destruct P2 as (a & b & ->).
    rewrite Exy.
    replace (a ++ (x ++ quoted ++ y) ++ b)
      with ((a ++ x) ++ quoted ++ (y ++ b))
      by (rewrite <- !app_assoc; reflexivity).
    apply includes_intro.
Qed.

Variable toLowerCase : jsstring -> jsstring.

(** A request is answered from the sanitized payload, but the record kept
    in storage is built from the payload as it came in: it holds the
    contact identifier and the message text as received, next to the
    answer. *)
Theorem request_is_stored_as_received
    (apiKeys : option APIManager.ApiKeys) (hf gm : APIManager.FetchOutcome)
    (r : Q) (sanitizedAt storedAt : Z) (data : ContentScript.Request)
    (st : ServiceWorker.Storage) :
  (0 <= r)%Q -> (r < 1)%Q ->
  exists request response older,
    to_request (sanitizeData cryptoAvailable subtle_digest utf8_encode
                  sanitizedAt (of_request data)) = Some request /\
    APIManager.generateResponse toLowerCase apiKeys hf gm r request
    = Some response /\
    response <> [] /\
    handleAIRequest cryptoAvailable subtle_digest utf8_encode toLowerCase
      apiKeys hf gm r sanitizedAt storedAt data st
    = Some (ServiceWorker.storeConversationData
              (ContentScript.r_contactId data) (ContentScript.r_platform data)
              (ContentScript.r_message data) response storedAt st,
            Success response) /\
    ServiceWorker.stored
      (ServiceWorker.storeConversationData
         (ContentScript.r_contactId data) (ContentScript.r_platform data)
         (ContentScript.r_message data) response storedAt st)
    = older ++
      [{| ServiceWorker.contactId := ContentScript.r_contactId data;
          ServiceWorker.platform := ContentScript.r_platform data;
          ServiceWorker.message := ContentScript.r_message data;
          ServiceWorker.response := response;
          ServiceWorker.timestamp := storedAt;
          ServiceWorker.success := true |}].
Proof.
  intros H0 H1.
  pose proof (sanitized_request sanitizedAt data) as S.
  match type of S with
  | _ = Some ?request =>
      destruct (generateResponse_nonempty toLowerCase apiKeys hf gm r
                  request H0 H1) as (response & G & Hne)
  end.
  destruct (store_appends (ContentScript.r_contactId data)
              (ContentScript.r_platform data) (ContentScript.r_message data)
              response storedAt st) as [older Ho].
  eexists. exists response, older.
  split; [exact S|]. split; [exact G|]. split; [exact Hne|].
  split; [|exact Ho].
  unfold handleAIRequest. rewrite S, G. reflexivity.
Qed.

End RequestPrivacy.

(** ** Degraded mode of the privacy manager *)

Section DegradedMode.
Import JSValue PrivacyManager.

Variable cryptoAvailable : bool.
Variables subtle_encrypt subtle_decrypt
  : list byte -> list byte -> list byte -> completion (list byte).
Variable JSON_stringify : jsval -> completion (option jsstring).
Variable JSON_parse : jsstring -> completion jsval.
Variable utf8_encode : jsstring -> list byte.
Variable utf8_decode : list byte -> jsstring.
Variable ToUint8_other : jsval -> byte.

(** Without the crypto primitive or without a key nothing is encrypted:
    [encryptData] hands the data back as it is, and so does it when the
    serialization or the encryption fails; [decryptData] hands its
    argument back when there is no primitive or key, when the argument is
    not an array, and when decryption or parsing fails.  In degraded mode
    the round trip is the identity on every value. *)
Theorem degraded_mode_stores_plain_data
    (m : Manager) (iv : list byte) (data : jsval) :
  (cryptoAvailable = false \/ encryptionKey m = None ->
   encryptData cryptoAvailable subtle_encrypt JSON_stringify utf8_encode
     m iv data = data /\
   decryptData cryptoAvailable subtle_decrypt JSON_parse utf8_decode
     ToUint8_other m data = data) /\
  (forall key,
      encryptionKey m = Some key ->
      (exists e, JSON_stringify data = Throw e) \/
      (forall s, JSON_stringify data = Normal s ->
         exists e,
           subtle_encrypt key iv
             (utf8_encode (match s with Some t => t | None => [] end))
           = Throw e) ->
      encryptData cryptoAvailable subtle_encrypt JSON_stringify utf8_encode
        m iv data = data) /\
  ((forall elems, data <> JArr elems) ->
   decryptData cryptoAvailable subtle_decrypt JSON_parse utf8_decode
     ToUint8_other m data = data) /\
  (forall key elems,
      encryptionKey m = Some key -> data = JArr elems ->
      (exists e,
          subtle_decrypt key
            (firstn 12 (uint8array_of ToUint8_other elems))
            (skipn 12 (uint8array_of ToUint8_other elems)) = Throw e) ->
      decryptData cryptoAvailable subtle_decrypt JSON_parse utf8_decode
        ToUint8_other m data = data).
Proof.
  split; [|split; [|split]].
  - intros [Hc|Hk]; unfold encryptData, decryptData.
    + rewrite Hc. split; reflexivity.
    + rewrite Hk. split; destruct cryptoAvailable; reflexivity.
  - intros key Hk H. unfold encryptData, encryptData_try. rewrite Hk.
    destruct cryptoAvailable; [|reflexivity].
    destruct H as [[e He]|H].
    + rewrite He. reflexivity.
    + destruct (JSON_stringify data) as [s|e]; [|reflexivity].
      destruct (H s eq_refl) as [e He]. cbn [bind]. rewrite He. reflexivity.
  - intro H. unfold decryptData.
    destruct cryptoAvailable; [|reflexivity].
    destruct (encryptionKey m); [|reflexivity].
    destruct data; try reflexivity. exfalso. eapply H. reflexivity.
  - intros key elems Hk -> [e He]. unfold decryptData, decryptData_try.
    rewrite Hk. destruct cryptoAvailable; [|reflexivity].
    rewrite He. reflexivity.
Qed.

End DegradedMode.

(** ** Platform detection *)

Section PlatformDetection.
Import PlatformDetector.
Import Adapter (platform, WhatsApp, Instagram, Telegram, platform_name).

(** Detection always ends in a coherent state: there is an adapter
    exactly when the platform is one of the three supported ones, it is the
    adapter of that platform, and otherwise the platform is "unknown" and
    the page is never reported ready. *)
Theorem detection_is_coherent (loc : Location) (present : jsstring -> bool) :
  let d := detectPlatform loc present in
  (forall p, platformAdapter d = Some p <->
             currentPlatform d = Some (platform_name p)) /\
  (platformAdapter d = None <-> currentPlatform d = Some (lit "unknown")) /\
  isSupportedPlatform d
  = (match platformAdapter d with Some _ => true | None => false end) /\
  (platformAdapter d = None -> isPlatformReady present d = false).
Proof.
  assert (R : forall q,
             (forall p, platformAdapter (resolved q) = Some p <->
                        currentPlatform (resolved q) = Some (platform_name p)) /\
             (platformAdapter (resolved q) = None <->
              currentPlatform (resolved q) = Some (lit "unknown")) /\
             isSupportedPlatform (resolved q) = true /\
             (platformAdapter (resolved q) = None ->
              isPlatformReady present (resolved q) = false)).
  { intro q. split; [|split; [|split]].
    - intro p. cbn. split.
      + intros [= ->]. reflexivity.
      + destruct q, p; intro H; try reflexivity; vm_compute in H; discriminate.
    - cbn. split; [discriminate|]. destruct q; intro H; vm_compute in H;
        discriminate.
    - destruct q; reflexivity.
    - cbn. discriminate. }
  cbv zeta. unfold detectPlatform.
  destruct (includes (hostname loc) (lit "web.whatsapp.com") || _);
    [apply R|].
  destruct ((includes (hostname loc) (lit "instagram.com") || _) && _);
    [apply R|].
  destruct (includes (hostname loc) (lit "web.telegram.org") || _);
    [apply R|].
  destruct (detectFromContent present) as [q|]; [apply R|].
  cbn [platformAdapter currentPlatform]. split; [|split; [|split]].
  - intro p. split; [discriminate|]. destruct p; intro H; vm_compute in H;
      discriminate.
  - split; reflexivity.
  - reflexivity.
  - reflexivity.
Qed.

(** Every tab the service worker injects the content script into, other
    than one whose host contains "www.instagram.com", gets an adapter from
    its host name alone, whatever its path and content; a tab on
    "www.instagram.com" gets one only on a path with "/direct/" or
    "/messages/" or when the page shows one of the content markers, and is
    "unknown" otherwise although the script was injected. *)
Theorem injected_tabs_and_detection
    (loc : Location) (present : jsstring -> bool) :
  injects (hostname loc) = true ->
  (includes (hostname loc) (lit "www.instagram.com") = false ->
   platformAdapter (detectPlatform loc present) <> None) /\
  (hostname loc = lit "www.instagram.com" ->
   includes (pathname loc) (lit "/direct/") = false ->
   includes (pathname loc) (lit "/messages/") = false ->
   detectFromContent present = None ->
   currentPlatform (detectPlatform loc present) = Some (lit "unknown")).
Proof.
  intro Hi. split.
  - intro Hn. unfold injects in Hi. cbn [existsb] in Hi.
    rewrite Hn in Hi. cbn [orb] in Hi. rewrite orb_false_r in Hi.
    unfold detectPlatform.
    destruct (includes (hostname loc) (lit "web.whatsapp.com")) eqn:W;
      [cbn; discriminate|].
    cbn [orb] in Hi |- *.
    destruct (includes (hostname loc) (lit "whatsapp.com")); [cbn; discriminate|].
    destruct ((includes (hostname loc) (lit "instagram.com") || _) && _);
      [cbn; discriminate|].
    rewrite Hi. cbn. discriminate.
  - intros Hh Hd Hm Hc. unfold detectPlatform. rewrite Hh, Hd, Hm, Hc.
    vm_compute. reflexivity.
Qed.

End PlatformDetection.

(** ** The overlay *)

Section OverlayTimers.
Import UIOverlay.

(** Suggestions that arrive within the 200 ms after a dismissal are lost:
    the overlay still counts as visible, so they are taken in, and the
    timeout of the dismissal then clears them and hides the overlay. *)
Theorem suggestions_after_dismissal_are_wiped
    (o : ContentScript.Overlay) (suggestions : list ContentScript.Suggestion)
    (contact : option ContentScript.Contact) :
  isVisible o = true ->
  suggestions <> [] ->
  let dismissed := hide o in
  let refilled := showSuggestions suggestions contact dismissed in
  let settled := hideTimeoutElapsed refilled in
  currentSuggestions refilled = suggestions /\
  currentContact refilled = contact /\
  isVisible settled = false /\
  currentSuggestions settled = [] /\
  currentContact settled = None /\
  pendingHides settled = pendingHides o.
Proof.
  intros Hv Hs. destruct o as [v cs cc ph ah].
  cbn [isVisible] in Hv. subst v.
  destruct suggestions as [|s rest]; [congruence|].
  assert (E : (Z.of_nat (length (s :: rest)) =? 0) = false).
  { apply Z.eqb_neq. cbn [length]. lia. }
  cbv zeta. unfold hide, showSuggestions, show, hideTimeoutElapsed.
  cbn [isVisible negb currentSuggestions currentContact pendingHides
       autoHideTimer].
  rewrite E.
  cbn [isVisible negb currentSuggestions currentContact pendingHides
       autoHideTimer].
  repeat split; reflexivity.
Qed.

End OverlayTimers.

(** ** The properties above at concrete inputs *)

Lemma emitter_never_keeps_empty_event_witness :
  EventEmitter.inherited Examples.messageEvent = false /\
  EventEmitter.no_empty_array
    (EventEmitter.run Examples.emitterOps EventEmitter.new).
Proof.
  split; [reflexivity|].
  apply (proj1 (emitter_never_keeps_empty_event Examples.emitterOps
                  Examples.messageEvent eq_refl)).
Defined.

Lemma on_then_off_round_trip_witness :
  EventEmitter.events Examples.oneListener
  = Some [(Examples.messageEvent, [EventEmitter.Callback 1])] /\
  EventEmitter.no_empty_array Examples.oneListener /\
  EventEmitter.inherited Examples.messageEvent = false /\
  exists em1 em2,
    EventEmitter.on Examples.messageEvent (EventEmitter.Callback 2)
      Examples.oneListener = JSValue.Normal em1 /\
    EventEmitter.off Examples.messageEvent (EventEmitter.Callback 2) em1
    = JSValue.Normal em2 /\
    em2 = Examples.oneListener.
Proof.
  assert (N : EventEmitter.no_empty_array Examples.oneListener).
  { cbn. repeat constructor. discriminate. }
  split; [reflexivity|]. split; [exact N|]. split; [reflexivity|].
  destruct (on_then_off_round_trip Examples.oneListener _
              Examples.messageEvent (EventEmitter.Callback 2)
              eq_refl N eq_refl)
    as (em1 & em2 & H1 & H2 & _ & _ & H5).
  exists em1, em2. split; [exact H1|]. split; [exact H2|].
  apply H5. cbn. intros [H|[]]. discriminate.
Defined.

Lemma emit_calls_all_in_order_witness :
  EventEmitter.events Examples.oneListener
  = Some [(Examples.messageEvent, [EventEmitter.Callback 1])] /\
  EventEmitter.own [(Examples.messageEvent, [EventEmitter.Callback 1])]
    Examples.messageEvent = Some [EventEmitter.Callback 1] /\
  exists em',
    EventEmitter.emit (fun _ => true) Examples.messageEvent
      Examples.oneListener = JSValue.Normal (em', [1%nat]).
Proof.
  split; [reflexivity|]. split; [reflexivity|].
  apply (emit_calls_all_in_order (fun _ => true) Examples.oneListener
           [(Examples.messageEvent, [EventEmitter.Callback 1])]
           Examples.messageEvent [EventEmitter.Callback 1]
           eq_refl eq_refl).
Defined.

Lemma once_listener_is_one_shot_unless_it_throws_witness :
  EventEmitter.inherited Examples.messageEvent = false /\
  EventEmitter.listeners Examples.messageEvent
    (EventEmitter.run [EventEmitter.OpOnce Examples.messageEvent 1]
       EventEmitter.new)
  = [EventEmitter.OnceCallback 0 1] /\
  exists em1 em2,
    EventEmitter.once Examples.messageEvent 2
      (EventEmitter.run [EventEmitter.OpOnce Examples.messageEvent 1]
         EventEmitter.new) = JSValue.Normal em1 /\
    EventEmitter.emit (fun _ => false) Examples.messageEvent em1
    = JSValue.Normal (em2, [1%nat; 2%nat]) /\
    EventEmitter.listeners Examples.messageEvent em2 = [].
Proof.
  split; [reflexivity|]. split; [reflexivity|].
  destruct (once_listener_is_one_shot_unless_it_throws (fun _ => false)
              [EventEmitter.OpOnce Examples.messageEvent 1]
              Examples.messageEvent 2 eq_refl)
    as (em1 & em2 & em3 & H1 & H2 & H3 & _).
  exists em1, em2. split; [exact H1|]. split; [exact H2|]. exact H3.
Defined.

Lemma typing_burst_emits_one_event_witness :
  Forall Observer.valid_typing
    ([Examples.typingOf 1; Examples.typingOf 2] ++ [Examples.typingOf 3]) /\
  Observer.typingEvents
    (MessageDetector.typingTimerFired
       (fold_left (fun s d => MessageDetector.handleTypingDetected d s)
          ([Examples.typingOf 1; Examples.typingOf 2] ++ [Examples.typingOf 3])
          Examples.whatsAppDetector))
  = [Examples.typingOf 3].
Proof.
  assert (V : Forall Observer.valid_typing
                ([Examples.typingOf 1; Examples.typingOf 2] ++
                 [Examples.typingOf 3])).
  { assert (V1 : forall t, Observer.valid_typing (Examples.typingOf t)).
    { intro t. split; [|discriminate].
      exists (lit "alice"). split; [reflexivity | discriminate]. }
    cbn [app]. repeat (apply Forall_cons; [apply V1|]). apply Forall_nil. }
  split; [exact V|].
  apply (proj1 (proj2 (typing_burst_emits_one_event Examples.whatsAppDetector
                         [Examples.typingOf 1; Examples.typingOf 2]
                         (Examples.typingOf 3) V))).
Defined.

Lemma stopMonitoring_silences_observer_witness :
  Observer.isMonitoring Examples.monitoring = true /\
  Observer.timerElapsed (Observer.stopMonitoring Examples.monitoring)
  = Observer.stopMonitoring Examples.monitoring.
Proof.
  split; [reflexivity|].
  apply (proj1 (proj2 (stopMonitoring_silences_observer
                         (Scenarios.alice_page Adapter.WhatsApp)
                         (fun _ => 0) [] Examples.monitoring eq_refl))).
Defined.

Lemma contact_change_announced_once_witness :
  MessageDetector.messageQueue Examples.whatsAppDetector = [] /\
  MessageDetector.valid (Scenarios.hello_at 1000) /\
  MessageDetector.valid (Scenarios.hello_at 9000) /\
  MessageDetector.getCurrentContactId Examples.whatsAppDetector
    (Scenarios.alice_page Adapter.WhatsApp) = Some (lit "alice") /\
  MessageDetector.lastContactId Examples.whatsAppDetector <> Some (lit "alice") /\
  MessageDetector.emitted
    (MessageDetector.handleNewMessage (Scenarios.alice_page Adapter.WhatsApp)
       1001 (Scenarios.hello_at 1000) Examples.whatsAppDetector)
  = [MessageDetector.contactChanged (lit "alice") (lit "whatsapp") 1001;
     MessageDetector.messageReceived (Scenarios.hello_at 1000)] /\
  MessageDetector.emitted
    (MessageDetector.handleNewMessage (Scenarios.alice_page Adapter.WhatsApp)
       9001 (Scenarios.hello_at 9000)
       (MessageDetector.handleNewMessage
          (Scenarios.alice_page Adapter.WhatsApp) 1001
          (Scenarios.hello_at 1000) Examples.whatsAppDetector))
  = MessageDetector.emitted
      (MessageDetector.handleNewMessage
         (Scenarios.alice_page Adapter.WhatsApp) 1001
         (Scenarios.hello_at 1000) Examples.whatsAppDetector)
    ++ [MessageDetector.messageReceived (Scenarios.hello_at 9000)].
Proof.
  assert (V : forall t, MessageDetector.valid (Scenarios.hello_at t)).
  { intro t. repeat split; discriminate. }
  assert (C : MessageDetector.getCurrentContactId Examples.whatsAppDetector
                (Scenarios.alice_page Adapter.WhatsApp) = Some (lit "alice")).
  { vm_compute. reflexivity. }
  assert (L : MessageDetector.lastContactId Examples.whatsAppDetector <> Some (lit "alice"))
    by discriminate.
  split; [reflexivity|]. split; [apply V|]. split; [apply V|].
  split; [exact C|]. split; [exact L|].
  destruct (contact_change_announced_once
              (Scenarios.alice_page Adapter.WhatsApp) 1001 9001
              (Scenarios.hello_at 1000) (Scenarios.hello_at 9000)
              Examples.whatsAppDetector eq_refl (V 1000) (V 9000))
    as (Changed & _ & Second).
  split; [|exact Second].
  apply (proj1 (Changed (lit "alice") C ltac:(discriminate) L)).
Defined.


Lemma request_carries_latest_message_witness :
  ContentScript.isEnabled ContentScript.new = true /\
  exists req prefix,
    ContentScript.handleTypingDetected
      (Some (ContentScript.contactId Scenarios.contactY))
      (ContentScript.handleMessageReceived (Scenarios.hello_at 1000)
         Scenarios.contactY ContentScript.new) = Some req /\
    ContentScript.r_message req = lit "hello" /\
    ContentScript.r_contactId req = lit "5899680" /\
    ContentScript.r_contactStyle req = None /\
    ContentScript.r_context req = prefix ++ lit "Them: " ++ lit "hello".
Proof.
  split; [reflexivity|].
  apply (request_carries_latest_message ContentScript.new
           (Scenarios.hello_at 1000) Scenarios.contactY eq_refl).
Defined.

Lemma provider_text_is_trimmed_and_bounded_witness :
  APIManager.tryHuggingFace Examples.bothKeys Examples.hfAnswer
  = JSValue.Normal (Some (lit "Sure thing")) /\
  (length (lit "Sure thing") <= 103)%nat.
Proof.
  assert (H : APIManager.tryHuggingFace Examples.bothKeys Examples.hfAnswer
              = JSValue.Normal (Some (lit "Sure thing"))).
  { vm_compute. reflexivity. }
  split; [exact H|].
  apply (proj1 (provider_text_is_trimmed_and_bounded Examples.bothKeys
                  Examples.hfAnswer (lit "Sure thing") (or_introl H))).
Defined.

Lemma provider_priority_and_missing_keys_witness :
  APIManager.generateResponse APIManager.ascii_toLowerCase Examples.bothKeys
    Examples.hfAnswer APIManager.FetchRejected (1 # 2) Examples.thinkRequest
  = Some (lit "Sure thing") /\
  APIManager.generateResponse APIManager.ascii_toLowerCase Examples.noKeys
    Examples.hfAnswer Examples.hfAnswer (1 # 2) Examples.thinkRequest
  = APIManager.generateLocalResponse APIManager.ascii_toLowerCase (1 # 2)
      Examples.thinkRequest.
Proof.
  split.
  - apply (proj1 (provider_priority_and_missing_keys
                    APIManager.ascii_toLowerCase Examples.bothKeys
                    Examples.hfAnswer APIManager.FetchRejected (1 # 2)
                    Examples.thinkRequest)).
    + vm_compute. reflexivity.
    + discriminate.
  - apply (proj2 (provider_priority_and_missing_keys
                    APIManager.ascii_toLowerCase Examples.noKeys
                    Examples.hfAnswer Examples.hfAnswer (1 # 2)
                    Examples.thinkRequest)).
    split; reflexivity.
Defined.

Lemma local_answer_is_canned_witness :
  APIManager.generateLocalResponse APIManager.ascii_toLowerCase (1 # 2)
    Examples.thinkRequest = Some (lit "Hi! How are you?") /\
  includes (APIManager.ascii_toLowerCase (lit "I think so")) (lit "hi") = true /\
  In (lit "Hi! How are you?") APIManager.greetingResponses.
Proof.
  assert (H : APIManager.generateLocalResponse APIManager.ascii_toLowerCase
                (1 # 2) Examples.thinkRequest = Some (lit "Hi! How are you?")).
  { vm_compute. reflexivity. }
  assert (I : includes (APIManager.ascii_toLowerCase (lit "I think so"))
                       (lit "hi") = true).
  { vm_compute. reflexivity. }
  split; [exact H|]. split; [exact I|].
  apply (proj2 (local_answer_is_canned APIManager.ascii_toLowerCase (1 # 2)
                  Examples.thinkRequest (lit "Hi! How are you?") H)).
  left. exact I.
Defined.

Lemma received_text_reaches_prompts_unscrubbed_witness :
  ContentScript.isEnabled ContentScript.new = true /\
  exists req request,
    ContentScript.handleTypingDetected
      (Some (ContentScript.contactId Scenarios.contactY))
      (ContentScript.handleMessageReceived Examples.phoneMessage
         Scenarios.contactY ContentScript.new) = Some req /\
    AIRequest.to_request
      (AIRequest.sanitizeData false (fun _ => JSValue.Throw [])
         Scenarios.toy_encode 7 (AIRequest.of_request req)) = Some request /\
    APIManager.message request = lit "call [PHONE]" /\
    includes (AIRequest.buildHFPrompt request)
             (lit "Them: call 555-123-4567") = true /\
    includes (AIRequest.buildGeminiPrompt request)
             (lit "Them: call 555-123-4567") = true.
Proof.
  split; [reflexivity|].
  destruct (received_text_reaches_prompts_unscrubbed false
              (fun _ => JSValue.Throw []) Scenarios.toy_encode 7
              ContentScript.new Examples.phoneMessage Scenarios.contactY
              eq_refl)
    as (req & request & H1 & _ & _ & H4 & Hm & _ & H6 & H7 & _).
  exists req, request. split; [exact H1|]. split; [exact H4|].
  split; [rewrite Hm; vm_compute; reflexivity|].
  split; [exact H6 | exact H7].
Defined.

Lemma request_is_stored_as_received_witness :
  (0 <= 1 # 2)%Q /\ (1 # 2 < 1)%Q /\
  exists response st',
    AIRequest.handleAIRequest false (fun _ => JSValue.Throw [])
      Scenarios.toy_encode APIManager.ascii_toLowerCase Examples.noKeys
      APIManager.FetchRejected APIManager.FetchRejected (1 # 2) 7 8
      Scenarios.theRequestForY Examples.noStorage
    = Some (st', AIRequest.Success response) /\
    st' = ServiceWorker.storeConversationData (lit "5899680") (lit "whatsapp")
            (lit "hello") response 8 Examples.noStorage.
Proof.
  assert (H0 : (0 <= 1 # 2)%Q) by (vm_compute; discriminate).
  assert (H1 : (1 # 2 < 1)%Q) by reflexivity.
  split; [exact H0|]. split; [exact H1|].
  destruct (request_is_stored_as_received false (fun _ => JSValue.Throw [])
              Scenarios.toy_encode APIManager.ascii_toLowerCase
              Examples.noKeys APIManager.FetchRejected APIManager.FetchRejected
              (1 # 2) 7 8 Scenarios.theRequestForY Examples.noStorage H0 H1)
    as (request & response & older & _ & _ & _ & H & _).
  exists response. eexists. split; [exact H | reflexivity].
Defined.

Lemma cleanup_keeps_exactly_the_recent_records_witness :
  ServiceWorker.conversationData Examples.noStorage = None /\
  ServiceWorker.cleanupOldData 5000000000 Examples.noStorage
  = Examples.noStorage /\
  ServiceWorker.stored (ServiceWorker.cleanupOldData 5000000000 Examples.oneRecord)
  = [].
Proof.
  split; [reflexivity|]. split.
  - apply (proj2 (proj2 (proj2 (proj2
             (cleanup_keeps_exactly_the_recent_records 5000000000
                Examples.noStorage))))).
    reflexivity.
  - rewrite (proj1 (proj2 (cleanup_keeps_exactly_the_recent_records
                             5000000000 Examples.oneRecord))).
    reflexivity.
Defined.

Lemma stored_record_is_kept_for_30_days_witness :
  2591999999 - 0 < 2592000000 /\
  In {| ServiceWorker.contactId := lit "alice";
        ServiceWorker.platform := lit "whatsapp";
        ServiceWorker.message := lit "hi";
        ServiceWorker.response := lit "Hello!";
        ServiceWorker.timestamp := 0;
        ServiceWorker.success := true |}
     (ServiceWorker.stored
        (ServiceWorker.cleanupOldData 2591999999
           (ServiceWorker.storeConversationData (lit "alice") (lit "whatsapp")
              (lit "hi") (lit "Hello!") 0 Examples.oneRecord))).
Proof.
  split; [lia|].
  apply (proj1 (stored_record_is_kept_for_30_days (lit "alice")
                  (lit "whatsapp") (lit "hi") (lit "Hello!") 0 2591999999
                  Examples.oneRecord)).
  lia.
Defined.

Lemma degraded_mode_stores_plain_data_witness :
  PrivacyManager.encryptionKey Examples.noKeyManager = None /\
  PrivacyManager.decryptData true Scenarios.toy_decrypt Scenarios.toy_parse
    Scenarios.toy_decode (fun _ => Byte.x00) Examples.noKeyManager
    (PrivacyManager.encryptData true Scenarios.toy_encrypt
       Scenarios.toy_stringify Scenarios.toy_encode Examples.noKeyManager
       Scenarios.toy_iv (JSValue.JArr [JSValue.JNull]))
  = JSValue.JArr [JSValue.JNull].
Proof.
  split; [reflexivity|].
  destruct (proj1 (degraded_mode_stores_plain_data true Scenarios.toy_encrypt
                     Scenarios.toy_decrypt Scenarios.toy_stringify
                     Scenarios.toy_parse Scenarios.toy_encode
                     Scenarios.toy_decode (fun _ => Byte.x00)
                     Examples.noKeyManager Scenarios.toy_iv
                     (JSValue.JArr [JSValue.JNull]))
                  (or_intror eq_refl)) as [E D].
  rewrite E. exact D.
Defined.

Lemma detection_is_coherent_witness :
  PlatformDetector.platformAdapter
    (PlatformDetector.detectPlatform Examples.instagramFeedTab (fun _ => false))
  = None /\
  PlatformDetector.isPlatformReady (fun _ => true)
    (PlatformDetector.detectPlatform Examples.instagramFeedTab (fun _ => false))
  = false.
Proof.
  assert (H : PlatformDetector.platformAdapter
                (PlatformDetector.detectPlatform Examples.instagramFeedTab
                   (fun _ => false)) = None).
  { vm_compute. reflexivity. }
  split; [exact H|].
  apply (proj2 (proj2 (proj2 (detection_is_coherent Examples.instagramFeedTab
                                (fun _ => false)))) H).
Defined.

Lemma injected_tabs_and_detection_witness :
  PlatformDetector.injects
    (PlatformDetector.hostname Examples.whatsAppTab) = true /\
  includes (PlatformDetector.hostname Examples.whatsAppTab)
           (lit "www.instagram.com") = false /\
  PlatformDetector.platformAdapter
    (PlatformDetector.detectPlatform Examples.whatsAppTab (fun _ => false))
  <> None.
Proof.
  assert (I : PlatformDetector.injects
                (PlatformDetector.hostname Examples.whatsAppTab) = true).
  { vm_compute. reflexivity. }
  assert (N : includes (PlatformDetector.hostname Examples.whatsAppTab)
                       (lit "www.instagram.com") = false).
  { vm_compute. reflexivity. }
  split; [exact I|]. split; [exact N|].
  apply (proj1 (injected_tabs_and_detection Examples.whatsAppTab
                  (fun _ => false) I) N).
Defined.

Lemma suggestions_after_dismissal_are_wiped_witness :
  UIOverlay.isVisible Examples.shownOverlay = true /\
  Examples.newSuggestions <> [] /\
  UIOverlay.currentSuggestions
    (UIOverlay.hideTimeoutElapsed
       (UIOverlay.showSuggestions Examples.newSuggestions
          (Some Scenarios.contactX) (UIOverlay.hide Examples.shownOverlay)))
  = [].
Proof.
  split; [reflexivity|]. split; [discriminate|].
  apply (proj1 (proj2 (proj2 (proj2
           (suggestions_after_dismissal_are_wiped Examples.shownOverlay
              Examples.newSuggestions (Some Scenarios.contactX) eq_refl
              ltac:(discriminate)))))).
Defined.

Lemma privacy_hashString_hex_witness :
  forallb is_hex_digit (lit "alice@example.org") = false /\
  includes
    (PrivacyManager.hashString false (fun _ => JSValue.Throw [])
       Scenarios.toy_encode (lit "alice@example.org"))
    (lit "alice@example.org") = false.
Proof.
  assert (H : forallb is_hex_digit (lit "alice@example.org") = false).
  { vm_compute. reflexivity. }
  split; [exact H|].
  apply (proj2 (privacy_hashString_hex false (fun _ => JSValue.Throw [])
                  Scenarios.toy_encode (lit "alice@example.org")) H).
Defined.

Lemma random_picks_stay_within_the_array_witness :
  (0 <= Examples.twoThirds)%Q /\ (Examples.twoThirds < 1)%Q /\
  Qfloor (Examples.twoThirds * 3) = 1 /\
  APIManager.getRandomResponse Examples.twoThirds APIManager.greetingResponses
  = Some (lit "Hello! Nice to hear from you").
Proof.
  assert (H0 : (0 <= Examples.twoThirds)%Q) by (vm_compute; discriminate).
  assert (H1 : (Examples.twoThirds < 1)%Q) by reflexivity.
  split; [exact H0|]. split; [exact H1|]. split; [reflexivity|].
  destruct (proj1 (random_picks_stay_within_the_array Examples.twoThirds
                     H0 H1)
              APIManager.greetingResponses ltac:(discriminate))
    as (i & x & Hi & _ & Hn & Hg).
  rewrite Hg.
  assert (I : i = 2%nat).
  { match type of Hi with
    | _ = ?k => assert (K : k = 2) by (vm_compute; reflexivity)
    end.
    rewrite K in Hi. lia. }
  rewrite I in Hn. rewrite <- Hn. reflexivity.
Defined.
